(** * GeoSnap OCR service: text cleaning, field parsing and strategy selection

    A shallow embedding of [server-services-ocr.js]:
    - JavaScript strings are lists of UTF-16 code units ([N]);
    - the regular expressions of the source are terms of a small regex
      syntax, run by a backtracking matcher that follows the priority
      order of the ECMAScript matcher (greedy quantifiers, left
      alternative first, leftmost match);
    - the recognition engine, the image library and the file system are
      an environment record; [extractTextFromImage] threads the set of
      temporary files through its body and returns an outcome that says
      whether the call returned or threw. *)

From Stdlib Require Import String Ascii.
From Stdlib Require Import List NArith ZArith QArith Bool Arith Lia.
Import ListNotations.
Close Scope Q_scope.

Set Implicit Arguments.

(** ** Strings *)

Module Js.

(** A UTF-16 code unit, and a string of them. *)
Abbreviation char := N (only parsing).
Abbreviation jsstring := (list N) (only parsing).

Definition of_string (s : string) : jsstring :=
  map N_of_ascii (list_ascii_of_string s).

Definition NL : char := 10%N.
Definition SP : char := 32%N.

Local Open Scope N_scope.

Definition in_range (lo hi c : char) : bool := (lo <=? c) && (c <=? hi).

(** WhiteSpace and LineTerminator of ECMAScript: what [\s] matches and
    what [String.prototype.trim] removes. *)
Definition is_ws (c : char) : bool :=
  in_range 9 13 c || (c =? 32) || (c =? 160) || (c =? 0x1680)
  || in_range 0x2000 0x200A c || (c =? 0x2028) || (c =? 0x2029)
  || (c =? 0x202F) || (c =? 0x205F) || (c =? 0x3000) || (c =? 0xFEFF).

Definition is_digit (c : char) : bool := in_range 48 57 c.
Definition is_lower (c : char) : bool := in_range 97 122 c.
Definition is_upper (c : char) : bool := in_range 65 90 c.
Definition is_alpha (c : char) : bool := is_lower c || is_upper c.
Definition is_alnum (c : char) : bool := is_alpha c || is_digit c.
(** [\w] *)
Definition is_word (c : char) : bool := is_alnum c || (c =? 95).

Definition is_char (a : ascii) (c : char) : bool := c =? N_of_ascii a.

(** Membership of a code unit in a string, for bracket classes. *)
Definition one_of (s : string) (c : char) : bool :=
  existsb (N.eqb c) (of_string s).

(** Canonicalize of a case-insensitive regex without the unicode flag,
    restricted to what a comparison with an ASCII pattern character can
    observe: ASCII letters fold to upper case, and no code unit above
    127 folds to an ASCII one. *)
Definition canon (c : char) : char := if is_lower c then c - 32 else c.

Local Close Scope N_scope.

Fixpoint drop_while (p : char -> bool) (s : jsstring) : jsstring :=
  match s with
  | [] => []
  | c :: t => if p c then drop_while p t else s
  end.

(** [s.trim()] *)
Definition trim (s : jsstring) : jsstring :=
  rev (drop_while is_ws (rev (drop_while is_ws s))).

(** [s.split("\n")] *)
Fixpoint split_nl (s : jsstring) : list jsstring :=
  match s with
  | [] => [[]]
  | c :: t =>
      if N.eqb c NL then [] :: split_nl t
      else match split_nl t with
           | h :: r => (c :: h) :: r
           | [] => [[c]]
           end
  end.

(** [l.join(sep)] *)
Fixpoint join (sep : jsstring) (l : list jsstring) : jsstring :=
  match l with
  | [] => []
  | [x] => x
  | x :: t => x ++ sep ++ join sep t
  end.

Fixpoint eqb (a b : jsstring) : bool :=
  match a, b with
  | [], [] => true
  | x :: a', y :: b' => N.eqb x y && eqb a' b'
  | _, _ => false
  end.

(** [set.has(x)] for a Set built from the array [l]. *)
Definition set_has (l : list jsstring) (x : jsstring) : bool :=
  existsb (eqb x) l.

(** [[...new Set(l)]]: the first occurrence of every element, in order. *)
Fixpoint dedupe_from (seen l : list jsstring) : list jsstring :=
  match l with
  | [] => []
  | x :: t =>
      if set_has seen x then dedupe_from seen t
      else x :: dedupe_from (x :: seen) t
  end.

Definition dedupe (l : list jsstring) : list jsstring := dedupe_from [] l.

(** [s || null] on a string. *)
Definition or_null (s : jsstring) : option jsstring :=
  match s with
  | [] => None
  | _ => Some s
  end.

End Js.

(** ** Regular expressions *)

Module Regex.
Import Js.

(** The fragment of the ECMAScript pattern syntax the service uses.
    Unbounded quantifiers occur only on character classes ([Many]);
    [Rep] is a bounded greedy quantifier on any pattern, [?] being
    [Rep 0 1]; groups capture nothing that the service reads, so they
    leave no trace in the syntax. *)
Inductive regex : Type :=
| Chr (p : char -> bool)              (* a class or a literal character *)
| Seq (a b : regex)
| Alt (a b : regex)
| Rep (lo hi : nat) (a : regex)       (* a{lo,hi}, greedy *)
| Many (lo : nat) (p : char -> bool)  (* [p]{lo,}, greedy *)
| WordB.                              (* \b *)

(** The matcher's position: the code unit before the cursor, if any, and
    the text from the cursor on. *)
Definition input := (option char * jsstring)%type.
Definition cont := input -> option jsstring.

(** [a{lo,hi}] for a pattern matched by [m]: one more turn of the
    pattern is tried first, and the rest of the regex without it only
    when that fails and [lo] turns are done.  Every quantified pattern
    of the service consumes at least one code unit, so the matcher's
    check against empty turns never fires and is not modelled. *)
Fixpoint rep (m : cont -> cont) (lo hi : nat) (k : cont) (st : input)
  : option jsstring :=
  match hi with
  | 0 => k st
  | S hi' =>
      match lo with
      | S lo' => m (rep m lo' hi' k) st
      | 0 =>
          match m (rep m 0 hi' k) st with
          | Some x => Some x
          | None => k st
          end
      end
  end.

(** [[p]{lo,}]: as many code units of the class as there are, given
    back one at a time while the rest of the regex fails. *)
Fixpoint many (p : char -> bool) (lo : nat) (k : cont)
  (prev : option char) (rest : jsstring) {struct rest} : option jsstring :=
  match lo with
  | S lo' =>
      match rest with
      | c :: t => if p c then many p lo' k (Some c) t else None
      | [] => None
      end
  | 0 =>
      match rest with
      | c :: t =>
          if p c then
            match many p 0 k (Some c) t with
            | Some x => Some x
            | None => k (prev, rest)
            end
          else k (prev, rest)
      | [] => k (prev, rest)
      end
  end.

(** The two sides of [\b]: a word character before the cursor, and
    after it. *)
Definition word_before (prev : option char) : bool :=
  match prev with Some c => is_word c | None => false end.

Definition word_after (rest : jsstring) : bool :=
  match rest with c :: _ => is_word c | [] => false end.

(** [mt r k st]: match [r] at [st], then the continuation [k]; the first
    success in the matcher's priority order is the result. *)
Fixpoint mt (r : regex) (k : cont) (st : input) : option jsstring :=
  match r with
  | Chr p =>
      match snd st with
      | c :: t => if p c then k (Some c, t) else None
      | [] => None
      end
  | Seq a b => mt a (mt b k) st
  | Alt a b =>
      match mt a k st with
      | Some x => Some x
      | None => mt b k st
      end
  | Rep lo hi a => rep (mt a) lo hi k st
  | Many lo p => many p lo k (fst st) (snd st)
  | WordB => if xorb (word_before (fst st)) (word_after (snd st)) then k st else None
  end.

(** A match attempt at the cursor: the text left after the match. *)
Definition match_here (r : regex) (prev : option char) (s : jsstring)
  : option jsstring :=
  mt r (fun st => Some (snd st)) (prev, s).

(** The length of a match that started at [s] and left [rest]. *)
Definition matched_len (s rest : jsstring) : nat := length s - length rest.

(** [r.test(s)] for a regex without the global flag. *)
Fixpoint test_from (r : regex) (prev : option char) (s : jsstring) : bool :=
  match match_here r prev s with
  | Some _ => true
  | None =>
      match s with
      | [] => false
      | c :: t => test_from r (Some c) t
      end
  end.

Definition test (r : regex) (s : jsstring) : bool := test_from r None s.

(** [[...s.matchAll(r)].map(m => m[0])] for a global regex.  [skip]
    counts the code units of the previous match still to pass; after an
    empty match the scan advances by one code unit. *)
Fixpoint match_all_from (r : regex) (prev : option char) (s : jsstring)
  (skip : nat) : list jsstring :=
  match s with
  | [] =>
      match skip, match_here r prev [] with
      | 0, Some _ => [[]]
      | _, _ => []
      end
  | c :: t =>
      match skip with
      | S n => match_all_from r (Some c) t n
      | 0 =>
          match match_here r prev s with
          | Some rest =>
              let n := matched_len s rest in
              firstn n s :: match_all_from r (Some c) t (n - 1)
          | None => match_all_from r (Some c) t 0
          end
      end
  end.

Definition match_all (r : regex) (s : jsstring) : list jsstring :=
  match_all_from r None s 0.

(** [s.replace(r, by)] for a global regex and a replacement without
    [$] patterns. *)
Fixpoint replace_from (r : regex) (by_ : jsstring) (prev : option char)
  (s : jsstring) (skip : nat) : jsstring :=
  match s with
  | [] =>
      match skip, match_here r prev [] with
      | 0, Some _ => by_
      | _, _ => []
      end
  | c :: t =>
      match skip with
      | S n => replace_from r by_ (Some c) t n
      | 0 =>
          match match_here r prev s with
          | Some rest =>
              match matched_len s rest with
              | 0 => by_ ++ c :: replace_from r by_ (Some c) t 0
              | S n => by_ ++ replace_from r by_ (Some c) t n
              end
          | None => c :: replace_from r by_ (Some c) t 0
          end
      end
  end.

Definition replace (r : regex) (by_ : jsstring) (s : jsstring) : jsstring :=
  replace_from r by_ None s 0.

(** Pattern builders. *)
Definition Opt (a : regex) : regex := Rep 0 1 a.
Definition Lit (a : ascii) : regex := Chr (is_char a).

(** A concatenation, and an alternation, of several patterns. *)
Fixpoint seq_of (l : list regex) (last : regex) : regex :=
  match l with
  | [] => last
  | a :: t => Seq a (seq_of t last)
  end.

(** A literal word of at least one character. *)
Definition word_of (f : ascii -> regex) (s : string) : regex :=
  match rev (list_ascii_of_string s) with
  | [] => Rep 0 0 WordB
  | z :: r => seq_of (map f (rev r)) (f z)
  end.

Definition Str : string -> regex := word_of Lit.

(** A literal character under the [i] flag. *)
Definition LitI (a : ascii) : regex :=
  Chr (fun c => N.eqb (canon c) (canon (N_of_ascii a))).
Definition StrI : string -> regex := word_of LitI.

Fixpoint alt_of (l : list regex) (last : regex) : regex :=
  match l with
  | [] => last
  | a :: t => Alt a (alt_of t last)
  end.

End Regex.

(** ** The field parser *)

Module Ocr.
Import Js Regex.

Local Open Scope string_scope.

(** The six fields [parseOcrText] returns; [None] is [null]. *)
Record parsed : Type := mkParsed {
  ocr_text : option jsstring;
  ocr_address : option jsstring;
  ocr_contact_number : option jsstring;
  ocr_email : option jsstring;
  ocr_url : option jsstring;
  other_text : option jsstring
}.

Definition parsed_null : parsed := mkParsed None None None None None None.

(** The class [\u0B80-\u0BFF a-z A-Z 0-9 space \n . , - : / ( ) % U+20B9
    $ @ # & !] that the sanitiser keeps (the Tamil block, ASCII letters
    and digits, the rupee sign and a list of punctuation). *)
Definition allowed (c : char) : bool :=
  in_range 0x0B80%N 0x0BFF%N c || is_alnum c || N.eqb c SP || N.eqb c NL
  || one_of ".,-:/()%" c || N.eqb c 0x20B9%N || one_of "$@#&!" c.

(** [/[^...]/g], [/\t/g], [/[ ]{2,}/g], [/\n{3,}/g], [/\s+/g], [/\D/g],
    [/\d/] *)
Definition notAllowedRegex : regex := Chr (fun c => negb (allowed c)).
Definition tabRegex : regex := Chr (N.eqb 9%N).
Definition spacesRegex : regex := Many 2 (N.eqb SP).
Definition newlinesRegex : regex := Many 3 (N.eqb NL).
Definition wsRunRegex : regex := Many 1 is_ws.
Definition nonDigitRegex : regex := Chr (fun c => negb (is_digit c)).
Definition digitRegex : regex := Chr is_digit.

(** [[\s\-]] and [[\s\-.]] *)
Definition ws_dash (c : char) : bool := is_ws c || one_of "-" c.
Definition ws_dash_dot (c : char) : bool := is_ws c || one_of "-." c.

(** [/(\+?91[\s\-]?)?[6-9]\d{9}|(\+?\d{1,3}[\s\-]?)?(\(?\d{2,4}\)?[\s\-.]?)(\d{3,5}[\s\-.]?\d{3,5})/g] *)
Definition phoneRegex : regex :=
  Alt
    (seq_of
       [ Opt (seq_of [Opt (Lit "+"); Str "91"] (Opt (Chr ws_dash)));
         Chr (in_range 54%N 57%N) ]
       (Rep 9 9 (Chr is_digit)))
    (seq_of
       [ Opt (seq_of [Opt (Lit "+"); Rep 1 3 (Chr is_digit)] (Opt (Chr ws_dash)));
         seq_of [Opt (Lit "("); Rep 2 4 (Chr is_digit); Opt (Lit ")")]
                (Opt (Chr ws_dash_dot)) ]
       (seq_of [Rep 3 5 (Chr is_digit); Opt (Chr ws_dash_dot)]
               (Rep 3 5 (Chr is_digit)))).

(** [/[a-zA-Z0-9._%+\-]+@[a-zA-Z0-9.\-]+\.[a-zA-Z]{2,}/g] *)
Definition email_local (c : char) : bool := is_alnum c || one_of "._%+-" c.
Definition email_domain (c : char) : bool := is_alnum c || one_of ".-" c.

Definition emailRegex : regex :=
  seq_of [Many 1 email_local; Lit "@"; Many 1 email_domain; Lit "."]
         (Many 2 is_alpha).

(** The two alternatives of [urlRegex], each a group in the source:
    [https?:\/\/[^\s]+] and [www\.[a-zA-Z0-9\-]+\.[a-zA-Z]{2,}[^\s]*],
    under the [g] flag. *)
Definition not_ws (c : char) : bool := negb (is_ws c).
Definition host_label (c : char) : bool := is_alnum c || one_of "-" c.

Definition urlRegex : regex :=
  Alt
    (seq_of [Str "http"; Opt (Lit "s"); Str "://"] (Many 1 not_ws))
    (seq_of [Str "www."; Many 1 host_label; Lit "."; Many 2 is_alpha]
            (Many 0 not_ws)).

(** [/\b(street|st\.?|road|...|village)\b/i] *)
Definition addressKeywords : regex :=
  seq_of
    [ WordB;
      alt_of
        [ StrI "street"; Seq (StrI "st") (Opt (Lit "."));
          StrI "road"; Seq (StrI "rd") (Opt (Lit "."));
          StrI "avenue"; Seq (StrI "ave") (Opt (Lit "."));
          StrI "lane"; StrI "nagar"; StrI "salai"; StrI "marg";
          StrI "chowk"; StrI "block"; StrI "sector"; StrI "plot";
          Seq (StrI "no") (Opt (Lit "."));
          StrI "floor"; StrI "building"; StrI "bldg"; StrI "colony";
          StrI "layout"; StrI "cross"; StrI "main"; StrI "bypass";
          StrI "highway"; StrI "district"; StrI "taluk" ]
        (StrI "village") ]
    WordB.

(** [raw.replace(...).replace(...).replace(...).replace(...).trim()] *)
Definition sanitize (raw : jsstring) : jsstring :=
  trim
    (replace newlinesRegex [NL; NL]
       (replace spacesRegex [SP]
          (replace tabRegex [SP]
             (replace notAllowedRegex [] raw)))).

Definition nonempty (l : jsstring) : bool := Nat.ltb 0 (length l).

(** [cleaned.split("\n").map(l => l.trim()).filter(l => l.length > 0)] *)
Definition split_lines (cleaned : jsstring) : list jsstring :=
  filter nonempty (map trim (split_nl cleaned)).

(** The filter on phone candidates: between 7 and 15 digits. *)
Definition phone_ok (p : jsstring) : bool :=
  let digits := replace nonDigitRegex [] p in
  Nat.leb 7 (length digits) && Nat.leb (length digits) 15.

Definition find_phones (cleaned : jsstring) : list jsstring :=
  filter phone_ok
    (map (fun m => replace wsRunRegex [SP] (trim m))
         (match_all phoneRegex cleaned)).

Definition find_emails (cleaned : jsstring) : list jsstring :=
  match_all emailRegex cleaned.

Definition find_urls (cleaned : jsstring) : list jsstring :=
  match_all urlRegex cleaned.

Definition is_address_line (l : jsstring) : bool :=
  test addressKeywords l && test digitRegex l.

(** The callback of [.map] in the computation of [otherLines]. *)
Definition strip_inline (line : jsstring) : jsstring :=
  trim
    (replace spacesRegex [SP]
       (replace urlRegex []
          (replace emailRegex []
             (replace phoneRegex [] line)))).

(** The callback of the first [.filter] in the computation of
    [otherLines]. *)
Definition keep_line (addressSet emailSet urlSet : list jsstring)
  (line : jsstring) : bool :=
  if set_has addressSet (trim line) then false
  else if set_has emailSet (trim line) then false
  else if set_has urlSet (trim line) then false
  else true.

Definition other_lines (lines addressLines emails urls : list jsstring)
  : list jsstring :=
  filter (fun l => Nat.ltb 1 (length l))
    (map strip_inline
       (filter (keep_line (map trim addressLines) (map trim emails)
                          (map trim urls))
               lines)).

Definition comma : jsstring := of_string ", ".
Definition bar : jsstring := of_string " | ".

(** [parseOcrText(raw)]; [None] is a [null] or [undefined] argument. *)
Definition parseOcrText (raw : option jsstring) : parsed :=
  match raw with
  | None | Some [] => parsed_null
  | Some raw =>
      let cleaned := sanitize raw in
      let lines := split_lines cleaned in
      let formattedText := join [NL] lines in
      let phones := find_phones cleaned in
      let emails := find_emails cleaned in
      let urls := find_urls cleaned in
      let addressLines := filter is_address_line lines in
      let otherLines := other_lines lines addressLines emails urls in
      let otherText := trim (join [NL] otherLines) in
      {| ocr_text := or_null formattedText;
         ocr_address := or_null (join bar addressLines);
         ocr_contact_number := or_null (join comma (dedupe phones));
         ocr_email := or_null (join comma (dedupe emails));
         ocr_url := or_null (join comma (dedupe urls));
         other_text := or_null otherText |}
  end.

(** Lines of a parsed field, for statements about [other_text]. *)
Definition lines_of (f : option jsstring) : list jsstring :=
  match f with
  | None => []
  | Some s => split_nl s
  end.

(** Lines of ASCII text joined by line feeds, to write inputs down. *)
Definition txt (l : list string) : jsstring := join [NL] (map of_string l).

End Ocr.

(** ** Recognition results, cleaning and scoring *)

Module Page.
Import Js.

(** What the recognition engine returns in [data]: word tokens with a
    confidence, grouped in lines, and the flat text.  A confidence and
    a score are doubles in the source; here each is the rational that
    the double denotes, and the arithmetic of the source is the exact
    one followed by the rounding of [to_double] below. *)
Record word : Type := mkWord { text : jsstring; confidence : Q }.
Record line : Type := mkLine { words : option (list word) }.
Record page : Type := mkPage {
  data_text : option jsstring;
  data_lines : option (list line);
  data_words : option (list word)
}.

(** [a < b] *)
Definition Qltb (a b : Q) : bool := negb (Qle_bool b a).

(** The confidence floor of [buildCleanText]. *)
Definition MIN_CONF : Q := (45 # 1)%Q.

(** The callback of [line.words.filter] in [buildCleanText]. *)
Definition good_word (w : word) : bool :=
  Qle_bool MIN_CONF (confidence w) && Nat.ltb 0 (length (trim (text w))).

(** [a / b] for two array lengths.  The source compares the double
    nearest to the quotient with the double nearest to 0.4; a quotient
    of two array lengths that is under 4/10 is under it by at least
    1/(5b), far more than the rounding, so the comparison on exact
    rationals gives the same answer. *)
Definition ratio (a b : nat) : Q :=
  (inject_Z (Z.of_nat a) / inject_Z (Z.of_nat b))%Q.

(** One turn of the loop over [data.lines]: the text pushed on
    [cleanLines], or [None] when the line is skipped. *)
Definition clean_line (l : line) : option jsstring :=
  match words l with
  | None | Some [] => None
  | Some ws =>
      let goodWords := filter good_word ws in
      match goodWords with
      | [] => None
      | _ =>
          let keepRatio := ratio (length goodWords) (length ws) in
          if Qltb keepRatio (4 # 10)%Q then None
          else
            let lineText := trim (join [SP] (map text goodWords)) in
            if Nat.ltb 0 (length lineText) then Some lineText else None
      end
  end.

Fixpoint clean_lines (ls : list line) : list jsstring :=
  match ls with
  | [] => []
  | l :: t =>
      match clean_line l with
      | Some x => x :: clean_lines t
      | None => clean_lines t
      end
  end.

(** [buildCleanText(data)] *)
Definition buildCleanText (data : page) : jsstring :=
  match data_lines data with
  | None | Some [] =>
      match data_text data with Some t => t | None => [] end
  | Some ls => join [NL] (clean_lines ls)
  end.

(** An element of [scored]. *)
Record scored : Type := mkScored { data : page; score : Q; name : string }.

(** Double precision (IEEE 754 binary64, round to nearest, ties to
    even).  [pow2 k] is [2^k] for [k >= 0] and 1 below. *)
Definition pow2 (k : Z) : Z := (2 ^ Z.max 0 k)%Z.

(** [n / d] rounded to the nearest integer, ties to even, for
    [0 <= n] and [0 < d]. *)
Definition round_div (n d : Z) : Z :=
  let q := (n / d)%Z in
  match (2 * (n mod d) ?= d)%Z with
  | Lt => q
  | Eq => if Z.even q then q else (q + 1)%Z
  | Gt => (q + 1)%Z
  end.

(** The integer [b] with [2^b <= n/d < 2^(b+1)], for [0 < n]. *)
Definition binade (n : Z) (d : positive) : Z :=
  let k := (Z.log2 n - Z.log2 (Zpos d))%Z in
  if (Zpos d * pow2 k <=? n * pow2 (- k))%Z then k else (k - 1)%Z.

(** The rational [2^1024] stands for [Infinity], which is what a
    result rounds to from [2^1024 - 2^970] on. *)
Definition infinity : Q := inject_Z (2 ^ 1024).

(** The double nearest to a rational: a multiple [m * 2^ex] of the
    spacing of its binade, with 53 bits at most, and with the spacing
    [2^-1074] of the subnormal numbers under [2^-1022]. *)
Definition to_double (x : Q) : Q :=
  let n := Z.abs (Qnum x) in
  let d := Qden x in
  if (n =? 0)%Z then (0 # 1)%Q
  else
    let ex := Z.max (binade n d - 52) (-1074) in
    let m := round_div (n * pow2 (- ex)) (Zpos d * pow2 ex) in
    let mag := Qred ((m * pow2 ex) # Z.to_pos (pow2 (- ex))) in
    let mag := if Qle_bool infinity mag then infinity else mag in
    if (Qnum x <? 0)%Z then Qopp mag else mag.

(** [w.confidence], a double.  A rational that is no double stands for
    the double nearest to it, as a decimal literal does in the source;
    on a double [to_double] changes nothing. *)
Definition conf (w : word) : Q := to_double (confidence w).

(** [goodWords.reduce((s, w) => s + w.confidence, 0)]: each addition
    rounds.  The terms are above 50, so the sum is never negative, and
    once it is [infinity] it stays there. *)
Definition sum_conf (ws : list word) : Q :=
  fold_left (fun s w => to_double (s + conf w)%Q) ws (0 # 1)%Q.

(** [sum / goodWords.length], rounded; [Infinity / n] is [Infinity]. *)
Definition avg_conf (sum : Q) (n : nat) : Q :=
  if Qle_bool infinity sum then infinity
  else to_double (sum / inject_Z (Z.of_nat n))%Q.

(** The callback of [results.map] that builds [scored]. *)
Definition score_of (r : page) (nm : string) : scored :=
  let ws := match data_words r with Some ws => ws | None => [] end in
  let goodWords := filter (fun w => Qltb (50 # 1)%Q (conf w)) ws in
  let avgConf :=
    match goodWords with
    | [] => (0 # 1)%Q
    | _ => avg_conf (sum_conf goodWords) (length goodWords)
    end in
  mkScored r avgConf nm.

(** The comparator [(a, b) => b.score - a.score].  The difference of
    two doubles rounds to a double of the same sign, and [Infinity -
    Infinity] is [NaN], which [sort] takes as 0: the exact difference
    has the sign that [sort] reads. *)
Definition by_score_desc (a b : scored) : Q := (score b - score a)%Q.

(** [Array.prototype.sort] is a stable sort: an element stays behind
    every earlier element that the comparator does not put after it. *)
Fixpoint insert_sorted (cmp : scored -> scored -> Q) (x : scored)
  (l : list scored) : list scored :=
  match l with
  | [] => [x]
  | y :: t =>
      if Qle_bool (cmp y x) (0 # 1)%Q then y :: insert_sorted cmp x t
      else x :: l
  end.

Definition sort (cmp : scored -> scored -> Q) (l : list scored)
  : list scored :=
  fold_left (fun acc x => insert_sorted cmp x acc) l [].

(** [scored.sort(...)[0]] *)
Definition select_best (l : list scored) : option scored :=
  match sort by_score_desc l with
  | best :: _ => Some best
  | [] => None
  end.

End Page.

(** ** The entry point *)

Module Pipeline.
Import Js Ocr Page.

Definition error := string.

(** How a promise of the engine or of the image library settles. *)
Inductive settled (A : Type) : Type :=
| Resolved (a : A)
| Rejected (e : error).
Arguments Resolved {A} a.
Arguments Rejected {A} e.

(** The world of one call.  The temporary file of strategy [i], named
    [ocr_<now>_<i>.png] under the temporary directory, is the number
    [i].  [toFile_late i] is about timing, and counts only when the
    function stops waiting for the preprocessing because another
    recipe was rejected: the write of strategy [i], still pending then,
    reaches the disk after the [finally] block has looked for its
    file. *)
Record env : Type := mkEnv {
  existsSync_image : bool;                 (* fs.existsSync(imagePath) *)
  toFile : nat -> settled unit;            (* process(sharp(imagePath)).toFile(tmpPaths[i]) *)
  toFile_late : nat -> bool;
  recognize_tmp : nat -> settled page;     (* Tesseract.recognize(tmpPaths[i], ...) *)
  recognize_image : settled page;          (* Tesseract.recognize(imagePath, ...) *)
  unlinkSync_ok : nat -> bool              (* whether fs.unlinkSync(tmpPaths[i]) returns *)
}.

(** The temporary files that exist. *)
Definition files := list nat.

Definition file_exists (f : nat) (fs : files) : bool := existsb (Nat.eqb f) fs.
Definition file_add (f : nat) (fs : files) : files :=
  if file_exists f fs then fs else f :: fs.
Definition file_remove (f : nat) (fs : files) : files :=
  filter (fun g => negb (Nat.eqb f g)) fs.

Inductive outcome (A : Type) : Type :=
| Return (a : A)
| Throw (e : error).
Arguments Return {A} a.
Arguments Throw {A} e.

(** Computations over the temporary files that return or throw. *)
Definition M (A : Type) : Type := files -> outcome A * files.

Definition ret {A} (a : A) : M A := fun fs => (Return a, fs).
Definition throw {A} (e : error) : M A := fun fs => (Throw e, fs).
Definition bind {A B} (m : M A) (f : A -> M B) : M B :=
  fun fs =>
    match m fs with
    | (Return a, fs') => f a fs'
    | (Throw e, fs') => (Throw e, fs')
    end.

Notation "x <- m ;; k" := (bind m (fun x => k))
  (at level 61, m at next level, right associativity).
Notation "m ;;; k" := (bind m (fun _ => k))
  (at level 61, right associativity).

(** [try { body } catch (err) { handler }] *)
Definition try_catch {A} (body : M A) (handler : error -> M A) : M A :=
  fun fs =>
    match body fs with
    | (Return a, fs') => (Return a, fs')
    | (Throw e, fs') => handler e fs'
    end.

(** [try { body } finally { cleanup }]: the cleanup runs on every exit of
    the body, and an exception of the cleanup replaces the body's
    outcome. *)
Definition try_finally {A} (body : M A) (cleanup : M unit) : M A :=
  fun fs =>
    match body fs with
    | (o, fs') =>
        match cleanup fs' with
        | (Return _, fs'') => (o, fs'')
        | (Throw e, fs'') => (Throw e, fs'')
        end
    end.

(** [await p] for a promise that settles as [s]. *)
Definition await {A} (s : settled A) : M A :=
  match s with
  | Resolved a => ret a
  | Rejected e => throw e
  end.

(** A promise that has been started: how it settles, the temporary
    file that it writes when it resolves, if it writes one, and
    whether that write is late (see [toFile_late]). *)
Record promise (A : Type) : Type := mkPromise {
  settles : settled A;
  writes : option nat;
  late : bool
}.
Arguments mkPromise {A} settles writes late.
Arguments settles {A} p.
Arguments writes {A} p.
Arguments late {A} p.

(** The disk after the promise has settled. *)
Definition landed {A} (p : promise A) (fs : files) : files :=
  match settles p, writes p with
  | Resolved _, Some f => file_add f fs
  | _, _ => fs
  end.

(** What [Promise.all] settles with: the values in the order of the
    array, or a rejection.  When several promises reject, the one that
    [Promise.all] passes on is the first in time; the function reads
    nothing of it but the message that it logs, and the model takes
    the first of the array. *)
Fixpoint values {A} (ps : list (promise A)) : outcome (list A) :=
  match ps with
  | [] => Return []
  | p :: rest =>
      match settles p, values rest with
      | Resolved a, Return l => Return (a :: l)
      | Resolved _, Throw err => Throw err
      | Rejected err, _ => Throw err
      end
  end.

(** [await Promise.all(ps)].  The promises were started by the [.map]
    that built the array.  When all resolve, the function goes on after
    the last has settled.  When one rejects, the function goes on at
    once with the exception, and the other promises are neither
    awaited nor cancelled: their writes reach the disk all the same,
    before the [finally] block of the function looks for their files
    unless they are late. *)
Definition promise_all {A} (ps : list (promise A)) : M (list A) :=
  fun fs =>
    match values ps with
    | Return l => (Return l, fold_left (fun fs p => landed p fs) ps fs)
    | Throw err =>
        (Throw err,
         fold_left (fun fs p => if late p then fs else landed p fs) ps fs)
    end.

(** The promises whose writes are still to come when the function
    returns. *)
Definition pending {A} (ps : list (promise A)) : list (promise A) :=
  match values ps with
  | Return _ => []
  | Throw _ => filter late ps
  end.

(** [body], whose outcome is taken once the promises [ps] that it
    started have all settled: the files are those on the disk then. *)
Definition settled_after {A B} (ps : list (promise B)) (body : M A) : M A :=
  fun fs =>
    match body fs with
    | (o, fs') => (o, fold_left (fun fs p => landed p fs) (pending ps) fs')
    end.

Fixpoint for_each {A} (l : list A) (body : A -> M unit) : M unit :=
  match l with
  | [] => ret tt
  | x :: t => body x ;;; for_each t body
  end.

(** The value of [extractTextFromImage]: [ocr_text_raw] and the six
    fields of the parser. *)
Record result : Type := mkResult {
  ocr_text_raw : option jsstring;
  fields : parsed
}.

Definition empty : result := mkResult None parsed_null.

Definition strategies : list string :=
  ["high-contrast"; "clean-bw"; "gentle"]%string.

Section Extract.
Variable e : env.

Definition existsSync (f : nat) : M bool :=
  fun fs => (Return (file_exists f fs), fs).

Definition unlinkSync (f : nat) : M unit :=
  fun fs =>
    if unlinkSync_ok e f then (Return tt, file_remove f fs)
    else (Throw "unlink failed"%string, fs).

(** [process(sharp(imagePath)).toFile(tmpPaths[i])] *)
Definition preprocess (i : nat) : promise unit :=
  mkPromise (toFile e i) (Some i) (toFile_late e i).

(** [Tesseract.recognize(tmpPaths[i], ...)] *)
Definition recognize (i : nat) : promise page :=
  mkPromise (recognize_tmp e i) None false.

(** The [try] block. *)
Definition multi_pass (tmpPaths : list nat) : M result :=
  promise_all (map preprocess tmpPaths) ;;;
  results <- promise_all (map recognize tmpPaths) ;;
  let scored := map (fun rn => score_of (fst rn) (snd rn))
                    (combine results strategies) in
  match select_best scored with
  | None => throw "best is undefined"%string
  | Some best =>
      let cleanRaw := buildCleanText (data best) in
      if Nat.ltb (length (trim cleanRaw)) 2 then ret empty
      else ret (mkResult (Some cleanRaw) (parseOcrText (Some cleanRaw)))
  end.

(** The [catch] block: one pass on the image as it is. *)
Definition fallback (err : error) : M result :=
  try_catch
    (d <- await (recognize_image e) ;;
     match option_map trim (data_text d) with
     | None | Some [] => ret empty
     | Some rawText =>
         ret (mkResult (Some rawText) (parseOcrText (Some rawText)))
     end)
    (fun e2 => ret empty).

(** The [finally] block. *)
Definition cleanup (tmpFiles : list nat) : M unit :=
  for_each tmpFiles (fun f =>
    ex <- existsSync f ;;
    if ex then try_catch (unlinkSync f) (fun _ => ret tt) else ret tt).

(** [extractTextFromImage(imagePath)]; [imagePath] is [None] for a
    null, undefined or empty argument.  The files of the outcome are
    those on the disk once every write that the call started has
    landed. *)
Definition extractTextFromImage (imagePath : option jsstring) : M result :=
  match imagePath with
  | None | Some [] => ret empty
  | Some _ =>
      if negb (existsSync_image e) then ret empty
      else
        let tmpPaths := seq 0 (length strategies) in
        let tmpFiles := tmpPaths in
        settled_after (map preprocess tmpPaths)
          (try_finally
             (try_catch (multi_pass tmpPaths) fallback)
             (cleanup tmpFiles))
  end.

End Extract.

End Pipeline.

(** ** Concrete inputs *)

Module Examples.
Import Js Ocr Page Pipeline.
Local Open Scope string_scope.

(** An address line, and a line that becomes equal to it once its
    inline phone number is stripped. *)
Definition road_text : jsstring := txt ["Road 5"; "Road9876543210 5"].

(** A country code at the end of a line, followed by a number on the
    next line. *)
Definition split_phone_text : jsstring := txt ["91 "; "9876543210"].

(** A single letter, and two characters that the sanitiser drops. *)
Definition letter_text : jsstring := of_string "a".
Definition tilde_text : jsstring := of_string "~~".

(** The same address on two lines of a sign. *)
Definition twice_text : jsstring :=
  txt ["12 Main Road"; "Menu"; "12 Main Road"].

Definition tok (s : string) (c : Z) : word := mkWord (of_string s) (inject_Z c).

(** Five tokens, three of them under the confidence floor. *)
Definition five_words : list word :=
  [tok "aa" 30; tok "bb" 30; tok "cc" 30; tok "dd" 90; tok "ee" 90].
Definition five_page : page :=
  mkPage (Some (of_string "aa bb cc dd ee"))
         (Some [mkLine (Some five_words)])
         (Some five_words).

(** A page of one line of words, all with the same confidence. *)
Definition page_of (ws : list string) (c : Q) : page :=
  let l := map (fun s => mkWord (of_string s) c) ws in
  mkPage (Some (join [SP] (map of_string ws))) (Some [mkLine (Some l)]) (Some l).

Definition hello_page : page := page_of ["hello"; "world"] (90 # 1)%Q.
Definition short_page : page := page_of ["a"] (99 # 1)%Q.
Definition plain_page : page :=
  mkPage (Some (of_string "fallback text")) None None.

(** Scores 62.0, 71.5 and 71.5 in the order of [strategies]. *)
Definition tie_scored : list scored :=
  [ score_of (page_of ["one"] (62 # 1)%Q) "high-contrast";
    score_of (page_of ["two"] (143 # 2)%Q) "clean-bw";
    score_of (page_of ["three"] (143 # 2)%Q) "gentle" ].

(** Three words whose confidences average to 50.79999999999999 in
    double precision, though their exact average is 50.8, and a page
    of one letter of confidence 50.8. *)
Definition near_page : page :=
  let l := [mkWord (of_string "fresh") (501 # 10)%Q;
            mkWord (of_string "lime") (505 # 10)%Q;
            mkWord (of_string "soda") (518 # 10)%Q] in
  mkPage (Some (of_string "fresh lime soda")) (Some [mkLine (Some l)]) (Some l).
Definition letter_page : page := page_of ["b"] (508 # 10)%Q.

Definition some_path : option jsstring := Some (of_string "uploads/photo.jpg").

(** The first recipe fails in preprocessing, the two others succeed and
    read [hello world]; the pass on the plain image reads
    [fallback text]. *)
Definition env_one_fails : env :=
  mkEnv true
        (fun i => match i with 0 => Rejected "bad clahe" | _ => Resolved tt end)
        (fun _ => false)
        (fun _ => Resolved hello_page)
        (Resolved plain_page)
        (fun _ => true).

(** As before, and the pass on the plain image fails too. *)
Definition env_one_fails_no_fallback : env :=
  mkEnv true
        (fun i => match i with 0 => Rejected "bad clahe" | _ => Resolved tt end)
        (fun _ => false)
        (fun _ => Resolved hello_page)
        (Rejected "engine down")
        (fun _ => true).

(** Every recipe succeeds; the first scores highest and reads one
    letter, the others read [hello world]. *)
Definition env_best_is_short : env :=
  mkEnv true
        (fun _ => Resolved tt)
        (fun _ => false)
        (fun i => match i with 0 => Resolved short_page | _ => Resolved hello_page end)
        (Resolved plain_page)
        (fun _ => true).

(** Every recipe succeeds and the first temporary file cannot be
    unlinked. *)
Definition env_unlink_fails : env :=
  mkEnv true
        (fun _ => Resolved tt)
        (fun _ => false)
        (fun _ => Resolved hello_page)
        (Resolved plain_page)
        (fun i => match i with 0 => false | _ => true end).

(** Every recipe succeeds; the first reads [near_page], the others
    [letter_page]. *)
Definition env_near_tie : env :=
  mkEnv true
        (fun _ => Resolved tt)
        (fun _ => false)
        (fun i => match i with 0 => Resolved near_page | _ => Resolved letter_page end)
        (Resolved plain_page)
        (fun _ => true).

(** The third recipe is rejected while the writes of the two others
    are still pending, and both reach the disk after the [finally]
    block; every file can be unlinked. *)
Definition env_late_writes : env :=
  mkEnv true
        (fun i => match i with 2 => Rejected "bad threshold" | _ => Resolved tt end)
        (fun _ => true)
        (fun _ => Resolved hello_page)
        (Resolved plain_page)
        (fun _ => true).

End Examples.

(** ** Vocabulary of the statements *)

Module Props.
Import Js Regex Ocr Page Pipeline.

(** A field is [null] or a string of at least one code unit. *)
Definition null_or_nonempty (f : option jsstring) : Prop :=
  match f with
  | None => True
  | Some s => s <> []
  end.

(** Every code unit of the string is white space. *)
Definition blank (s : jsstring) : bool := forallb is_ws s.

(** The pattern has no [\b]. *)
Fixpoint no_wordb (r : regex) : bool :=
  match r with
  | Chr _ | Many _ _ => true
  | Seq a b | Alt a b => no_wordb a && no_wordb b
  | Rep _ _ a => no_wordb a
  | WordB => false
  end.

(** Every class of the pattern refuses the code unit [w]. *)
Fixpoint rejects (w : char) (r : regex) : bool :=
  match r with
  | Chr p | Many _ p => negb (p w)
  | Seq a b | Alt a b => rejects w a && rejects w b
  | Rep _ _ a => rejects w a
  | WordB => true
  end.

(** The text [e] is empty or starts with a code unit that every class
    of [r] refuses: no match of [r] can reach into [e]. *)
Definition stops (r : regex) (e : jsstring) : Prop :=
  match e with
  | [] => True
  | w :: _ => rejects w r = true
  end.

(** The length of the longest prefix of [s] in the class [p]. *)
Fixpoint run (p : char -> bool) (s : jsstring) : nat :=
  match s with
  | c :: t => if p c then S (run p t) else 0
  | [] => 0
  end.

(** No run of [n] code units of the class [p] starts anywhere in [s]. *)
Fixpoint no_run (n : nat) (p : char -> bool) (s : jsstring) : bool :=
  match s with
  | [] => true
  | _ :: t => Nat.ltb (run p s) n && no_run n p t
  end.

(** The code units that [is_ws] accepts. *)
Definition ws_chars : list char :=
  [9; 10; 11; 12; 13; 32; 160; 0x1680; 0x2000; 0x2001; 0x2002; 0x2003;
   0x2004; 0x2005; 0x2006; 0x2007; 0x2008; 0x2009; 0x200A; 0x2028; 0x2029;
   0x202F; 0x205F; 0x3000; 0xFEFF]%N.

(** A continuation that does not look at the code unit before the
    cursor. *)
Definition prev_blind (k : cont) : Prop :=
  forall (q q' : option char) (t : jsstring), k (q, t) = k (q', t).

(** Two continuations that agree up to a tail [e] that the first sees
    and the second does not. *)
Definition agree_upto (e : jsstring) (k k' : cont) : Prop :=
  forall (q : option char) (t : jsstring),
    k (q, t ++ e) = option_map (fun x => x ++ e) (k' (q, t)).

(** A continuation that still succeeds when text is appended. *)
Definition succeeds_longer (b : jsstring) (k k' : cont) : Prop :=
  forall (q : option char) (t x : jsstring),
    k (q, t) = Some x -> exists x', k' (q, t ++ b) = Some x'.

(** The pattern does not match the empty text. *)
Definition never_empty (r : regex) : Prop :=
  forall q : option char, match_here r q [] = None.

(** A pattern whose matches lie inside one run of code units that are
    not white space: no [\b], no class that accepts white space, no
    empty match. *)
Definition word_local (r : regex) : Prop :=
  no_wordb r = true /\
  forallb (fun w => rejects w r) ws_chars = true /\
  never_empty r.

(** No white space at either end. *)
Definition tight (s : jsstring) : Prop :=
  drop_while is_ws s = s /\ drop_while is_ws (rev s) = rev s.

(** The class of the space, and of the line feed. *)
Definition sp : char -> bool := N.eqb SP.
Definition nl : char -> bool := N.eqb NL.

(** Every code unit of the text is one that the sanitiser keeps. *)
Definition all_allowed (s : jsstring) : Prop :=
  forall x : char, In x s -> allowed x = true.

(** What the lines of a sanitised text are like: not empty, no white
    space at either end, no line feed, only code units that the
    sanitiser keeps, no two spaces in a row. *)
Definition clean_text_line (l : jsstring) : Prop :=
  l <> [] /\ tight l /\ ~ In NL l /\ all_allowed l /\ no_run 2 sp l = true.

(** [imagePath] is falsy. *)
Definition path_missing (imagePath : option jsstring) : bool :=
  match imagePath with
  | None | Some [] => true
  | Some _ => false
  end.

(** The indices of the temporary files, one per strategy. *)
Definition tmp_indices : list nat := seq 0 (length strategies).

(** Both promises of strategy [i] resolve. *)
Definition strategy_ok (e : env) (i : nat) : bool :=
  match toFile e i, recognize_tmp e i with
  | Resolved _, Resolved _ => true
  | _, _ => false
  end.

Definition all_ok (e : env) : bool := forallb (strategy_ok e) tmp_indices.

(** Every preprocessing resolves, so that the function has waited for
    every write. *)
Definition preprocessing_ok (e : env) : bool :=
  forallb (fun i => match toFile e i with Resolved _ => true | Rejected _ => false end)
          tmp_indices.

(** The write of strategy [f] has reached the disk, if it reaches it at
    all, when the [finally] block looks for its file. *)
Definition written_in_time (e : env) (f : nat) : bool :=
  preprocessing_ok e || negb (toFile_late e f).

(** The pages recognised from the temporary files, in the order of the
    strategies, and their scores. *)
Definition pages (e : env) : list page :=
  flat_map (fun i => match recognize_tmp e i with
                     | Resolved d => [d]
                     | Rejected _ => []
                     end) tmp_indices.

Definition scored_pages (e : env) : list scored :=
  map (fun rn => score_of (fst rn) (snd rn)) (combine (pages e) strategies).

(** The cleaned transcript of the best-scoring page. *)
Definition best_transcript (e : env) : option jsstring :=
  option_map (fun b => buildCleanText (data b)) (select_best (scored_pages e)).

(** The trimmed text of the pass on the plain image, when that pass
    resolves with a text that is not blank. *)
Definition fallback_text (e : env) : option jsstring :=
  match recognize_image e with
  | Rejected _ => None
  | Resolved d =>
      match option_map trim (data_text d) with
      | None | Some [] => None
      | Some rawText => Some rawText
      end
  end.

(** What the call returns from the pass on the plain image. *)
Definition fallback_result (e : env) : result :=
  match fallback_text e with
  | None => empty
  | Some rawText => mkResult (Some rawText) (parseOcrText (Some rawText))
  end.

(** The cleaned transcript that strategy [i] yields, when both of its
    promises resolve. *)
Definition transcript_of (e : env) (i : nat) : option jsstring :=
  match toFile e i, recognize_tmp e i with
  | Resolved _, Resolved d => Some (buildCleanText d)
  | _, _ => None
  end.

Definition yields_text (e : env) (i : nat) : bool :=
  match transcript_of e i with
  | Some t => Nat.leb 2 (length (trim t))
  | None => false
  end.

(** The value of the [try] block when every promise resolves and
    [best] is the head of the sorted array. *)
Definition multi_pass_value (best : scored) : result :=
  let cleanRaw := buildCleanText (data best) in
  if Nat.ltb (length (trim cleanRaw)) 2 then empty
  else mkResult (Some cleanRaw) (parseOcrText (Some cleanRaw)).

(** The fan-out in the spec's words: the results of the recipes that
    did not fail are scored and the best of them is used; the pass on
    the plain image is for the case where every recipe failed. *)
Definition surviving (e : env) : list scored :=
  flat_map (fun i => match toFile e i, recognize_tmp e i with
                     | Resolved _, Resolved d => [score_of d (nth i strategies ""%string)]
                     | _, _ => []
                     end) tmp_indices.

Definition spec_fan_out_result (e : env) : result :=
  match select_best (surviving e) with
  | Some best => multi_pass_value best
  | None => fallback_result e
  end.

(** The condition under which the spec says the empty result is
    returned, in the spec's words: the path is missing or does not
    exist, or no strategy yields a cleaned transcript of trimmed length
    at least 2, or every strategy fails and the pass on the plain image
    fails or yields no text. *)
Definition spec_empty_condition (e : env) (imagePath : option jsstring) : bool :=
  path_missing imagePath
  || negb (existsSync_image e)
  || negb (existsb (yields_text e) tmp_indices)
  || (forallb (fun i => negb (strategy_ok e i)) tmp_indices
      && match fallback_text e with None => true | Some _ => false end).

End Props.

(** ** The page script: escaping *)

Module Html.
Import Js Regex.
Local Open Scope string_scope.

(** The code units [&], [<], [>] and the double quote. *)
Definition AMP : char := 38%N.
Definition LT : char := 60%N.
Definition GT : char := 62%N.
Definition QUOT : char := 34%N.

(** [/&/g], [/</g], [/>/g] and the pattern of the double quote under
    the [g] flag. *)
Definition ampRegex : regex := Chr (N.eqb AMP).
Definition ltRegex : regex := Chr (N.eqb LT).
Definition gtRegex : regex := Chr (N.eqb GT).
Definition quotRegex : regex := Chr (N.eqb QUOT).

(** [escapeHtml(str)] for a string argument, on which [String(str)] is
    [str]. *)
Definition escapeHtml (str : jsstring) : jsstring :=
  replace quotRegex (of_string "&quot;")
    (replace gtRegex (of_string "&gt;")
       (replace ltRegex (of_string "&lt;")
          (replace ampRegex (of_string "&amp;") str))).

(** What one code unit becomes when it is escaped on its own. *)
Definition escape_unit (c : char) : jsstring :=
  if N.eqb AMP c then of_string "&amp;"
  else if N.eqb LT c then of_string "&lt;"
  else if N.eqb GT c then of_string "&gt;"
  else if N.eqb QUOT c then of_string "&quot;"
  else [c].

End Html.

(** ** The photo routes *)

Module Routes.
Import Js Ocr Page Pipeline.
Local Open Scope string_scope.

(** A JavaScript number as [parseFloat] can give it. *)
Inductive number : Type :=
| NaN
| Num (q : Q)
| Infinity (negative : bool).

Definition isNaN (x : number) : bool :=
  match x with NaN => true | _ => false end.

(** [x || null] on a number: [NaN] and zero are falsy. *)
Definition num_or_null (x : number) : option number :=
  match x with
  | NaN => None
  | Num q => if Qeq_bool q (0 # 1) then None else Some x
  | Infinity _ => Some x
  end.

(** What [reverseGeocode] resolves with. *)
Record address : Type := mkAddress {
  address_full : option jsstring;
  address_road : option jsstring;
  address_city : option jsstring;
  address_state : option jsstring;
  address_country : option jsstring;
  address_postcode : option jsstring
}.

(** [req.file] as the upload middleware sets it. *)
Record upload_file : Type := mkUpload { path : jsstring; filename : jsstring }.

(** The parts of a request that the handlers read.  [req_user] is
    [req.user.id], [None] when [req.user] is undefined; the fields of
    [req.body] are strings or undefined. *)
Record request : Type := mkRequest {
  req_user : option nat;
  req_file : option upload_file;
  req_id : jsstring;                      (* req.params.id *)
  latitude : option jsstring;
  longitude : option jsstring;
  accuracy : option jsstring;
  company_name : option jsstring;
  captured_at : option jsstring
}.

(** [body.captured_at ? new Date(body.captured_at) : new Date()] *)
Inductive date : Type :=
| DateOf (s : jsstring)
| Now.

(** The parameters of the INSERT, in the order of its columns. *)
Record photo : Type := mkPhoto {
  user_id : nat;
  photo_name : jsstring;
  file_path : jsstring;
  photo_latitude : number;
  photo_longitude : number;
  accuracy_m : option number;
  photo_address : address;
  photo_ocr : result;
  photo_company : option jsstring;
  photo_captured_at : date
}.

(** A row of [photos]: its [id] and the inserted columns. *)
Definition row : Type := (nat * photo)%type.

(** The [ocr] object of a response. *)
Record ocr_json : Type := mkOcrJson {
  text : option jsstring;
  json_other_text : option jsstring;
  json_address : option jsstring;
  contact_number : option jsstring;
  email : option jsstring;
  url : option jsstring;
  has_text : bool
}.

(** [!!s] on a string or null. *)
Definition truthy (s : option jsstring) : bool :=
  match s with
  | Some (_ :: _) => true
  | _ => false
  end.

Definition ocr_to_json (ocrData : result) : ocr_json :=
  let f := fields ocrData in
  mkOcrJson (ocr_text f) (other_text f) (ocr_address f)
            (ocr_contact_number f) (ocr_email f) (ocr_url f)
            (truthy (ocr_text_raw ocrData)).

Inductive body : Type :=
| Failure (error : jsstring)                       (* { success: false, error } *)
| Scanned (o : ocr_json)                           (* { success: true, ocr } *)
| Saved (photo_id : nat) (name file_url : jsstring) (a : address)
        (lat lng : number) (company : option jsstring) (o : ocr_json)
| Found (r : row) (file_url : jsstring)            (* { success: true, photo } *)
| Deleted (message : jsstring).                    (* { success: true, message } *)

Record response : Type := mkResponse { status : nat; json : body }.

(** The [ocr] object of a response that has one. *)
Definition ocr_of_response (resp : response) : option ocr_json :=
  match json resp with
  | Scanned o => Some o
  | Saved _ _ _ _ _ _ _ o => Some o
  | _ => None
  end.

(** What a request meets outside the handler: the world of the OCR call
    (its [existsSync_image] is read from the disk below), the builtin
    [parseFloat], the geocoder, which always resolves, the database
    driver, whose queries can reject, the comparison that the database
    makes between the [id] column and the text of [req.params.id],
    [path.join(uploadDir, name)], and whether the [k]-th call of
    [fs.unlinkSync] of the request returns when the file exists. *)
Record henv : Type := mkHenv {
  ocr_env : env;
  parseFloat : option jsstring -> number;
  reverseGeocode : number -> number -> address;
  insert_photo : photo -> settled nat;
  select_photo : settled unit;
  delete_photo_query : settled unit;
  id_matches : jsstring -> nat -> bool;
  upload_path : jsstring -> jsstring;
  unlink_ok : nat -> bool
}.

(** The state that the handlers change: the files of the upload
    directory, by path, the number of [unlinkSync] calls made, the
    temporary files of the OCR, and the table [photos]. *)
Record world : Type := mkWorld {
  disk : list jsstring;
  unlinks : nat;
  tmp_files : files;
  photos : list row
}.

Definition H (A : Type) : Type := world -> outcome A * world.

Definition hret {A} (a : A) : H A := fun w => (Return a, w).
Definition hthrow {A} (err : error) : H A := fun w => (Throw err, w).
Definition hbind {A B} (m : H A) (f : A -> H B) : H B :=
  fun w =>
    match m w with
    | (Return a, w') => f a w'
    | (Throw err, w') => (Throw err, w')
    end.

Local Notation "x <~ m ;; k" := (hbind m (fun x => k))
  (at level 61, m at next level, right associativity).
Local Notation "m ;;~ k" := (hbind m (fun _ => k))
  (at level 61, right associativity).

Definition htry {A} (body : H A) (handler : error -> H A) : H A :=
  fun w =>
    match body w with
    | (Return a, w') => (Return a, w')
    | (Throw err, w') => handler err w'
    end.

Definition on_disk (p : jsstring) (d : list jsstring) : bool := set_has d p.
Definition disk_remove (p : jsstring) (d : list jsstring) : list jsstring :=
  filter (fun q => negb (Js.eqb p q)) d.

Section Handlers.
Variable h : henv.

Definition h_existsSync (p : jsstring) : H bool :=
  fun w => (Return (on_disk p (disk w)), w).

(** [fs.unlinkSync(p)]: it throws when the file is not there, and when
    the system refuses. *)
Definition h_unlinkSync (p : jsstring) : H unit :=
  fun w =>
    let w' := mkWorld (disk w) (S (unlinks w)) (tmp_files w) (photos w) in
    if on_disk p (disk w) then
      if unlink_ok h (unlinks w)
      then (Return tt,
            mkWorld (disk_remove p (disk w)) (S (unlinks w)) (tmp_files w) (photos w))
      else (Throw "EPERM", w')
    else (Throw "ENOENT", w').

(** [await extractTextFromImage(req.file.path)] *)
Definition h_extract (p : jsstring) : H result :=
  fun w =>
    let e := mkEnv (on_disk p (disk w)) (toFile (ocr_env h))
                   (toFile_late (ocr_env h))
                   (recognize_tmp (ocr_env h)) (recognize_image (ocr_env h))
                   (unlinkSync_ok (ocr_env h)) in
    match extractTextFromImage e (Some p) (tmp_files w) with
    | (o, fs') => (o, mkWorld (disk w) (unlinks w) fs' (photos w))
    end.

(** [await pool.execute("INSERT INTO photos ...", [...])] *)
Definition h_insert (p : photo) : H nat :=
  fun w =>
    match insert_photo h p with
    | Resolved insertId =>
        (Return insertId,
         mkWorld (disk w) (unlinks w) (tmp_files w) (photos w ++ [(insertId, p)]))
    | Rejected err => (Throw err, w)
    end.

Definition owned (req_id : jsstring) (userId : nat) (r : row) : bool :=
  id_matches h req_id (fst r) && Nat.eqb (user_id (snd r)) userId.

(** [await pool.execute("SELECT ... FROM photos WHERE id = ? AND user_id = ?", [...])] *)
Definition h_select (req_id : jsstring) (userId : nat) : H (list row) :=
  fun w =>
    match select_photo h with
    | Resolved _ => (Return (filter (owned req_id userId) (photos w)), w)
    | Rejected err => (Throw err, w)
    end.

(** [await pool.execute("DELETE FROM photos WHERE id = ? AND user_id = ?", [...])] *)
Definition h_delete (req_id : jsstring) (userId : nat) : H unit :=
  fun w =>
    match delete_photo_query h with
    | Resolved _ =>
        (Return tt,
         mkWorld (disk w) (unlinks w) (tmp_files w)
                 (filter (fun r => negb (owned req_id userId r)) (photos w)))
    | Rejected err => (Throw err, w)
    end.

(** [req.user.id] *)
Definition h_user (req : request) : H nat :=
  match req_user req with
  | Some userId => hret userId
  | None => hthrow "Cannot read properties of undefined (reading 'id')"
  end.

Definition server_error (err : error) : response :=
  mkResponse 500 (Failure (of_string "Server error: " ++ of_string err)).

(** The [catch] block of the two POST routes. *)
Definition drop_upload (req : request) (err : error) : H response :=
  (match req_file req with
   | Some f =>
       ex <~ h_existsSync (path f) ;;
       if ex then h_unlinkSync (path f) else hret tt
   | None => hret tt
   end) ;;~
  hret (server_error err).

(** The handler of [POST /api/photos/scan]. *)
Definition scan (req : request) : H response :=
  htry
    (match req_file req with
     | None => hret (mkResponse 400 (Failure (of_string "No image file received")))
     | Some f =>
         ocrData <~ h_extract (path f) ;;
         ex <~ h_existsSync (path f) ;;
         (if ex then h_unlinkSync (path f) else hret tt) ;;~
         hret (mkResponse 200 (Scanned (ocr_to_json ocrData)))
     end)
    (drop_upload req).

(** [req.body.company_name?.trim() || null] *)
Definition company_of (req : request) : option jsstring :=
  match option_map trim (company_name req) with
  | Some (c :: s) => Some (c :: s)
  | _ => None
  end.

Definition captured_of (req : request) : date :=
  match captured_at req with
  | Some (c :: s) => DateOf (c :: s)
  | _ => Now
  end.

(** The handler of [POST /api/photos/upload]. *)
Definition upload (req : request) : H response :=
  htry
    (match req_file req with
     | None => hret (mkResponse 400 (Failure (of_string "No photo file received")))
     | Some f =>
         let lat := parseFloat h (latitude req) in
         let lng := parseFloat h (longitude req) in
         let acc := num_or_null (parseFloat h (accuracy req)) in
         if isNaN lat || isNaN lng then
           h_unlinkSync (path f) ;;~
           hret (mkResponse 400 (Failure (of_string "Invalid latitude or longitude")))
         else
           let companyName := company_of req in
           let address := reverseGeocode h lat lng in
           ocrData <~ h_extract (path f) ;;
           userId <~ h_user req ;;
           let photoName := filename f in
           let filePath := path f in
           let capturedAt := captured_of req in
           insertId <~ h_insert (mkPhoto userId photoName filePath lat lng acc
                                         address ocrData companyName capturedAt) ;;
           hret (mkResponse 201
                   (Saved insertId photoName (of_string "/uploads/" ++ photoName)
                          address lat lng companyName (ocr_to_json ocrData)))
     end)
    (drop_upload req).

(** The [catch] block of the routes on one photo: [err.message] as it
    is. *)
Definition plain_error (err : error) : H response :=
  hret (mkResponse 500 (Failure (of_string err))).

Definition not_found : response :=
  mkResponse 404 (Failure (of_string "Photo not found")).

(** The handler of [GET /api/photos/:id]. *)
Definition get_photo (req : request) : H response :=
  htry
    (userId <~ h_user req ;;
     rows <~ h_select (req_id req) userId ;;
     match rows with
     | [] => hret not_found
     | r :: _ =>
         hret (mkResponse 200
                 (Found r (of_string "/uploads/" ++ photo_name (snd r))))
     end)
    plain_error.

(** The handler of [DELETE /api/photos/:id]. *)
Definition delete_photo (req : request) : H response :=
  htry
    (userId <~ h_user req ;;
     rows <~ h_select (req_id req) userId ;;
     match rows with
     | [] => hret not_found
     | r :: _ =>
         let filePath := upload_path h (photo_name (snd r)) in
         h_delete (req_id req) userId ;;~
         ex <~ h_existsSync filePath ;;
         (if ex then h_unlinkSync filePath else hret tt) ;;~
         hret (mkResponse 200
                 (Deleted (of_string "Photo " ++ req_id req ++ of_string " deleted")))
     end)
    plain_error.

End Handlers.

(** The rows that the [WHERE] clause of the routes on one photo selects
    for a request. *)
Definition matches_request (h : henv) (req : request) (r : row) : bool :=
  match req_user req with
  | Some userId => owned h (req_id req) userId r
  | None => false
  end.

End Routes.

(** ** Concrete requests *)

Module Visits.
Import Js Ocr Page Pipeline Examples Routes.
Local Open Scope string_scope.

(** A photo as the upload middleware stores it. *)
Definition sign_jpg : upload_file :=
  mkUpload (of_string "/srv/public/uploads/sign.jpg") (of_string "sign.jpg").

Definition no_address : address := mkAddress None None None None None None.

(** [parseFloat] on the strings of the requests below. *)
Definition float_of (s : option jsstring) : number :=
  match s with
  | Some t =>
      if Js.eqb t (of_string "13") then Num (13 # 1)
      else if Js.eqb t (of_string "80") then Num (80 # 1)
      else NaN
  | None => NaN
  end.

(** A server whose engine reads one letter, so that no text is kept,
    whose geocoder finds nothing, whose database gives the [id] 7 to
    the next row, and where every file can be unlinked. *)
Definition quiet_server : henv :=
  mkHenv env_best_is_short float_of (fun _ _ => no_address)
         (fun _ => Resolved 7) (Resolved tt) (Resolved tt)
         (fun s n => Js.eqb s (of_string "7") && Nat.eqb n 7)
         (fun name => (of_string "/srv/public/uploads/" ++ name)%list)
         (fun _ => true).

Definition scan_request : request :=
  mkRequest (Some 1) (Some sign_jpg) [] None None None None None.

Definition upload_request : request :=
  mkRequest (Some 1) (Some sign_jpg) []
            (Some (of_string "13")) (Some (of_string "80")) None
            (Some (of_string " Cafe ")) None.

Definition delete_request : request :=
  mkRequest (Some 1) None (of_string "7") None None None None None.

(** The upload directory holds the photo and the table is empty. *)
Definition one_upload : world := mkWorld [path sign_jpg] 0 [] [].

End Visits.

Import Js Regex Ocr Page Pipeline Examples Props.
From Stdlib Require Import Lqa.

Unset Implicit Arguments.

(** * Properties *)

(** ** Strings *)

Lemma eqb_eq (a b : jsstring) : Js.eqb a b = true <-> a = b.
Proof.
  revert b; induction a as [|x a IH]; intros [|y b]; simpl;
    try (split; [discriminate | congruence]); [tauto|].
  rewrite andb_true_iff, N.eqb_eq, IH. split.
  - intros [-> ->]; reflexivity.
  - intros H; injection H; auto.
Qed.

Lemma set_has_In (l : list jsstring) (x : jsstring) :
  set_has l x = true <-> In x l.
Proof.
  unfold set_has. rewrite existsb_exists. split.
  - intros [y [Hy E]]. apply eqb_eq in E. subst. assumption.
  - intros H. exists x. split; [assumption | apply eqb_eq; reflexivity].
Qed.

Lemma dedupe_from_spec (l seen : list jsstring) :
  NoDup (dedupe_from seen l) /\
  (forall x, In x (dedupe_from seen l) <-> In x l /\ ~ In x seen).
Proof.
  revert seen; induction l as [|y l IH]; intros seen; simpl.
  - split; [constructor | intros x; tauto].
  - destruct (set_has seen y) eqn:E.
    + apply set_has_In in E. destruct (IH seen) as [N I]. split; [exact N|].
      intros x. rewrite I. split; [tauto|].
      intros [[->|H] Hs]; [contradiction | tauto].
    + assert (Hy : ~ In y seen) by (rewrite <- set_has_In, E; discriminate).
      destruct (IH (y :: seen)) as [N I]. split.
      * constructor; [|exact N]. rewrite I. simpl. tauto.
      * intros x. simpl. rewrite I. simpl. split.
        -- intros [<-|[H Hs]]; [tauto|]. split; [tauto|]. tauto.
        -- intros [[<-|H] Hs]; [tauto|].
           destruct (list_eq_dec N.eq_dec y x) as [->|Hn]; [tauto|].
           right. split; [assumption|]. intros [?|?]; tauto.
Qed.

Lemma dedupe_NoDup (l : list jsstring) : NoDup (dedupe l).
Proof. apply dedupe_from_spec. Qed.

Lemma dedupe_In (l : list jsstring) (x : jsstring) : In x (dedupe l) <-> In x l.
Proof. unfold dedupe. rewrite (proj2 (dedupe_from_spec l [])). simpl. tauto. Qed.

Lemma or_null_spec (s : jsstring) : null_or_nonempty (or_null s).
Proof. destruct s; simpl; [exact I | discriminate]. Qed.

Lemma or_null_some (s : jsstring) : s <> [] -> or_null s = Some s.
Proof. destruct s; [congruence | reflexivity]. Qed.

Lemma join_cons (sep x : jsstring) (l : list jsstring) :
  l <> [] -> join sep (x :: l) = x ++ sep ++ join sep l.
Proof. destruct l; [congruence | reflexivity]. Qed.

Lemma join_nonempty (sep : jsstring) (l : list jsstring) (a : jsstring) :
  In a l -> a <> [] -> join sep l <> [].
Proof.
  induction l as [|x l IH]; simpl; [tauto|].
  intros [->|H] Ha.
  - destruct l; [assumption|]. destruct a; [congruence | discriminate].
  - destruct l as [|y l]; [destruct H|].
    intros E. apply app_eq_nil in E. destruct E as [_ E].
    apply app_eq_nil in E. destruct E as [_ E]. revert E. apply IH; assumption.
Qed.

Lemma drop_while_nil (p : char -> bool) (s : jsstring) :
  drop_while p s = [] <-> forallb p s = true.
Proof.
  induction s as [|c s IH]; simpl; [tauto|].
  destruct (p c); simpl; [exact IH | split; discriminate].
Qed.

Lemma drop_while_forallb (p : char -> bool) (s : jsstring) :
  drop_while p s <> [] -> forallb p (drop_while p s) = false.
Proof.
  induction s as [|c s IH]; simpl; [congruence|].
  destruct (p c) eqn:E; [exact IH|]. intros _. simpl. rewrite E. reflexivity.
Qed.

Lemma forallb_rev (p : char -> bool) (s : jsstring) :
  forallb p (rev s) = forallb p s.
Proof.
  induction s as [|c s IH]; simpl; [reflexivity|].
  rewrite forallb_app, IH. simpl. rewrite andb_true_r. apply andb_comm.
Qed.

Lemma trim_nil_iff (s : jsstring) : trim s = [] <-> blank s = true.
Proof.
  unfold trim, blank. split.
  - intros H. apply (f_equal (@rev char)) in H. rewrite rev_involutive in H.
    simpl in H. apply drop_while_nil in H. rewrite forallb_rev in H.
    destruct (drop_while is_ws s) eqn:E.
    + apply drop_while_nil. assumption.
    + rewrite <- E in H. rewrite drop_while_forallb in H; [discriminate|].
      rewrite E. discriminate.
  - intros H. apply drop_while_nil in H. rewrite H. reflexivity.
Qed.

Lemma blank_app (a b : jsstring) : blank (a ++ b) = blank a && blank b.
Proof. apply forallb_app. Qed.

(** ** The matcher *)

Lemma rep_prev_blind (m : cont -> cont) :
  (forall k, prev_blind k -> prev_blind (m k)) ->
  forall hi lo k, prev_blind k -> prev_blind (rep m lo hi k).
Proof.
  intros Hm. induction hi as [|hi IH]; intros lo k Hk q q' t; cbn [rep].
  - apply Hk.
  - destruct lo as [|lo].
    + rewrite (Hm _ (IH 0 k Hk) q q' t), (Hk q q' t). reflexivity.
    + apply (Hm _ (IH lo k Hk)).
Qed.

Lemma many_prev_blind (p : char -> bool) (k : cont) :
  prev_blind k -> forall lo, prev_blind (fun st => many p lo k (fst st) (snd st)).
Proof.
  intros Hk lo q q' t. cbn [fst snd].
  destruct t as [|c t]; destruct lo as [|lo]; cbn [many]; try reflexivity.
  - apply Hk.
  - rewrite (Hk q q' (c :: t)). reflexivity.
Qed.

Lemma mt_prev_blind (r : regex) :
  no_wordb r = true -> forall k, prev_blind k -> prev_blind (mt r k).
Proof.
  induction r as [p|a IHa b IHb|a IHa b IHb|lo hi a IHa|lo p|];
    cbn [no_wordb]; intros Hr k Hk.
  - intros q q' [|c t]; cbn [mt snd]; reflexivity.
  - apply andb_true_iff in Hr. destruct Hr as [Ha Hb].
    intros q q' t. cbn [mt]. apply (IHa Ha). apply (IHb Hb). assumption.
  - apply andb_true_iff in Hr. destruct Hr as [Ha Hb].
    intros q q' t. cbn [mt].
    rewrite (IHa Ha k Hk q q' t), (IHb Hb k Hk q q' t). reflexivity.
  - intros q q' t. cbn [mt]. apply rep_prev_blind; auto.
  - intros q q' t. cbn [mt]. apply (many_prev_blind p k Hk lo).
  - discriminate Hr.
Qed.

Lemma match_here_prev (r : regex) (q q' : option char) (s : jsstring) :
  no_wordb r = true -> match_here r q s = match_here r q' s.
Proof.
  intros Hr. unfold match_here. apply (mt_prev_blind r Hr).
  intros ? ? ?. reflexivity.
Qed.

Lemma rep_agree_upto (e : jsstring) (m : cont -> cont) :
  (forall k k', agree_upto e k k' -> agree_upto e (m k) (m k')) ->
  forall hi lo k k', agree_upto e k k' ->
    agree_upto e (rep m lo hi k) (rep m lo hi k').
Proof.
  intros Hm. induction hi as [|hi IH]; intros lo k k' Hk q t; cbn [rep].
  - apply Hk.
  - destruct lo as [|lo].
    + rewrite (Hm _ _ (IH 0 k k' Hk) q t).
      destruct (m (rep m 0 hi k') (q, t)); [reflexivity | apply Hk].
    + apply (Hm _ _ (IH lo k k' Hk)).
Qed.

Lemma many_agree_upto (e : jsstring) (p : char -> bool) (k k' : cont) :
  match e with [] => True | w :: _ => p w = false end ->
  agree_upto e k k' ->
  forall t lo q,
    many p lo k q (t ++ e) = option_map (fun x => x ++ e) (many p lo k' q t).
Proof.
  intros He Hk. induction t as [|c t IH]; intros lo q.
  - cbn [app]. destruct e as [|w e'].
    + destruct lo; cbn [many]; [apply (Hk q [])|reflexivity].
    + destruct lo; cbn [many]; rewrite He; [apply (Hk q [])|reflexivity].
  - cbn [app]. destruct lo as [|lo]; cbn [many]; destruct (p c).
    + rewrite IH. destruct (many p 0 k' (Some c) t); [reflexivity|].
      apply (Hk q (c :: t)).
    + apply (Hk q (c :: t)).
    + apply IH.
    + reflexivity.
Qed.

(** A match attempt cannot see past a code unit that every class of
    the pattern refuses. *)
Lemma mt_agree_upto (e : jsstring) (r : regex) :
  no_wordb r = true -> stops r e ->
  forall k k', agree_upto e k k' -> agree_upto e (mt r k) (mt r k').
Proof.
  induction r as [p|a IHa b IHb|a IHa b IHb|lo hi a IHa|lo p|];
    cbn [no_wordb]; intros Hr He k k' Hk.
  - intros q [|c t]; cbn [mt snd app].
    + destruct e as [|w e']; [reflexivity|].
      cbn [stops rejects] in He. apply negb_true_iff in He. rewrite He. reflexivity.
    + destruct (p c); [apply (Hk (Some c) t) | reflexivity].
  - apply andb_true_iff in Hr. destruct Hr as [Ha Hb].
    assert (He' : stops a e /\ stops b e).
    { destruct e; cbn [stops rejects] in *; [tauto|]. apply andb_true_iff in He. tauto. }
    intros q t. cbn [mt]. apply (IHa Ha (proj1 He')). apply (IHb Hb (proj2 He')). assumption.
  - apply andb_true_iff in Hr. destruct Hr as [Ha Hb].
    assert (He' : stops a e /\ stops b e).
    { destruct e; cbn [stops rejects] in *; [tauto|]. apply andb_true_iff in He. tauto. }
    intros q t. cbn [mt]. rewrite (IHa Ha (proj1 He') k k' Hk q t).
    destruct (mt a k' (q, t)); [reflexivity|]. apply (IHb Hb (proj2 He') k k' Hk).
  - intros q t. cbn [mt]. apply rep_agree_upto; [|assumption].
    intros k0 k0' H0. apply IHa; [assumption| |assumption].
    destruct e; [exact I | exact He].
  - intros q t. cbn [mt fst snd]. apply many_agree_upto; [|assumption].
    destruct e; [exact I|]. cbn [stops rejects] in He. apply negb_true_iff in He. exact He.
  - discriminate Hr.
Qed.

Lemma match_here_stops (r : regex) (q : option char) (t e : jsstring) :
  no_wordb r = true -> stops r e ->
  match_here r q (t ++ e) = option_map (fun x => x ++ e) (match_here r q t).
Proof.
  intros Hr He. unfold match_here.
  apply (mt_agree_upto e r Hr He). intros ? ?. reflexivity.
Qed.

Lemma rep_succeeds_longer (b : jsstring) (m : cont -> cont) :
  (forall k k', succeeds_longer b k k' -> succeeds_longer b (m k) (m k')) ->
  forall hi lo k k', succeeds_longer b k k' ->
    succeeds_longer b (rep m lo hi k) (rep m lo hi k').
Proof.
  intros Hm. induction hi as [|hi IH]; intros lo k k' Hk q t x; cbn [rep].
  - apply Hk.
  - destruct lo as [|lo].
    + destruct (m (rep m 0 hi k) (q, t)) as [y|] eqn:E.
      * intros _. destruct (Hm _ _ (IH 0 k k' Hk) q t y E) as [x' E'].
        rewrite E'. eexists; reflexivity.
      * intros H. destruct (m (rep m 0 hi k') (q, t ++ b)); [eexists; reflexivity|].
        apply (Hk q t x H).
    + apply (Hm _ _ (IH lo k k' Hk)).
Qed.

Lemma many_succeeds_longer (b : jsstring) (p : char -> bool) (k k' : cont) :
  succeeds_longer b k k' ->
  forall t lo q x,
    many p lo k q t = Some x -> exists x', many p lo k' q (t ++ b) = Some x'.
Proof.
  intros Hk. induction t as [|c t IH]; intros lo q x.
  - cbn [app]. destruct lo as [|lo]; cbn [many]; [|discriminate].
    intros H. destruct (Hk q [] x H) as [x' E]. cbn [app] in E.
    destruct b as [|w b']; cbn [many]; [eexists; exact E|].
    destruct (p w); [|eexists; exact E].
    destruct (many p 0 k' (Some w) b'); eexists; [reflexivity | exact E].
  - cbn [app]. destruct lo as [|lo]; cbn [many]; destruct (p c).
    + destruct (many p 0 k (Some c) t) as [y|] eqn:E.
      * intros _. destruct (IH 0 (Some c) y E) as [x' E']. rewrite E'.
        eexists; reflexivity.
      * intros H. destruct (many p 0 k' (Some c) (t ++ b)); [eexists; reflexivity|].
        apply (Hk q (c :: t) x H).
    + apply (Hk q (c :: t) x).
    + apply IH.
    + discriminate.
Qed.

(** A match that succeeds on a text succeeds on every extension of it. *)
Lemma mt_succeeds_longer (b : jsstring) (r : regex) :
  no_wordb r = true ->
  forall k k', succeeds_longer b k k' -> succeeds_longer b (mt r k) (mt r k').
Proof.
  induction r as [p|a IHa c IHc|a IHa c IHc|lo hi a IHa|lo p|];
    cbn [no_wordb]; intros Hr k k' Hk.
  - intros q [|d t] x; cbn [mt snd app]; [discriminate|].
    destruct (p d); [apply (Hk (Some d) t x) | discriminate].
  - apply andb_true_iff in Hr. destruct Hr as [Ha Hc].
    intros q t x. cbn [mt]. apply (IHa Ha). apply (IHc Hc). assumption.
  - apply andb_true_iff in Hr. destruct Hr as [Ha Hc].
    intros q t x. cbn [mt].
    destruct (mt a k (q, t)) as [y|] eqn:E.
    + intros _. destruct (IHa Ha k k' Hk q t y E) as [x' E']. rewrite E'.
      eexists; reflexivity.
    + intros H. destruct (mt a k' (q, t ++ b)); [eexists; reflexivity|].
      apply (IHc Hc k k' Hk q t x H).
  - intros q t x. cbn [mt]. apply rep_succeeds_longer; [|assumption].
    intros k0 k0' H0. apply IHa; assumption.
  - intros q t x. cbn [mt fst snd]. apply many_succeeds_longer. assumption.
  - discriminate Hr.
Qed.

Lemma match_here_longer (r : regex) (q : option char) (t b x : jsstring) :
  no_wordb r = true ->
  match_here r q t = Some x -> exists x', match_here r q (t ++ b) = Some x'.
Proof.
  intros Hr. unfold match_here. apply (mt_succeeds_longer b r Hr).
  intros ? ? ? _. eexists; reflexivity.
Qed.

(** ** Scans: [test], [matchAll] and [replace] *)

Lemma test_from_prev (r : regex) (q q' : option char) (s : jsstring) :
  no_wordb r = true -> test_from r q s = test_from r q' s.
Proof.
  intros Hr. destruct s as [|c s]; cbn [test_from];
    rewrite (match_here_prev r q q' _ Hr); reflexivity.
Qed.

Lemma match_all_from_prev (r : regex) (q q' : option char) (s : jsstring) (n : nat) :
  no_wordb r = true -> match_all_from r q s n = match_all_from r q' s n.
Proof.
  intros Hr. destruct s as [|c s]; cbn [match_all_from];
    rewrite (match_here_prev r q q' _ Hr); reflexivity.
Qed.

Lemma test_false_here (r : regex) (q : option char) (s : jsstring) :
  test_from r q s = false -> match_here r q s = None.
Proof.
  destruct s as [|c s]; cbn [test_from];
    destruct (match_here r q _); congruence.
Qed.

Lemma test_false_tail (r : regex) (q : option char) (c : char) (s : jsstring) :
  test_from r q (c :: s) = false -> test_from r (Some c) s = false.
Proof.
  cbn [test_from]. destruct (match_here r q (c :: s)); congruence.
Qed.

(** Where the pattern matches nowhere, [matchAll] finds nothing and
    [replace] changes nothing. *)
Lemma match_all_no_match (r : regex) (s : jsstring) (q : option char) :
  test_from r q s = false -> match_all_from r q s 0 = [].
Proof.
  revert q; induction s as [|c s IH]; intros q H; cbn [match_all_from];
    rewrite (test_false_here r q _ H); [reflexivity|].
  apply IH. apply (test_false_tail r q c s H).
Qed.

Lemma replace_no_match (r : regex) (by_ s : jsstring) (q : option char) :
  test_from r q s = false -> replace_from r by_ q s 0 = s.
Proof.
  revert q; induction s as [|c s IH]; intros q H; cbn [replace_from];
    rewrite (test_false_here r q _ H); [reflexivity|].
  f_equal. apply IH. apply (test_false_tail r q c s H).
Qed.

Lemma test_from_app_l (r : regex) (a s : jsstring) (q q' : option char) :
  no_wordb r = true ->
  test_from r q s = true -> test_from r q' (a ++ s) = true.
Proof.
  intros Hr H. revert q'. induction a as [|c a IH]; intros q'; cbn [app].
  - rewrite (test_from_prev r q' q s Hr). exact H.
  - cbn [test_from]. destruct (match_here r q' (c :: a ++ s)); [reflexivity | apply IH].
Qed.

Lemma test_from_app_r (r : regex) (s b : jsstring) (q : option char) :
  no_wordb r = true ->
  test_from r q s = true -> test_from r q (s ++ b) = true.
Proof.
  intros Hr. revert q. induction s as [|c s IH]; intros q.
  - cbn [test_from app]. destruct (match_here r q []) as [x|] eqn:E; [|discriminate].
    intros _. destruct (match_here_longer r q [] b x Hr E) as [x' E'].
    cbn [app] in E'. destruct b; cbn [test_from]; rewrite E'; reflexivity.
  - cbn [test_from app]. destruct (match_here r q (c :: s)) as [x|] eqn:E.
    + intros _. destruct (match_here_longer r q (c :: s) b x Hr E) as [x' E'].
      cbn [app] in E'. rewrite E'. reflexivity.
    + intros H. destruct (match_here r q (c :: s ++ b)); [reflexivity | apply IH, H].
Qed.

(** A pattern that matches nowhere in a text matches nowhere in a part
    of it. *)
Lemma test_part (r : regex) (a s b : jsstring) :
  no_wordb r = true -> test r (a ++ s ++ b) = false -> test r s = false.
Proof.
  intros Hr H. destruct (test r s) eqn:E; [|reflexivity].
  unfold test in *. rewrite (test_from_app_l r a (s ++ b) None None Hr) in H;
    [discriminate|]. apply test_from_app_r; assumption.
Qed.

Lemma matched_len_app (t x e : jsstring) :
  matched_len (t ++ e) (x ++ e) = matched_len t x.
Proof. unfold matched_len. rewrite !length_app. lia. Qed.

Lemma matched_len_le (t x : jsstring) : matched_len t x <= length t.
Proof. unfold matched_len. lia. Qed.

Lemma firstn_app_le {A} (n : nat) (l1 l2 : list A) :
  n <= length l1 -> firstn n (l1 ++ l2) = firstn n l1.
Proof.
  intros H. rewrite firstn_app. replace (n - length l1) with 0 by lia.
  cbn [firstn]. apply app_nil_r.
Qed.

(** The matches of a text cut at a code unit that the pattern refuses
    are the matches of the two parts. *)
Lemma match_all_from_cut (r : regex) (w : char) (b : jsstring) :
  no_wordb r = true -> rejects w r = true -> never_empty r ->
  forall (a : jsstring) (q : option char) (skip : nat),
    skip <= length a ->
    match_all_from r q (a ++ w :: b) skip =
      match_all_from r q a skip ++ match_all_from r None b 0.
Proof.
  intros Hr Hw Hne. induction a as [|c a IH]; intros q skip Hs.
  - destruct skip; [|cbn [length] in Hs; lia]. cbn [app match_all_from].
    pose proof (match_here_stops r q [] (w :: b) Hr Hw) as E. cbn [app] in E.
    rewrite E, (Hne q). cbn [option_map app].
    apply match_all_from_prev. assumption.
  - cbn [app match_all_from]. destruct skip as [|n].
    + change (c :: a ++ w :: b) with ((c :: a) ++ w :: b).
      rewrite (match_here_stops r q (c :: a) (w :: b) Hr Hw).
      destruct (match_here r q (c :: a)) as [x|]; cbn [option_map].
      * rewrite matched_len_app. cbv zeta.
        pose proof (matched_len_le (c :: a) x) as L. cbn [length] in L.
        rewrite (firstn_app_le _ (c :: a) (w :: b)) by exact L.
        rewrite IH by lia. reflexivity.
      * apply IH. lia.
    + apply IH. cbn [length] in Hs. lia.
Qed.

Lemma match_all_nil (r : regex) : never_empty r -> match_all r [] = [].
Proof. intros H. unfold match_all. cbn [match_all_from]. rewrite (H None). reflexivity. Qed.

Lemma match_all_cut (r : regex) (w : char) (a b : jsstring) :
  no_wordb r = true -> rejects w r = true -> never_empty r ->
  match_all r (a ++ w :: b) = match_all r a ++ match_all r b.
Proof.
  intros Hr Hw Hne. unfold match_all.
  apply match_all_from_cut; auto. lia.
Qed.

(** ** White space, lines and matches *)

Lemma is_ws_enum (w : char) : is_ws w = true -> In w ws_chars.
Proof.
  unfold is_ws, in_range. rewrite !orb_true_iff, !andb_true_iff.
  rewrite !N.leb_le, !N.eqb_eq. unfold ws_chars. cbn [In].
  intros H.
  assert (C : (w = 9 \/ w = 10 \/ w = 11 \/ w = 12 \/ w = 13 \/ w = 32 \/
               w = 160 \/ w = 0x1680 \/ w = 0x2000 \/ w = 0x2001 \/ w = 0x2002 \/
               w = 0x2003 \/ w = 0x2004 \/ w = 0x2005 \/ w = 0x2006 \/
               w = 0x2007 \/ w = 0x2008 \/ w = 0x2009 \/ w = 0x200A \/
               w = 0x2028 \/ w = 0x2029 \/ w = 0x202F \/ w = 0x205F \/
               w = 0x3000 \/ w = 0xFEFF)%N) by lia.
  repeat (destruct C as [C|C]; [subst w; tauto|]). subst w. tauto.
Qed.

Lemma split_nl_not_nil (s : jsstring) : split_nl s <> [].
Proof.
  induction s as [|c s IH]; cbn [split_nl]; [discriminate|].
  destruct (N.eqb c NL); [discriminate|].
  destruct (split_nl s); [congruence | discriminate].
Qed.

Lemma join_split_nl (s : jsstring) : join [NL] (split_nl s) = s.
Proof.
  induction s as [|c s IH]; cbn [split_nl]; [reflexivity|].
  destruct (N.eqb_spec c NL) as [->|Hc].
  - rewrite join_cons by apply split_nl_not_nil. rewrite IH. reflexivity.
  - destruct (split_nl s) as [|h r] eqn:E; [destruct (split_nl_not_nil s E)|].
    rewrite <- IH. destruct r as [|h' r].
    + reflexivity.
    + rewrite !(join_cons [NL] _ (h' :: r)) by discriminate. reflexivity.
Qed.

Section WordLocal.
Variable r : regex.
Hypothesis Hr : word_local r.

Lemma word_local_rejects (w : char) : is_ws w = true -> rejects w r = true.
Proof.
  intros H. destruct Hr as (_ & Hall & _).
  rewrite forallb_forall in Hall. apply Hall, is_ws_enum, H.
Qed.

Lemma match_all_ws_cut (w : char) (a b : jsstring) :
  is_ws w = true -> match_all r (a ++ w :: b) = match_all r a ++ match_all r b.
Proof.
  intros H. apply match_all_cut; try apply Hr. apply word_local_rejects, H.
Qed.

Lemma match_all_empty : match_all r [] = [].
Proof. apply match_all_nil, Hr. Qed.

Lemma match_all_drop_ws (s : jsstring) :
  match_all r (drop_while is_ws s) = match_all r s.
Proof.
  induction s as [|c s IH]; cbn [drop_while]; [reflexivity|].
  destruct (is_ws c) eqn:E; [|reflexivity].
  rewrite IH. change (c :: s) with ([] ++ c :: s).
  rewrite (match_all_ws_cut c [] s E), match_all_empty. reflexivity.
Qed.

Lemma match_all_drop_ws_end (v : jsstring) :
  match_all r (rev (drop_while is_ws v)) = match_all r (rev v).
Proof.
  induction v as [|c v IH]; cbn [drop_while]; [reflexivity|].
  destruct (is_ws c) eqn:E; [|reflexivity].
  rewrite IH. cbn [rev].
  rewrite (match_all_ws_cut c (rev v) [] E), match_all_empty, app_nil_r.
  reflexivity.
Qed.

Lemma match_all_trim (s : jsstring) : match_all r (trim s) = match_all r s.
Proof.
  unfold trim. rewrite match_all_drop_ws_end, rev_involutive.
  apply match_all_drop_ws.
Qed.

Lemma match_all_join (ls : list jsstring) :
  match_all r (join [NL] ls) = flat_map (match_all r) ls.
Proof.
  induction ls as [|x ls IH]; [apply match_all_empty|].
  destruct ls as [|y ls].
  - cbn [join flat_map]. rewrite app_nil_r. reflexivity.
  - rewrite join_cons by discriminate. cbn [app flat_map] in *.
    rewrite (match_all_ws_cut NL x _ eq_refl), IH. reflexivity.
Qed.

Lemma match_all_split_lines (c : jsstring) :
  flat_map (match_all r) (split_lines c) = match_all r c.
Proof.
  rewrite <- (join_split_nl c) at 2. rewrite match_all_join.
  unfold split_lines. induction (split_nl c) as [|x ls IH]; [reflexivity|].
  cbn [map filter flat_map]. rewrite <- IH, <- (match_all_trim x).
  destruct (trim x) as [|d t]; [|reflexivity].
  cbn [nonempty length Nat.ltb Nat.leb]. rewrite match_all_empty. reflexivity.
Qed.

(** The matches of a text are those of its lines joined again. *)
Lemma match_all_formatted (c : jsstring) :
  match_all r (join [NL] (split_lines c)) = match_all r c.
Proof. rewrite match_all_join. apply match_all_split_lines. Qed.

End WordLocal.

Lemma emailRegex_word_local : word_local emailRegex.
Proof.
  split; [reflexivity|]. split; [vm_compute; reflexivity|].
  intros q. reflexivity.
Qed.

Lemma urlRegex_word_local : word_local urlRegex.
Proof.
  split; [reflexivity|]. split; [vm_compute; reflexivity|].
  intros q. reflexivity.
Qed.

Lemma phoneRegex_no_wordb : no_wordb phoneRegex = true.
Proof. reflexivity. Qed.

(** ** Runs of one class *)

Lemma run_le_length (p : char -> bool) (s : jsstring) : run p s <= length s.
Proof.
  induction s as [|c s IH]; cbn [run length]; [lia|]. destruct (p c); lia.
Qed.

Lemma run_skipn (p : char -> bool) (s : jsstring) : run p (skipn (run p s) s) = 0.
Proof.
  induction s as [|c s IH]; cbn [run]; [reflexivity|].
  destruct (p c) eqn:E; cbn [skipn run]; [exact IH | rewrite E; reflexivity].
Qed.

Lemma run_app_le (p : char -> bool) (s b : jsstring) : run p s <= run p (s ++ b).
Proof.
  induction s as [|c s IH]; cbn [run app]; [lia|]. destruct (p c); lia.
Qed.

Lemma run_stop (p : char -> bool) (a b : jsstring) (w : char) :
  p w = false -> run p (a ++ w :: b) = run p a.
Proof.
  intros H. induction a as [|c a IH]; cbn [run app]; [rewrite H; reflexivity|].
  destruct (p c); congruence.
Qed.

Lemma no_run_tail (n : nat) (p : char -> bool) (c : char) (s : jsstring) :
  no_run n p (c :: s) = true -> no_run n p s = true.
Proof. cbn [no_run]. rewrite andb_true_iff. tauto. Qed.

Lemma no_run_app_l (n : nat) (p : char -> bool) (a s : jsstring) :
  no_run n p (a ++ s) = true -> no_run n p s = true.
Proof.
  induction a as [|c a IH]; cbn [app]; [tauto|].
  intros H. apply IH. apply (no_run_tail n p c _ H).
Qed.

Lemma no_run_app_r (n : nat) (p : char -> bool) (s b : jsstring) :
  no_run n p (s ++ b) = true -> no_run n p s = true.
Proof.
  induction s as [|c s IH]; [reflexivity|].
  change ((c :: s) ++ b) with (c :: (s ++ b)). cbn [no_run].
  rewrite !andb_true_iff, !Nat.ltb_lt. intros [H1 H2]. split; [|apply IH, H2].
  pose proof (run_app_le p (c :: s) b) as L. cbn [app] in L. lia.
Qed.

Lemma no_run_part (n : nat) (p : char -> bool) (a s b : jsstring) :
  no_run n p (a ++ s ++ b) = true -> no_run n p s = true.
Proof. intros H. apply no_run_app_l in H. apply no_run_app_r in H. exact H. Qed.

Lemma no_run_skipn (n : nat) (p : char -> bool) (k : nat) (s : jsstring) :
  no_run n p s = true -> no_run n p (skipn k s) = true.
Proof.
  intros H. rewrite <- (firstn_skipn k s) in H. apply no_run_app_l in H. exact H.
Qed.

Lemma no_run_mono (n m : nat) (p : char -> bool) (s : jsstring) :
  n <= m -> no_run n p s = true -> no_run m p s = true.
Proof.
  intros L. induction s as [|c s IH]; [reflexivity|]. cbn [no_run].
  rewrite !andb_true_iff, !Nat.ltb_lt. intros [H1 H2]. split; [lia | apply IH, H2].
Qed.

(** A text cut at a code unit outside the class has no run if its two
    parts have none. *)
Lemma no_run_cut (n : nat) (p : char -> bool) (a b : jsstring) (w : char) :
  0 < n -> p w = false ->
  no_run n p a = true -> no_run n p b = true ->
  no_run n p (a ++ w :: b) = true.
Proof.
  intros Hn Hw Ha Hb. induction a as [|c a IH].
  - cbn [app no_run run]. rewrite Hw, Hb. apply andb_true_iff. split; [|reflexivity].
    apply Nat.ltb_lt. exact Hn.
  - change ((c :: a) ++ w :: b) with (c :: (a ++ w :: b)).
    cbn [no_run] in *. apply andb_true_iff in Ha. destruct Ha as [H1 H2].
    apply andb_true_iff. split; [|apply IH, H2].
    change (c :: (a ++ w :: b)) with ((c :: a) ++ w :: b).
    rewrite (run_stop p (c :: a) b w Hw). exact H1.
Qed.

Lemma no_run_none (n : nat) (p : char -> bool) (s : jsstring) :
  0 < n -> forallb (fun c => negb (p c)) s = true -> no_run n p s = true.
Proof.
  intros Hn. induction s as [|c s IH]; [reflexivity|]. cbn [forallb no_run run].
  rewrite andb_true_iff, negb_true_iff. intros [H1 H2]. rewrite H1, (IH H2).
  apply andb_true_iff. split; [apply Nat.ltb_lt; exact Hn | reflexivity].
Qed.

(** ** Patterns of one class *)

Lemma test_from_chr (p : char -> bool) (q : option char) (s : jsstring) :
  test_from (Chr p) q s = existsb p s.
Proof.
  revert q; induction s as [|c s IH]; intros q; [reflexivity|].
  cbn [test_from existsb]. unfold match_here. cbn [mt snd].
  destruct (p c); [reflexivity | apply IH].
Qed.

Lemma match_here_many (n : nat) (p : char -> bool) (q : option char) (s : jsstring) :
  match_here (Many n p) q s =
    if Nat.leb n (run p s) then Some (skipn (run p s) s) else None.
Proof.
  unfold match_here. cbn [mt fst snd].
  revert n q; induction s as [|c s IH]; intros n q.
  - destruct n; reflexivity.
  - destruct n as [|n]; cbn [many run]; destruct (p c) eqn:E; try reflexivity.
    + rewrite IH. reflexivity.
    + rewrite IH. cbn [skipn Nat.leb]. reflexivity.
Qed.

Lemma test_from_many (n : nat) (p : char -> bool) (q : option char) (s : jsstring) :
  0 < n -> test_from (Many n p) q s = negb (no_run n p s).
Proof.
  intros Hn. revert q; induction s as [|c s IH]; intros q.
  - cbn [test_from no_run]. rewrite match_here_many. cbn [run].
    destruct n; [lia | reflexivity].
  - cbn [test_from no_run]. rewrite match_here_many, IH.
    destruct (Nat.leb_spec n (run p (c :: s))) as [L|L].
    + apply Nat.ltb_ge in L. rewrite L. reflexivity.
    + apply Nat.ltb_lt in L. rewrite L. reflexivity.
Qed.

Lemma replace_from_prev (r : regex) (by_ : jsstring) (q q' : option char)
  (s : jsstring) (k : nat) :
  no_wordb r = true -> replace_from r by_ q s k = replace_from r by_ q' s k.
Proof.
  intros Hr. destruct s as [|c s]; cbn [replace_from];
    rewrite (match_here_prev r q q' _ Hr); reflexivity.
Qed.

Lemma replace_from_skip (r : regex) (by_ : jsstring) (s : jsstring) :
  no_wordb r = true ->
  forall (k : nat) (q q' : option char),
    k <= length s ->
    replace_from r by_ q s k = replace_from r by_ q' (skipn k s) 0.
Proof.
  intros Hr. induction s as [|c s IH]; intros k q q' Hk.
  - destruct k; [|cbn [length] in Hk; lia]. apply replace_from_prev, Hr.
  - destruct k as [|k]; [apply replace_from_prev, Hr|].
    cbn [replace_from skipn]. apply IH. cbn [length] in Hk. lia.
Qed.

Lemma matched_len_skipn (k : nat) (s : jsstring) :
  k <= length s -> matched_len s (skipn k s) = k.
Proof. intros H. unfold matched_len. rewrite length_skipn. lia. Qed.

(** One step of [replace] for a pattern [[p]{n,}]. *)
Lemma replace_many_step (n : nat) (p : char -> bool) (by_ : jsstring)
  (q : option char) (c : char) (t : jsstring) :
  0 < n ->
  replace_from (Many n p) by_ q (c :: t) 0 =
    if Nat.leb n (run p (c :: t))
    then by_ ++ replace_from (Many n p) by_ None (skipn (run p (c :: t)) (c :: t)) 0
    else c :: replace_from (Many n p) by_ None t 0.
Proof.
  intros Hn. cbn [replace_from]. rewrite match_here_many.
  destruct (Nat.leb_spec n (run p (c :: t))) as [L|L].
  - rewrite matched_len_skipn by apply run_le_length.
    destruct (run p (c :: t)) as [|k] eqn:E; [lia|].
    f_equal. cbn [skipn]. apply replace_from_skip; [reflexivity|].
    pose proof (run_le_length p (c :: t)) as B. rewrite E in B. cbn [length] in B. lia.
  - f_equal. apply replace_from_prev. reflexivity.
Qed.

Lemma replace_from_chars (r : regex) (by_ : jsstring) (x : char) (s : jsstring) :
  forall (q : option char) (k : nat),
    In x (replace_from r by_ q s k) -> In x s \/ In x by_.
Proof.
  induction s as [|c s IH]; intros q k; cbn [replace_from].
  - destruct k; [|intros []]. destruct (match_here r q []); [tauto | intros []].
  - destruct k as [|k].
    + destruct (match_here r q (c :: s)) as [rest|].
      * destruct (matched_len (c :: s) rest); intros H; apply in_app_or in H;
          destruct H as [H|H]; try tauto.
        -- destruct H as [<-|H]; [left; left; reflexivity|].
           destruct (IH _ _ H); [left; right; assumption | tauto].
        -- destruct (IH _ _ H); [left; right; assumption | tauto].
      * intros [<-|H]; [left; left; reflexivity|].
        destruct (IH _ _ H); [left; right; assumption | tauto].
    + intros H. destruct (IH _ _ H); [left; right; assumption | tauto].
Qed.

Lemma replace_chr_nil (p : char -> bool) (s : jsstring) (q : option char) :
  replace_from (Chr p) [] q s 0 = filter (fun c => negb (p c)) s.
Proof.
  revert q; induction s as [|c s IH]; intros q; [reflexivity|].
  cbn [replace_from filter]. unfold match_here. cbn [mt snd].
  destruct (p c); cbn [negb].
  - replace (matched_len (c :: s) s) with 1
      by (unfold matched_len; cbn [length]; lia).
    cbn [app]. apply IH.
  - f_equal. apply IH.
Qed.

(** ** Collapsing spaces and line feeds *)

Lemma collapse_spaces_inv (m : nat) :
  forall s : jsstring,
    length s <= m ->
    no_run 2 sp (replace_from spacesRegex [SP] None s 0) = true /\
    (run sp s = 0 -> run sp (replace_from spacesRegex [SP] None s 0) = 0).
Proof.
  induction m as [|m IH]; intros [|c t] Hl; try (cbn [length] in Hl; lia);
    try (split; reflexivity).
  unfold spacesRegex. rewrite replace_many_step by lia. fold spacesRegex. fold sp.
  destruct (Nat.leb_spec 2 (run sp (c :: t))) as [L|L].
  - destruct (IH (skipn (run sp (c :: t)) (c :: t))) as [A B].
    { rewrite length_skipn. cbn [length] in *. lia. }
    specialize (B (run_skipn sp (c :: t))). split; [|lia].
    set (out := replace_from spacesRegex [SP] None _ 0) in *.
    change ([SP] ++ out) with (SP :: out). cbn [no_run run].
    change (sp SP) with true. cbv iota. rewrite B, A. reflexivity.
  - destruct (IH t) as [A B]; [cbn [length] in Hl; lia|].
    cbn [no_run run] in *. destruct (sp c) eqn:E.
    + split; [|lia]. rewrite B by lia. rewrite A. reflexivity.
    + split; [rewrite A|]; reflexivity.
Qed.

Lemma collapse_newlines_inv (m : nat) :
  forall s : jsstring,
    length s <= m ->
    no_run 2 sp s = true ->
    no_run 2 sp (replace_from newlinesRegex [NL; NL] None s 0) = true /\
    (run sp s = 0 -> run sp (replace_from newlinesRegex [NL; NL] None s 0) = 0).
Proof.
  induction m as [|m IH]; intros [|c t] Hl Hs; try (cbn [length] in Hl; lia);
    try (split; reflexivity).
  unfold newlinesRegex. rewrite replace_many_step by lia. fold newlinesRegex. fold nl.
  destruct (Nat.leb_spec 3 (run nl (c :: t))) as [L|L].
  - destruct (IH (skipn (run nl (c :: t)) (c :: t))) as [A B].
    { rewrite length_skipn. cbn [length] in *. lia. }
    { apply no_run_skipn. exact Hs. }
    set (out := replace_from newlinesRegex [NL; NL] None _ 0) in *.
    split; [|reflexivity]. change ([NL; NL] ++ out) with (NL :: NL :: out).
    cbn [no_run run]. change (sp NL) with false. cbv iota. rewrite A. reflexivity.
  - destruct (IH t) as [A B]; [cbn [length] in Hl; lia | apply (no_run_tail 2 sp c t Hs)|].
    cbn [no_run run] in *. destruct (sp c) eqn:E.
    + apply andb_true_iff in Hs. destruct Hs as [Hs _]. apply Nat.ltb_lt in Hs.
      split; [|lia]. rewrite B by lia. rewrite A. reflexivity.
    + split; [rewrite A|]; reflexivity.
Qed.

(** ** Trimming *)

Lemma drop_while_idem (p : char -> bool) (s : jsstring) :
  drop_while p (drop_while p s) = drop_while p s.
Proof.
  induction s as [|c s IH]; cbn [drop_while]; [reflexivity|].
  destruct (p c) eqn:E; [exact IH|]. cbn [drop_while]. rewrite E. reflexivity.
Qed.

Lemma drop_while_split (p : char -> bool) (s : jsstring) :
  exists a, s = a ++ drop_while p s.
Proof.
  induction s as [|c s [a IH]]; cbn [drop_while]; [exists []; reflexivity|].
  destruct (p c); [|exists []; reflexivity].
  exists (c :: a). cbn [app]. congruence.
Qed.

Lemma drop_while_head (p : char -> bool) (s : jsstring) (d : char) (x : jsstring) :
  drop_while p s = d :: x -> p d = false.
Proof.
  induction s as [|c s IH]; cbn [drop_while]; [discriminate|].
  destruct (p c) eqn:E; [exact IH|]. intros H. injection H as <- _. exact E.
Qed.

Lemma drop_while_fix (p : char -> bool) (d : char) (x : jsstring) :
  p d = false -> forall y, drop_while p ((d :: x) ++ y) = (d :: x) ++ y.
Proof. intros H y. cbn [app drop_while]. rewrite H. reflexivity. Qed.

Lemma trim_split (s : jsstring) : exists a b, s = a ++ trim s ++ b.
Proof.
  unfold trim. destruct (drop_while_split is_ws s) as [a Ha].
  destruct (drop_while_split is_ws (rev (drop_while is_ws s))) as [z Hz].
  exists a, (rev z). rewrite <- rev_app_distr, <- Hz, rev_involutive. exact Ha.
Qed.

Lemma trim_tight (s : jsstring) : tight (trim s).
Proof.
  unfold tight, trim. rewrite rev_involutive, drop_while_idem. split; [|reflexivity].
  destruct (drop_while_split is_ws (rev (drop_while is_ws s))) as [z Hz].
  apply (f_equal (@rev N)) in Hz. rewrite rev_involutive, rev_app_distr in Hz.
  destruct (rev (drop_while is_ws (rev (drop_while is_ws s)))) as [|d x] eqn:E;
    [reflexivity|].
  cbn [drop_while]. rewrite (drop_while_head is_ws s d (x ++ rev z)); [reflexivity|].
  exact Hz.
Qed.

Lemma tight_trim (s : jsstring) : tight s -> trim s = s.
Proof. intros [H1 H2]. unfold trim. rewrite H1, H2. apply rev_involutive. Qed.

Lemma tight_nil : tight [].
Proof. split; reflexivity. Qed.

Lemma tight_cut (a b : jsstring) (w : char) :
  tight a -> tight b -> a <> [] -> b <> [] -> tight (a ++ w :: b).
Proof.
  intros [Ha _] [_ Hb] Na Nb. split.
  - destruct a as [|d x]; [congruence|].
    apply drop_while_fix. apply (drop_while_head is_ws (d :: x) d x Ha).
  - rewrite rev_app_distr. cbn [rev]. rewrite <- !app_assoc.
    destruct (rev b) as [|d x] eqn:E.
    + apply (f_equal (@rev N)) in E. rewrite rev_involutive in E. contradiction.
    + apply drop_while_fix. apply (drop_while_head is_ws (d :: x) d x Hb).
Qed.

Lemma tight_join (ls : list jsstring) :
  (forall l, In l ls -> tight l /\ l <> []) -> tight (join [NL] ls).
Proof.
  induction ls as [|x ls IH]; intros H; [apply tight_nil|].
  destruct ls as [|y ls]; [apply H; left; reflexivity|].
  rewrite join_cons by discriminate. cbn [app].
  destruct (H x (or_introl eq_refl)) as [Tx Nx].
  apply tight_cut; try assumption.
  - apply IH. intros l Hl. apply H. right. exact Hl.
  - apply join_nonempty with (a := y); [left; reflexivity|].
    apply H. right. left. reflexivity.
Qed.

(** ** Splitting in lines *)

Lemma split_nl_head (t h : jsstring) (r : list jsstring) :
  split_nl t = h :: r -> ~ In NL h /\ exists b, t = h ++ b.
Proof.
  revert h r; induction t as [|c t IH]; intros h r; cbn [split_nl].
  - intros H. injection H as <- _. split; [intros []|exists []; reflexivity].
  - destruct (N.eqb_spec c NL) as [->|Hc].
    + intros H. injection H as <- _. split; [intros []|eexists; reflexivity].
    + destruct (split_nl t) as [|h' r'] eqn:E.
      * intros H. injection H as <- _. destruct (split_nl_not_nil t E).
      * intros H. injection H as <- _. destruct (IH h' r' eq_refl) as [N [b B]].
        split; [|exists b; cbn [app]; congruence].
        intros [?|?]; [congruence | contradiction].
Qed.

Lemma split_nl_In (c x : jsstring) :
  In x (split_nl c) -> ~ In NL x /\ exists a b, c = a ++ x ++ b.
Proof.
  revert x; induction c as [|ch t IH]; intros x; cbn [split_nl].
  - intros [<-|[]]. split; [intros []|exists [], []; reflexivity].
  - destruct (N.eqb_spec ch NL) as [->|Hc].
    + intros [<-|H].
      * split; [intros []|exists [], (NL :: t); reflexivity].
      * destruct (IH x H) as [N (a & b & E)]. split; [exact N|].
        exists (NL :: a), b. cbn [app]. congruence.
    + destruct (split_nl t) as [|h r] eqn:E; [destruct (split_nl_not_nil t E)|].
      intros [<-|H].
      * destruct (split_nl_head t h r E) as [N [b B]]. split.
        -- intros [?|?]; [congruence | contradiction].
        -- exists [], b. cbn [app]. congruence.
      * destruct (IH x (or_intror H)) as [N (a & b & B)]. split; [exact N|].
        exists (ch :: a), b. cbn [app]. congruence.
Qed.

Lemma split_nl_plain (x : jsstring) : ~ In NL x -> split_nl x = [x].
Proof.
  induction x as [|c x IH]; [reflexivity|]. intros H. cbn [split_nl].
  destruct (N.eqb_spec c NL) as [->|Hc]; [destruct H; left; reflexivity|].
  rewrite IH; [reflexivity|]. intros I. apply H. right. exact I.
Qed.

Lemma split_nl_cut (x rest : jsstring) :
  ~ In NL x -> split_nl (x ++ NL :: rest) = x :: split_nl rest.
Proof.
  induction x as [|c x IH]; intros H; cbn [app split_nl].
  - rewrite N.eqb_refl. reflexivity.
  - destruct (N.eqb_spec c NL) as [->|Hc]; [destruct H; left; reflexivity|].
    rewrite IH; [reflexivity|]. intros I. apply H. right. exact I.
Qed.

Lemma split_nl_join (ls : list jsstring) :
  ls <> [] -> (forall l, In l ls -> ~ In NL l) -> split_nl (join [NL] ls) = ls.
Proof.
  induction ls as [|x ls IH]; [congruence|]. intros _ H.
  destruct ls as [|y ls].
  - apply split_nl_plain, H. left; reflexivity.
  - rewrite join_cons by discriminate. cbn [app].
    rewrite split_nl_cut by (apply H; left; reflexivity).
    rewrite IH; [reflexivity | discriminate|]. intros l Hl. apply H. right. exact Hl.
Qed.

(** ** The sanitiser and the lines *)

Lemma sanitize_allowed (raw : jsstring) : all_allowed (sanitize raw).
Proof.
  intros x Hx. unfold sanitize in Hx.
  destruct (trim_split (replace newlinesRegex [NL; NL]
             (replace spacesRegex [SP] (replace tabRegex [SP]
                (replace notAllowedRegex [] raw))))) as (a & b & E).
  assert (H4 : In x (replace newlinesRegex [NL; NL]
             (replace spacesRegex [SP] (replace tabRegex [SP]
                (replace notAllowedRegex [] raw))))).
  { rewrite E. apply in_or_app. right. apply in_or_app. left. exact Hx. }
  clear E Hx. unfold replace in H4.
  apply replace_from_chars in H4. destruct H4 as [H3|H]; [|destruct H as [<-|[<-|[]]]; reflexivity].
  apply replace_from_chars in H3. destruct H3 as [H2|H]; [|destruct H as [<-|[]]; reflexivity].
  apply replace_from_chars in H2. destruct H2 as [H1|H]; [|destruct H as [<-|[]]; reflexivity].
  unfold notAllowedRegex in H1. rewrite replace_chr_nil in H1.
  apply filter_In in H1. destruct H1 as [_ H1].
  rewrite negb_involutive in H1. exact H1.
Qed.

Lemma sanitize_no_double_space (raw : jsstring) : no_run 2 sp (sanitize raw) = true.
Proof.
  unfold sanitize.
  set (s2 := replace tabRegex [SP] (replace notAllowedRegex [] raw)).
  destruct (trim_split (replace newlinesRegex [NL; NL] (replace spacesRegex [SP] s2)))
    as (a & b & E).
  apply (no_run_part 2 sp a _ b). rewrite <- E. unfold replace at 1.
  apply (collapse_newlines_inv _ _ (Nat.le_refl _)).
  apply (collapse_spaces_inv _ _ (Nat.le_refl _)).
Qed.

Lemma split_lines_In (c l : jsstring) :
  In l (split_lines c) ->
  l <> [] /\ tight l /\ ~ In NL l /\ exists a b, c = a ++ l ++ b.
Proof.
  unfold split_lines. rewrite filter_In, in_map_iff.
  intros [(x & <- & Hx) Hn]. destruct (split_nl_In c x Hx) as [N (a & b & E)].
  destruct (trim_split x) as (a' & b' & E').
  split; [|split; [apply trim_tight|split]].
  - intros Z. rewrite Z in Hn. discriminate Hn.
  - intros I. apply N. rewrite E'. apply in_or_app. right. apply in_or_app. left. exact I.
  - exists (a ++ a'), (b' ++ b). rewrite E at 1. rewrite E' at 1.
    rewrite <- !app_assoc. reflexivity.
Qed.

Lemma sanitized_lines (raw l : jsstring) :
  In l (split_lines (sanitize raw)) -> clean_text_line l.
Proof.
  intros H. destruct (split_lines_In _ _ H) as (Hn & Ht & Hnl & a & b & E).
  repeat (split; [assumption|]). split.
  - intros x Hx. apply (sanitize_allowed raw). rewrite E.
    apply in_or_app. right. apply in_or_app. left. exact Hx.
  - apply (no_run_part 2 sp a l b). rewrite <- E. apply sanitize_no_double_space.
Qed.

Lemma join_In (sep : jsstring) (ls : list jsstring) (x : char) :
  In x (join sep ls) -> In x sep \/ exists l, In l ls /\ In x l.
Proof.
  induction ls as [|y ls IH]; [intros []|].
  destruct ls as [|z ls].
  - cbn [join]. intros H. right. exists y. split; [left; reflexivity | exact H].
  - rewrite join_cons by discriminate. intros H.
    apply in_app_or in H. destruct H as [H|H].
    + right. exists y. split; [left; reflexivity | exact H].
    + apply in_app_or in H. destruct H as [H|H]; [left; exact H|].
      destruct (IH H) as [?|(l & Hl & Hx)]; [left; assumption|].
      right. exists l. split; [right; exact Hl | exact Hx].
Qed.

Lemma existsb_none {A} (p : A -> bool) (s : list A) :
  (forall x, In x s -> p x = false) -> existsb p s = false.
Proof.
  intros H. destruct (existsb p s) eqn:E; [|reflexivity].
  apply existsb_exists in E. destruct E as (x & Hx & Px).
  rewrite (H x Hx) in Px. discriminate Px.
Qed.

Lemma no_nl_forallb (x : jsstring) :
  ~ In NL x -> forallb (fun c => negb (nl c)) x = true.
Proof.
  intros H. apply forallb_forall. intros c Hc. apply negb_true_iff.
  unfold nl. apply N.eqb_neq. intros <-. contradiction.
Qed.

Lemma no_run_after_none (n : nat) (p : char -> bool) (x s : jsstring) :
  0 < n -> forallb (fun c => negb (p c)) x = true ->
  no_run n p s = true -> no_run n p (x ++ s) = true.
Proof.
  intros Hn Hx Hs. induction x as [|c x IH]; [exact Hs|].
  cbn [forallb] in Hx. apply andb_true_iff in Hx. destruct Hx as [Hc Hx].
  apply negb_true_iff in Hc. cbn [app no_run run]. rewrite Hc, (IH Hx).
  apply andb_true_iff. split; [apply Nat.ltb_lt; exact Hn | reflexivity].
Qed.

Section Formatted.
Variable ls : list jsstring.
Hypothesis Hls : forall l, In l ls -> clean_text_line l.

Lemma join_allowed : all_allowed (join [NL] ls).
Proof.
  intros x Hx. apply join_In in Hx. destruct Hx as [[<-|[]]|(l & Hl & Hx)];
    [reflexivity|]. apply (Hls l Hl). exact Hx.
Qed.

Lemma join_no_double_space : no_run 2 sp (join [NL] ls) = true.
Proof.
  induction ls as [|x l IH]; [reflexivity|].
  destruct l as [|y l]; [apply Hls; left; reflexivity|].
  rewrite join_cons by discriminate. cbn [app].
  apply no_run_cut; [lia | reflexivity | apply Hls; left; reflexivity|].
  apply IH. intros z Hz. apply Hls. right. exact Hz.
Qed.

Lemma join_single_newlines :
  no_run 2 nl (join [NL] ls) = true /\ run nl (join [NL] ls) = 0.
Proof.
  induction ls as [|x l IH]; [split; reflexivity|].
  destruct (Hls x (or_introl eq_refl)) as (Nx & _ & Lx & _).
  assert (R : forall s, run nl (x ++ s) = 0).
  { intros s. destruct x as [|d x']; [congruence|]. cbn [app run].
    replace (nl d) with false; [reflexivity|]. symmetry. unfold nl.
    apply N.eqb_neq. intros <-. apply Lx. left. reflexivity. }
  destruct l as [|y l].
  - cbn [join]. split; [|rewrite <- (app_nil_r x); apply R].
    apply no_run_none; [lia | apply no_nl_forallb, Lx].
  - rewrite join_cons by discriminate. split; [|apply R].
    destruct IH as [A B]; [intros z Hz; apply Hls; right; exact Hz|].
    apply no_run_after_none; [lia | apply no_nl_forallb, Lx|].
    cbn [app no_run run]. change (nl NL) with true. cbv iota. rewrite B, A.
    reflexivity.
Qed.

Lemma join_tight : tight (join [NL] ls).
Proof. apply tight_join. intros l Hl. destruct (Hls l Hl) as (? & ? & _). tauto. Qed.

(** The sanitiser leaves the joined lines of a sanitised text as they
    are, and splitting them gives the same lines. *)
Lemma sanitize_join : sanitize (join [NL] ls) = join [NL] ls.
Proof.
  unfold sanitize, replace.
  rewrite (replace_no_match notAllowedRegex).
  2:{ unfold notAllowedRegex. rewrite test_from_chr. apply existsb_none.
      intros x Hx. rewrite (join_allowed x Hx). reflexivity. }
  rewrite (replace_no_match tabRegex).
  2:{ unfold tabRegex. rewrite test_from_chr. apply existsb_none.
      intros x Hx. apply N.eqb_neq. intros <-.
      pose proof (join_allowed _ Hx) as A. discriminate A. }
  rewrite (replace_no_match spacesRegex).
  2:{ unfold spacesRegex. rewrite test_from_many by lia. fold sp.
      rewrite join_no_double_space. reflexivity. }
  rewrite (replace_no_match newlinesRegex).
  2:{ unfold newlinesRegex. rewrite test_from_many by lia. fold nl.
      rewrite (no_run_mono 2 3 nl _ (Nat.le_succ_diag_r 2) (proj1 join_single_newlines)).
      reflexivity. }
  apply tight_trim, join_tight.
Qed.

Lemma split_lines_join : split_lines (join [NL] ls) = ls.
Proof.
  destruct ls as [|x l] eqn:E; [reflexivity|]. rewrite <- E in *.
  unfold split_lines. rewrite split_nl_join.
  - assert (M : map trim ls = ls).
    { rewrite <- (map_id ls) at 2. apply map_ext_in. intros a Ha.
      apply tight_trim. apply (Hls a Ha). }
    rewrite M. apply forallb_filter_id. apply forallb_forall. intros a Ha.
    destruct (Hls a Ha) as [Na _]. destruct a; [congruence | reflexivity].
  - rewrite E. discriminate.
  - intros a Ha. apply (Hls a Ha).
Qed.

End Formatted.

(** ** The field parser: shape of the result *)

(** C9: each of the six fields that [parseOcrText] returns is [null] or
    a string of at least one code unit; none is the empty string. *)
Theorem parseOcrText_fields_null_or_nonempty (raw : option jsstring) :
  let p := parseOcrText raw in
  null_or_nonempty (ocr_text p) /\
  null_or_nonempty (ocr_address p) /\
  null_or_nonempty (ocr_contact_number p) /\
  null_or_nonempty (ocr_email p) /\
  null_or_nonempty (ocr_url p) /\
  null_or_nonempty (other_text p).
Proof.
  destruct raw as [[|c raw]|]; cbv zeta; cbv beta iota delta [parseOcrText];
    cbn [ocr_text ocr_address ocr_contact_number ocr_email ocr_url other_text
         parsed_null null_or_nonempty]; try tauto.
  repeat (apply conj; [apply or_null_spec|]). apply or_null_spec.
Qed.

Lemma test_digit_nonempty (l : jsstring) : test digitRegex l = true -> l <> [].
Proof. intros H E. subst l. discriminate H. Qed.

Lemma address_line_nonempty (l : jsstring) : is_address_line l = true -> l <> [].
Proof.
  unfold is_address_line. rewrite andb_true_iff. intros [_ H].
  apply test_digit_nonempty. assumption.
Qed.

(** C10: address lines are not deduplicated.  When the same qualifying
    line stands on two lines of the cleaned text, [ocr_address] holds it
    twice, among the other address lines in the order of the text;
    phone numbers, emails and URLs go through a set and are listed
    once. *)
Theorem address_lines_not_deduplicated
  (raw a : jsstring) (l1 l2 l3 : list jsstring) :
  raw <> [] ->
  split_lines (sanitize raw) = l1 ++ a :: l2 ++ a :: l3 ->
  is_address_line a = true ->
  ocr_address (parseOcrText (Some raw)) =
    Some (join bar (filter is_address_line l1 ++
                    a :: filter is_address_line l2 ++
                    a :: filter is_address_line l3))
  /\ NoDup (dedupe (find_phones (sanitize raw)))
  /\ NoDup (dedupe (find_emails (sanitize raw)))
  /\ NoDup (dedupe (find_urls (sanitize raw))).
Proof.
  intros Hraw Hl Ha. split; [|auto using dedupe_NoDup].
  destruct raw as [|c raw]; [congruence|].
  unfold parseOcrText. cbv zeta. cbn [ocr_address].
  rewrite Hl. rewrite !filter_app. cbn [filter]. rewrite !filter_app.
  cbn [filter]. rewrite Ha.
  apply or_null_some. apply join_nonempty with (a := a).
  - apply in_or_app. right. left. reflexivity.
  - apply address_line_nonempty. assumption.
Qed.

Lemma address_lines_not_deduplicated_witness :
  ocr_address (parseOcrText (Some twice_text)) =
    Some (of_string "12 Main Road | 12 Main Road").
Proof.
  destruct (@address_lines_not_deduplicated twice_text
             (of_string "12 Main Road") [] [of_string "Menu"] []) as [H _].
  - discriminate.
  - vm_compute. reflexivity.
  - vm_compute. reflexivity.
  - rewrite H. vm_compute. reflexivity.
Defined.

(** ** The field parser: the leftover text *)

(** C1 at [road_text]: the first line is an address line and goes to
    [ocr_address]; the second is not one, it passes the filter on pure
    lines, and stripping its inline phone number leaves exactly the
    first line, which ends up in [other_text]. *)
Theorem stripped_line_repeats_address_line :
  let p := parseOcrText (Some road_text) in
  split_lines (sanitize road_text) = [of_string "Road 5"; of_string "Road9876543210 5"] /\
  is_address_line (of_string "Road 5") = true /\
  is_address_line (of_string "Road9876543210 5") = false /\
  strip_inline (of_string "Road9876543210 5") = of_string "Road 5" /\
  ocr_address p = Some (of_string "Road 5") /\
  other_text p = Some (of_string "Road 5") /\
  In (of_string "Road 5") (lines_of (other_text p)).
Proof. vm_compute. repeat split; try reflexivity. left; reflexivity. Qed.

(** What the filter on pure lines does ensure: a line of [otherLines] is
    the stripped form of a line of the text that is itself, before
    stripping, no address line, no email and no URL. *)
Lemma other_lines_origin
  (lines addressLines emails urls : list jsstring) (x : jsstring) :
  In x (other_lines lines addressLines emails urls) ->
  exists l,
    In l lines /\ x = strip_inline l /\ 1 < length x /\
    ~ In (trim l) (map trim addressLines) /\
    ~ In (trim l) (map trim emails) /\
    ~ In (trim l) (map trim urls).
Proof.
  unfold other_lines. rewrite filter_In, in_map_iff.
  intros [(l & <- & Hl) Hlen]. apply filter_In in Hl. destruct Hl as [Hl Hk].
  exists l. split; [exact Hl|]. split; [reflexivity|].
  split; [apply Nat.ltb_lt; exact Hlen|].
  unfold keep_line in Hk.
  destruct (set_has (map trim addressLines) (trim l)) eqn:A; [discriminate|].
  destruct (set_has (map trim emails) (trim l)) eqn:B; [discriminate|].
  destruct (set_has (map trim urls) (trim l)) eqn:C; [discriminate|].
  rewrite <- !set_has_In, A, B, C. repeat split; discriminate.
Qed.

(** ** The field parser: parsing again, and text without matches *)

Lemma parseOcrText_some (raw : jsstring) :
  raw <> [] ->
  parseOcrText (Some raw) =
    let cleaned := sanitize raw in
    let lines := split_lines cleaned in
    let addressLines := filter is_address_line lines in
    mkParsed
      (or_null (join [NL] lines))
      (or_null (join bar addressLines))
      (or_null (join comma (dedupe (find_phones cleaned))))
      (or_null (join comma (dedupe (find_emails cleaned))))
      (or_null (join comma (dedupe (find_urls cleaned))))
      (or_null (trim (join [NL]
         (other_lines lines addressLines (find_emails cleaned) (find_urls cleaned))))).
Proof. destruct raw; [congruence | reflexivity]. Qed.

Lemma find_emails_formatted (c : jsstring) :
  find_emails (join [NL] (split_lines c)) = find_emails c.
Proof. apply match_all_formatted, emailRegex_word_local. Qed.

Lemma find_urls_formatted (c : jsstring) :
  find_urls (join [NL] (split_lines c)) = find_urls c.
Proof. apply match_all_formatted, urlRegex_word_local. Qed.

(** C6, as the code has it: parsing the [ocr_text] of a first parse
    gives the same [ocr_text], [ocr_address], [ocr_email], [ocr_url] and
    [other_text] as the first parse.  (The phone numbers are matched on
    the text before it is split in lines, where [\s] can stand for the
    white space around a line break, and are not in this list.) *)
Theorem parse_again_keeps_all_but_phones (raw : option jsstring) :
  let p := parseOcrText raw in
  let p' := parseOcrText (ocr_text p) in
  ocr_text p' = ocr_text p /\
  ocr_address p' = ocr_address p /\
  ocr_email p' = ocr_email p /\
  ocr_url p' = ocr_url p /\
  other_text p' = other_text p.
Proof.
  destruct raw as [[|c r]|]; cbv zeta; try (repeat split; reflexivity).
  rewrite (parseOcrText_some (c :: r)) by discriminate. cbv zeta.
  cbn [ocr_text ocr_address ocr_email ocr_url other_text].
  set (cleaned := sanitize (c :: r)).
  pose proof (sanitized_lines (c :: r)) as Hls. fold cleaned in Hls.
  set (lines := split_lines cleaned) in *.
  rewrite <- (find_emails_formatted cleaned), <- (find_urls_formatted cleaned).
  fold lines.
  destruct (join [NL] lines) as [|d f] eqn:F.
  - assert (L : lines = []).
    { destruct lines as [|l ls] eqn:E; [reflexivity|]. exfalso.
      apply (join_nonempty [NL] (l :: ls) l (or_introl eq_refl)); [|exact F].
      apply (Hls l). left. reflexivity. }
    rewrite L. repeat split; reflexivity.
  - change (parseOcrText (or_null (d :: f))) with (parseOcrText (Some (d :: f))).
    rewrite (parseOcrText_some (d :: f)) by discriminate. cbv zeta.
    cbn [ocr_text ocr_address ocr_email ocr_url other_text].
    rewrite <- F. rewrite (sanitize_join lines Hls), (split_lines_join lines Hls).
    repeat split; reflexivity.
Qed.

(** C6, as the spec has it, fails on the phone numbers: in
    [split_phone_text] the first line ends with a space, so the first
    parse finds the number of the second line alone; in its [ocr_text]
    the two lines are one line feed apart and the second parse reads
    them as one number with a country code. *)
Lemma parse_again_changes_phone :
  let p := parseOcrText (Some split_phone_text) in
  let p' := parseOcrText (ocr_text p) in
  ocr_text p = Some (txt ["91"; "9876543210"]%string) /\
  ocr_contact_number p = Some (of_string "9876543210") /\
  ocr_contact_number p' = Some (of_string "91 9876543210") /\
  ocr_contact_number p' <> ocr_contact_number p.
Proof. vm_compute. repeat split; try reflexivity. discriminate. Qed.

Lemma filter_none {A} (p : A -> bool) (l : list A) :
  (forall x, In x l -> p x = false) -> filter p l = [].
Proof.
  induction l as [|x l IH]; intros H; [reflexivity|]. cbn [filter].
  rewrite (H x (or_introl eq_refl)). apply IH. intros y Hy. apply H. right. exact Hy.
Qed.

Lemma filter_all {A} (p : A -> bool) (l : list A) :
  (forall x, In x l -> p x = true) -> filter p l = l.
Proof.
  intros H. apply forallb_filter_id. apply forallb_forall. exact H.
Qed.

(** A line of a sanitised text in which no phone number, email or URL
    matches is left as it is by the inline stripping. *)
Lemma strip_inline_no_match (c l : jsstring) :
  no_run 2 sp c = true ->
  test phoneRegex c = false -> test emailRegex c = false -> test urlRegex c = false ->
  In l (split_lines c) -> strip_inline l = l.
Proof.
  intros Hsp Hp He Hu Hl.
  destruct (split_lines_In c l Hl) as (_ & Ht & _ & a & b & E).
  rewrite E in Hp, He, Hu, Hsp.
  unfold strip_inline, replace.
  rewrite (replace_no_match phoneRegex)
    by (apply (test_part phoneRegex a l b phoneRegex_no_wordb Hp)).
  rewrite (replace_no_match emailRegex)
    by (apply (test_part emailRegex a l b (proj1 emailRegex_word_local) He)).
  rewrite (replace_no_match urlRegex)
    by (apply (test_part urlRegex a l b (proj1 urlRegex_word_local) Hu)).
  rewrite (replace_no_match spacesRegex).
  - apply tight_trim, Ht.
  - unfold spacesRegex. rewrite test_from_many by lia. fold sp.
    rewrite (no_run_part 2 sp a l b Hsp). reflexivity.
Qed.

(** C7, as the code has it: when no phone number, email or URL matches
    in the sanitised text and none of its lines is an address line, the
    four extracted fields are null, [ocr_text] is the lines of the text
    (not null if there is one), and [other_text] is [ocr_text] without
    its lines of a single code unit; the two are equal when every line
    has at least two code units. *)
Theorem no_match_text_goes_to_other_text (raw : jsstring) :
  let c := sanitize raw in
  let p := parseOcrText (Some raw) in
  test phoneRegex c = false ->
  test emailRegex c = false ->
  test urlRegex c = false ->
  (forall l, In l (split_lines c) -> is_address_line l = false) ->
  ocr_address p = None /\
  ocr_contact_number p = None /\
  ocr_email p = None /\
  ocr_url p = None /\
  ocr_text p = or_null (join [NL] (split_lines c)) /\
  other_text p =
    or_null (join [NL] (filter (fun l => Nat.ltb 1 (length l)) (split_lines c))) /\
  (split_lines c <> [] -> ocr_text p <> None) /\
  ((forall l, In l (split_lines c) -> 2 <= length l) -> other_text p = ocr_text p).
Proof.
  cbv zeta. destruct raw as [|ch r].
  { intros _ _ _ _. vm_compute. repeat split; try reflexivity; intros; congruence. }
  rewrite (parseOcrText_some (ch :: r)) by discriminate. cbv zeta.
  cbn [ocr_text ocr_address ocr_contact_number ocr_email ocr_url other_text].
  pose proof (sanitized_lines (ch :: r)) as Hls.
  pose proof (sanitize_no_double_space (ch :: r)) as Hsp.
  set (c := sanitize (ch :: r)) in *.
  intros Hp He Hu Ha.
  unfold find_phones, find_emails, find_urls, match_all.
  rewrite (match_all_no_match phoneRegex c None Hp),
          (match_all_no_match emailRegex c None He),
          (match_all_no_match urlRegex c None Hu).
  rewrite (filter_none is_address_line (split_lines c) Ha).
  assert (O : other_lines (split_lines c) [] [] [] =
              filter (fun l => Nat.ltb 1 (length l)) (split_lines c)).
  { unfold other_lines. f_equal. cbn [map].
    rewrite filter_all by reflexivity.
    rewrite <- (map_id (split_lines c)) at 2. apply map_ext_in.
    intros l Hl. apply (strip_inline_no_match c l Hsp Hp He Hu Hl). }
  rewrite O.
  assert (T : trim (join [NL] (filter (fun l => Nat.ltb 1 (length l)) (split_lines c)))
              = join [NL] (filter (fun l => Nat.ltb 1 (length l)) (split_lines c))).
  { apply tight_trim, tight_join. intros l Hl. apply filter_In in Hl.
    destruct (Hls l (proj1 Hl)) as (? & ? & _). tauto. }
  rewrite T.
  repeat (split; [reflexivity|]). split.
  - intros N. destruct (split_lines c) as [|l ls] eqn:E; [congruence|].
    rewrite or_null_some; [discriminate|].
    apply (join_nonempty [NL] (l :: ls) l (or_introl eq_refl)).
    apply (Hls l). left. reflexivity.
  - intros H2. rewrite filter_all; [reflexivity|].
    intros l Hl. apply Nat.ltb_lt. apply (H2 l Hl).
Qed.

Lemma no_match_text_goes_to_other_text_witness :
  other_text (parseOcrText (Some (txt ["Fresh juice"; "a"; "Open daily"]%string)))
    = Some (txt ["Fresh juice"; "Open daily"]%string).
Proof.
  destruct (no_match_text_goes_to_other_text (txt ["Fresh juice"; "a"; "Open daily"]%string))
    as (_ & _ & _ & _ & _ & H & _).
  - vm_compute. reflexivity.
  - vm_compute. reflexivity.
  - vm_compute. reflexivity.
  - intros l. vm_compute. intros [<-|[<-|[<-|[]]]]; reflexivity.
  - rewrite H. vm_compute. reflexivity.
Defined.

(** C7, as the spec has it, fails: nothing matches in [letter_text],
    [ocr_text] is the letter, and [other_text] is null, because a line
    of one code unit is left out of it.  Nothing matches in
    [tilde_text] either, and there [ocr_text] is null, because the
    sanitiser leaves no line. *)
Lemma single_letter_not_in_other_text :
  (let c := sanitize letter_text in
   let p := parseOcrText (Some letter_text) in
   test phoneRegex c = false /\ test emailRegex c = false /\
   test urlRegex c = false /\
   filter is_address_line (split_lines c) = [] /\
   ocr_text p = Some (of_string "a") /\
   other_text p = None /\
   other_text p <> ocr_text p) /\
  (let c := sanitize tilde_text in
   let p := parseOcrText (Some tilde_text) in
   test phoneRegex c = false /\ test emailRegex c = false /\
   test urlRegex c = false /\
   filter is_address_line (split_lines c) = [] /\
   ocr_text p = None).
Proof. vm_compute. repeat split; try reflexivity. discriminate. Qed.

(** ** The transcript cleaner *)

Lemma good_word_text (x : word) : good_word x = true -> blank (text x) = false.
Proof.
  unfold good_word. rewrite andb_true_iff. intros [_ H].
  destruct (blank (text x)) eqn:E; [|reflexivity].
  apply trim_nil_iff in E. rewrite E in H. discriminate H.
Qed.

Lemma filter_head_holds {A} (p : A -> bool) (l : list A) (x : A) (t : list A) :
  filter p l = x :: t -> p x = true.
Proof.
  intros H. assert (I : In x (filter p l)) by (rewrite H; left; reflexivity).
  apply filter_In in I. tauto.
Qed.

(** C5, as the code has it: a line of five tokens of which exactly two
    pass the filter (confidence at least 45, text not blank) is kept.
    The cleaned transcript of a page made of that line is the two
    surviving tokens joined by one space, and it is not empty: two of
    five is a keep ratio of 0.4, which is not under 0.4. *)
Theorem two_of_five_tokens_are_kept
  (ws : list word) (a b : word) (t : option jsstring) (wd : option (list word)) :
  length ws = 5 ->
  filter good_word ws = [a; b] ->
  buildCleanText (mkPage t (Some [mkLine (Some ws)]) wd)
    = trim (text a ++ [SP] ++ text b)
  /\ trim (text a ++ [SP] ++ text b) <> [].
Proof.
  intros Hlen Hgood.
  assert (Ha : blank (text a) = false).
  { apply good_word_text. apply (filter_head_holds _ _ _ _ Hgood). }
  assert (Hne : trim (text a ++ [SP] ++ text b) <> []).
  { intros E. apply trim_nil_iff in E. rewrite blank_app, Ha in E. discriminate E. }
  split; [|exact Hne].
  unfold buildCleanText. cbn [data_lines clean_lines clean_line words].
  destruct ws as [|w0 ws']; [discriminate Hlen|].
  rewrite Hgood. rewrite Hlen. cbn [length map join].
  change (Qltb (ratio 2 5) (4 # 10)%Q) with false. cbv iota.
  destruct (trim (text a ++ [SP] ++ text b)) eqn:E; [congruence|].
  reflexivity.
Qed.

Lemma two_of_five_tokens_are_kept_witness :
  buildCleanText five_page = of_string "dd ee".
Proof.
  destruct (@two_of_five_tokens_are_kept five_words (tok "dd" 90) (tok "ee" 90)
              (Some (of_string "aa bb cc dd ee")) (Some five_words)) as [H _].
  - reflexivity.
  - vm_compute. reflexivity.
  - unfold five_page. rewrite H. vm_compute. reflexivity.
Defined.

(** C5, as the spec has it, fails: three of the five tokens of
    [five_words] are under the floor of 45, and the line is not dropped;
    its two other tokens make the transcript. *)
Lemma three_of_five_low_not_dropped :
  length five_words = 5 /\
  length (filter (fun x => Qltb (confidence x) MIN_CONF) five_words) = 3 /\
  length (filter good_word five_words) = 2 /\
  clean_line (mkLine (Some five_words)) = Some (of_string "dd ee") /\
  buildCleanText five_page = of_string "dd ee".
Proof. vm_compute. repeat split; reflexivity. Qed.

(** ** The strategy selector *)

Lemma sort_snoc (cmp : scored -> scored -> Q) (l : list scored) (x : scored) :
  sort cmp (l ++ [x]) = insert_sorted cmp x (sort cmp l).
Proof. unfold sort. rewrite fold_left_app. reflexivity. Qed.

Lemma by_score_desc_le (y x : scored) :
  Qle_bool (by_score_desc y x) (0 # 1) = true <-> (score x <= score y)%Q.
Proof.
  rewrite Qle_bool_iff. unfold by_score_desc. split; intros H; lra.
Qed.

(** The head of the sorted array is the first element of the array that
    no other element beats. *)
Lemma sort_head (l : list scored) :
  l <> [] ->
  exists l1 b l2 rest,
    l = l1 ++ b :: l2 /\
    sort by_score_desc l = b :: rest /\
    Forall (fun x => (score x < score b)%Q) l1 /\
    Forall (fun x => (score x <= score b)%Q) l2.
Proof.
  induction l as [|x l IH] using rev_ind; [congruence|]. intros _.
  rewrite sort_snoc. destruct l as [|y l'].
  - exists [], x, [], []. repeat split; constructor.
  - destruct IH as (l1 & b & l2 & rest & El & Es & H1 & H2); [discriminate|].
    rewrite Es. cbn [insert_sorted].
    destruct (Qle_bool (by_score_desc b x) (0 # 1)) eqn:C.
    + apply by_score_desc_le in C.
      exists l1, b, (l2 ++ [x]), (insert_sorted by_score_desc x rest).
      rewrite El. repeat split.
      * rewrite <- app_assoc. reflexivity.
      * assumption.
      * apply Forall_app. split; [assumption|]. constructor; [assumption|constructor].
    + assert (Hlt : (score b < score x)%Q).
      { apply Qnot_le_lt. intros H. apply by_score_desc_le in H. congruence. }
      exists (y :: l'), x, [], (b :: rest). repeat split; [|constructor].
      rewrite El. apply Forall_app. split.
      * eapply Forall_impl; [|exact H1]. cbv beta. intros z Hz. lra.
      * constructor; [assumption|].
        eapply Forall_impl; [|exact H2]. cbv beta. intros z Hz. lra.
Qed.

(** C4: the selector picks a result of highest score, and among the
    results that tie on it the one declared first: every result before
    the pick scores strictly less, every result after it at most as
    much.  With scores 62.0, 71.5, 71.5 in declaration order the pick is
    the second strategy. *)
Theorem select_best_first_of_highest :
  (forall (x : scored) (l : list scored),
     exists l1 b l2,
       x :: l = l1 ++ b :: l2 /\
       select_best (x :: l) = Some b /\
       Forall (fun y => (score y < score b)%Q) l1 /\
       Forall (fun y => (score y <= score b)%Q) l2)
  /\ map score tie_scored = [(62 # 1)%Q; (143 # 2)%Q; (143 # 2)%Q]
  /\ map name tie_scored = strategies
  /\ option_map name (select_best tie_scored) = Some "clean-bw"%string.
Proof.
  split; [|vm_compute; repeat split; reflexivity].
  intros x l.
  destruct (@sort_head (x :: l)) as (l1 & b & l2 & rest & El & Es & H1 & H2);
    [discriminate|].
  exists l1, b, l2. unfold select_best. rewrite Es. auto.
Qed.

(** ** The entry point *)

Section ExtractFacts.
Variable e : env.

Lemma values_preprocess (l : list nat) :
  (forallb (fun i => match toFile e i with Resolved _ => true | _ => false end) l = true ->
   values (map (preprocess e) l) = Return (map (fun _ => tt) l))
  /\
  (forallb (fun i => match toFile e i with Resolved _ => true | _ => false end) l = false ->
   exists err, values (map (preprocess e) l) = Throw err).
Proof.
  induction l as [|i l [Hok Hko]]; cbn [map values forallb].
  - split; [reflexivity | discriminate].
  - unfold preprocess at 1 3. cbn [settles].
    destruct (toFile e i) as [[]|err]; cbn [andb].
    + split; intros H.
      * rewrite (Hok H). reflexivity.
      * destruct (Hko H) as [err E]. rewrite E. eexists; reflexivity.
    + split; [discriminate|]. intros _. eexists; reflexivity.
Qed.

Lemma promise_all_preprocess (l : list nat) (fs : files) :
  (forallb (fun i => match toFile e i with Resolved _ => true | _ => false end) l = true ->
   exists fs', promise_all (map (preprocess e) l) fs = (Return (map (fun _ => tt) l), fs'))
  /\
  (forallb (fun i => match toFile e i with Resolved _ => true | _ => false end) l = false ->
   exists err fs', promise_all (map (preprocess e) l) fs = (Throw err, fs')).
Proof.
  unfold promise_all. destruct (values_preprocess l) as [Hok Hko]. split; intros H.
  - rewrite (Hok H). eexists; reflexivity.
  - destruct (Hko H) as [err E]. rewrite E. eexists _, _; reflexivity.
Qed.

(** A recognition writes no file. *)
Lemma recognize_no_write (l : list nat) (fs : files) :
  fold_left (fun fs p => landed p fs) (map (recognize e) l) fs = fs /\
  fold_left (fun fs p => if late p then fs else landed p fs) (map (recognize e) l) fs = fs.
Proof.
  revert fs; induction l as [|i l IH]; intros fs; cbn [map fold_left]; [split; reflexivity|].
  assert (L : landed (recognize e i) fs = fs).
  { unfold landed, recognize. cbn [settles writes]. destruct (recognize_tmp e i); reflexivity. }
  cbn [recognize late]. fold (recognize e i). rewrite L. apply IH.
Qed.

Lemma values_recognize (l : list nat) :
  (forallb (fun i => match recognize_tmp e i with Resolved _ => true | _ => false end) l = true ->
   values (map (recognize e) l) =
     Return (flat_map (fun i => match recognize_tmp e i with
                                | Resolved d => [d]
                                | Rejected _ => []
                                end) l))
  /\
  (forallb (fun i => match recognize_tmp e i with Resolved _ => true | _ => false end) l = false ->
   exists err, values (map (recognize e) l) = Throw err).
Proof.
  induction l as [|i l [Hok Hko]]; cbn [map values forallb flat_map].
  - split; [reflexivity | discriminate].
  - unfold recognize at 1 3. cbn [settles].
    destruct (recognize_tmp e i) as [d|err]; cbn [andb].
    + split; intros H.
      * rewrite (Hok H). reflexivity.
      * destruct (Hko H) as [err E]. rewrite E. eexists; reflexivity.
    + split; [discriminate|]. intros _. eexists; reflexivity.
Qed.

Lemma promise_all_recognize (l : list nat) (fs : files) :
  (forallb (fun i => match recognize_tmp e i with Resolved _ => true | _ => false end) l = true ->
   promise_all (map (recognize e) l) fs =
     (Return (flat_map (fun i => match recognize_tmp e i with
                                 | Resolved d => [d]
                                 | Rejected _ => []
                                 end) l), fs))
  /\
  (forallb (fun i => match recognize_tmp e i with Resolved _ => true | _ => false end) l = false ->
   exists err, promise_all (map (recognize e) l) fs = (Throw err, fs)).
Proof.
  unfold promise_all. destruct (values_recognize l) as [Hok Hko].
  destruct (recognize_no_write l fs) as [W1 W2]. split; intros H.
  - rewrite (Hok H), W1. reflexivity.
  - destruct (Hko H) as [err E]. rewrite E, W2. eexists; reflexivity.
Qed.

Lemma all_ok_split :
  all_ok e =
    forallb (fun i => match toFile e i with Resolved _ => true | _ => false end) tmp_indices
    && forallb (fun i => match recognize_tmp e i with Resolved _ => true | _ => false end) tmp_indices.
Proof.
  unfold all_ok, tmp_indices, strategy_ok. cbn [strategies length seq forallb].
  destruct (toFile e 0), (toFile e 1), (toFile e 2),
    (recognize_tmp e 0), (recognize_tmp e 1), (recognize_tmp e 2); reflexivity.
Qed.

Lemma scored_pages_best : all_ok e = true -> exists b, select_best (scored_pages e) = Some b.
Proof.
  unfold all_ok, tmp_indices, strategy_ok, scored_pages, pages, tmp_indices.
  cbn [strategies length seq forallb flat_map].
  destruct (toFile e 0), (toFile e 1), (toFile e 2),
    (recognize_tmp e 0) as [d0|], (recognize_tmp e 1) as [d1|], (recognize_tmp e 2) as [d2|];
    try discriminate.
  intros _. unfold strategies. cbn [app combine map fst snd].
  match goal with |- exists b, select_best (?x :: ?l) = Some b =>
    destruct (@sort_head (x :: l)) as (l1 & b & l2 & rest & _ & E & _);
      [discriminate|]
  end.
  exists b. unfold select_best. rewrite E. reflexivity.
Qed.

Lemma multi_pass_ok (fs : files) (best : scored) :
  all_ok e = true ->
  select_best (scored_pages e) = Some best ->
  exists fs', multi_pass e tmp_indices fs = (Return (multi_pass_value best), fs').
Proof.
  intros Hok Hbest. rewrite all_ok_split in Hok. apply andb_true_iff in Hok.
  destruct Hok as [Hp Hr]. unfold multi_pass, bind.
  destruct (proj1 (promise_all_preprocess tmp_indices fs) Hp) as [fs' E].
  rewrite E. rewrite (proj1 (promise_all_recognize tmp_indices fs') Hr).
  fold (pages e). fold (scored_pages e). rewrite Hbest.
  unfold multi_pass_value. cbv zeta.
  destruct (Nat.ltb _ 2); eexists; reflexivity.
Qed.

Lemma multi_pass_throws (fs : files) :
  all_ok e = false ->
  exists err fs', multi_pass e tmp_indices fs = (Throw err, fs').
Proof.
  intros Hko. rewrite all_ok_split in Hko. apply andb_false_iff in Hko.
  unfold multi_pass, bind.
  destruct (forallb (fun i => match toFile e i with Resolved _ => true | _ => false end) tmp_indices) eqn:Hp.
  - destruct Hko as [Hko|Hr]; [discriminate|].
    destruct (proj1 (promise_all_preprocess tmp_indices fs) Hp) as [fs' E].
    rewrite E. destruct (proj2 (promise_all_recognize tmp_indices fs') Hr) as [err E'].
    rewrite E'. eexists _, _; reflexivity.
  - destruct (proj2 (promise_all_preprocess tmp_indices fs) Hp) as (err & fs' & E).
    rewrite E. eexists _, _; reflexivity.
Qed.

Lemma fallback_returns (err : error) (fs : files) :
  fallback e err fs = (Return (fallback_result e), fs).
Proof.
  unfold fallback, fallback_result, fallback_text, try_catch, bind, await.
  destruct (recognize_image e) as [d|err']; [|reflexivity].
  unfold ret at 1. destruct (option_map trim (data_text d)) as [[|c t]|]; reflexivity.
Qed.

Lemma cleanup_returns (l : list nat) (fs : files) :
  exists fs', cleanup e l fs = (Return tt, fs').
Proof.
  revert fs; induction l as [|f l IH]; intros fs; cbn [cleanup for_each].
  - eexists; reflexivity.
  - unfold bind at 1. unfold bind at 1. unfold existsSync at 1.
    destruct (file_exists f fs).
    + unfold try_catch, unlinkSync. destruct (unlinkSync_ok e f); apply IH.
    + unfold ret at 1. apply IH.
Qed.

End ExtractFacts.

Lemma extract_run (e : env) (c : char) (p : jsstring) (fs : files) :
  existsSync_image e = true ->
  exists fs',
    extractTextFromImage e (Some (c :: p)) fs =
      (Return (if all_ok e
               then match select_best (scored_pages e) with
                    | Some best => multi_pass_value best
                    | None => empty
                    end
               else fallback_result e), fs').
Proof.
  intros Hex. unfold extractTextFromImage. rewrite Hex. cbn [negb].
  fold tmp_indices. unfold settled_after, try_finally, try_catch.
  destruct (all_ok e) eqn:Hok.
  - destruct (scored_pages_best e Hok) as [b Hb]. rewrite Hb.
    destruct (multi_pass_ok e fs b Hok Hb) as [fs1 E]. rewrite E.
    destruct (cleanup_returns e tmp_indices fs1) as [fs2 E2]. rewrite E2.
    eexists; reflexivity.
  - destruct (multi_pass_throws e fs Hok) as (err & fs1 & E). rewrite E.
    rewrite fallback_returns.
    destruct (cleanup_returns e tmp_indices fs1) as [fs2 E2]. rewrite E2.
    eexists; reflexivity.
Qed.

Lemma multi_pass_value_empty (best : scored) :
  multi_pass_value best = empty <->
  length (trim (buildCleanText (data best))) < 2.
Proof.
  unfold multi_pass_value. cbv zeta.
  destruct (Nat.ltb_spec (length (trim (buildCleanText (data best)))) 2) as [H|H].
  - tauto.
  - split; [discriminate | lia].
Qed.

Lemma fallback_result_empty (e : env) :
  fallback_result e = empty <-> fallback_text e = None.
Proof.
  unfold fallback_result. destruct (fallback_text e); split;
    try discriminate; reflexivity.
Qed.

(** C3, as the code has it: the call never throws, and it returns the
    empty result exactly when the path is missing or does not exist, or
    every promise of the fan-out resolves and the cleaned transcript of
    the best-scoring page has trimmed length under 2, or some promise of
    the fan-out rejects and the pass on the plain image fails or reads
    no text. *)
Theorem extractTextFromImage_empty_iff
  (e : env) (imagePath : option jsstring) (fs : files) :
  exists r fs',
    extractTextFromImage e imagePath fs = (Return r, fs') /\
    (r = empty <->
       path_missing imagePath = true
       \/ existsSync_image e = false
       \/ (all_ok e = true /\
           exists t, best_transcript e = Some t /\ length (trim t) < 2)
       \/ (all_ok e = false /\ fallback_text e = None)).
Proof.
  destruct imagePath as [[|c p]|];
    try (exists empty, fs; split; [reflexivity | cbn [path_missing]; tauto]).
  destruct (existsSync_image e) eqn:Hex.
  2:{ exists empty, fs. split; [|tauto].
      unfold extractTextFromImage. rewrite Hex. reflexivity. }
  destruct (extract_run e c p fs Hex) as [fs' E].
  eexists _, fs'. split; [exact E|]. cbn [path_missing].
  unfold best_transcript.
  destruct (all_ok e) eqn:Hok.
  - destruct (scored_pages_best e Hok) as [b Hb]. rewrite Hb. cbn [option_map].
    rewrite multi_pass_value_empty. split.
    + intros H. right. right. left. split; [reflexivity|]. eexists. split; [reflexivity|exact H].
    + intros [H|[H|[[_ (t & Et & Ht)]|[H _]]]]; try discriminate.
      injection Et as <-. exact Ht.
  - rewrite fallback_result_empty. split.
    + tauto.
    + intros [H|[H|[[H _]|[_ H]]]]; try discriminate. exact H.
Qed.

(** C3, as the spec has it, fails in both of its last two cases.  In
    [env_best_is_short] no promise rejects and two strategies yield
    [hello world], yet the result is empty, because the best-scoring
    page reads one letter.  In [env_one_fails_no_fallback] two
    strategies do not fail, yet the result is empty, because one does
    and the pass on the plain image fails. *)
Lemma empty_result_outside_spec_condition :
  (fst (extractTextFromImage env_best_is_short some_path []) = Return empty /\
   spec_empty_condition env_best_is_short some_path = false) /\
  (fst (extractTextFromImage env_one_fails_no_fallback some_path []) = Return empty /\
   spec_empty_condition env_one_fails_no_fallback some_path = false).
Proof. vm_compute. repeat split; reflexivity. Qed.

(** C2, as the code has it: one rejected promise, of a preprocessing or
    of a recognition, abandons the whole fan-out.  No page of the other
    recipes is scored, and the call returns what the single pass on the
    plain image gives. *)
Theorem one_failure_abandons_fan_out
  (e : env) (imagePath : option jsstring) (fs : files) (i : nat) :
  path_missing imagePath = false ->
  existsSync_image e = true ->
  In i tmp_indices ->
  strategy_ok e i = false ->
  fst (extractTextFromImage e imagePath fs) = Return (fallback_result e).
Proof.
  intros Hp Hex Hi Hko.
  destruct imagePath as [[|c p]|]; try discriminate Hp.
  destruct (extract_run e c p fs Hex) as [fs' E]. rewrite E. cbn [fst].
  assert (Hall : all_ok e = false).
  { unfold all_ok. destruct (forallb (strategy_ok e) tmp_indices) eqn:A; [|reflexivity].
    rewrite forallb_forall in A. rewrite (A i Hi) in Hko. discriminate Hko. }
  rewrite Hall. reflexivity.
Qed.

Lemma one_failure_abandons_fan_out_witness :
  strategy_ok env_one_fails 0 = false /\
  fst (extractTextFromImage env_one_fails some_path []) =
    Return (fallback_result env_one_fails).
Proof.
  split; [reflexivity|].
  apply (one_failure_abandons_fan_out env_one_fails some_path [] 0).
  - reflexivity.
  - reflexivity.
  - simpl. tauto.
  - reflexivity.
Defined.

(** C2, as the spec has it, fails: in [env_one_fails] the first recipe
    fails, the two others resolve and read [hello world], and the call
    returns the text of the pass on the plain image, not the best of the
    surviving results. *)
Lemma surviving_results_not_used :
  strategy_ok env_one_fails 0 = false /\
  transcript_of env_one_fails 1 = Some (of_string "hello world") /\
  transcript_of env_one_fails 2 = Some (of_string "hello world") /\
  ocr_text_raw (spec_fan_out_result env_one_fails) = Some (of_string "hello world") /\
  fst (extractTextFromImage env_one_fails some_path []) =
    Return (mkResult (Some (of_string "fallback text"))
                     (parseOcrText (Some (of_string "fallback text")))) /\
  fst (extractTextFromImage env_one_fails some_path []) <>
    Return (spec_fan_out_result env_one_fails).
Proof.
  vm_compute. repeat split; try reflexivity. discriminate.
Qed.

(** *** Temporary files *)

Lemma file_exists_add (f g : nat) (fs : files) :
  file_exists f (file_add g fs) = Nat.eqb f g || file_exists f fs.
Proof.
  unfold file_add. destruct (file_exists g fs) eqn:E; [|reflexivity].
  destruct (Nat.eqb_spec f g) as [->|_]; [|reflexivity].
  rewrite E. reflexivity.
Qed.

Lemma file_exists_remove (f g : nat) (fs : files) :
  file_exists f (file_remove g fs) = negb (Nat.eqb g f) && file_exists f fs.
Proof.
  unfold file_remove, file_exists. induction fs as [|h fs IH]; cbn [filter existsb].
  - rewrite andb_false_r. reflexivity.
  - destruct (Nat.eqb_spec g h) as [->|Hgh]; cbn [negb existsb].
    + rewrite IH. destruct (Nat.eqb_spec h f) as [->|Hn]; cbn [negb andb]; [reflexivity|].
      destruct (Nat.eqb_spec f h); [congruence | reflexivity].
    + rewrite IH. destruct (Nat.eqb_spec f h) as [->|Hn]; cbn [orb].
      * destruct (Nat.eqb_spec g h); [congruence | reflexivity].
      * reflexivity.
Qed.

Lemma existsb_eqb_pick (P : nat -> bool) (f : nat) (l : list nat) :
  existsb (fun i => Nat.eqb f i && P i) l = existsb (Nat.eqb f) l && P f.
Proof.
  induction l as [|i l IH]; cbn [existsb]; [reflexivity|].
  rewrite IH. destruct (Nat.eqb_spec f i) as [->|_]; cbn [andb orb]; [|reflexivity].
  destruct (P i); [reflexivity|]. rewrite andb_false_r. reflexivity.
Qed.

Section CleanupFacts.
Variable e : env.

Let resolves (i : nat) : bool :=
  match toFile e i with Resolved _ => true | Rejected _ => false end.

Lemma landed_preprocess (i f : nat) (fs : files) :
  file_exists f (landed (preprocess e i) fs) =
    file_exists f fs || (Nat.eqb f i && resolves i).
Proof.
  unfold landed, preprocess, resolves. cbn [settles writes].
  destruct (toFile e i).
  - rewrite file_exists_add, andb_true_r. apply orb_comm.
  - rewrite andb_false_r, orb_false_r. reflexivity.
Qed.

(** The writes of a preprocessing that the function waits for. *)
Lemma preprocess_landed_all (l : list nat) (fs : files) (f : nat) :
  file_exists f (fold_left (fun fs p => landed p fs) (map (preprocess e) l) fs) =
    file_exists f fs || (existsb (Nat.eqb f) l && resolves f).
Proof.
  rewrite <- existsb_eqb_pick.
  revert fs; induction l as [|i l IH]; intros fs; cbn [map fold_left existsb].
  - rewrite orb_false_r. reflexivity.
  - rewrite IH, landed_preprocess, orb_assoc. reflexivity.
Qed.

(** The writes that land before the cleanup when the function has
    stopped waiting. *)
Lemma preprocess_landed_early (l : list nat) (fs : files) (f : nat) :
  file_exists f
    (fold_left (fun fs p => if late p then fs else landed p fs)
               (map (preprocess e) l) fs) =
    file_exists f fs ||
    (existsb (Nat.eqb f) l && (resolves f && negb (toFile_late e f))).
Proof.
  rewrite <- (existsb_eqb_pick (fun i => resolves i && negb (toFile_late e i))).
  revert fs; induction l as [|i l IH]; intros fs; cbn [map fold_left existsb].
  - rewrite orb_false_r. reflexivity.
  - rewrite IH. change (late (preprocess e i)) with (toFile_late e i).
    destruct (toFile_late e i).
    + rewrite !andb_false_r. reflexivity.
    + rewrite landed_preprocess, orb_assoc, !andb_true_r. reflexivity.
Qed.

(** The writes that land after it. *)
Lemma preprocess_landed_late (l : list nat) (fs : files) (f : nat) :
  file_exists f
    (fold_left (fun fs p => landed p fs)
               (filter late (map (preprocess e) l)) fs) =
    file_exists f fs ||
    (existsb (Nat.eqb f) l && (resolves f && toFile_late e f)).
Proof.
  rewrite <- (existsb_eqb_pick (fun i => resolves i && toFile_late e i)).
  revert fs; induction l as [|i l IH]; intros fs; cbn [map filter existsb].
  - cbn [fold_left]. rewrite orb_false_r. reflexivity.
  - change (late (preprocess e i)) with (toFile_late e i).
    destruct (toFile_late e i).
    + cbn [fold_left]. rewrite IH, landed_preprocess, orb_assoc, !andb_true_r.
      reflexivity.
    + rewrite IH, !andb_false_r. reflexivity.
Qed.

Lemma values_preprocess_ok :
  match values (map (preprocess e) tmp_indices) with
  | Return _ => preprocessing_ok e = true
  | Throw _ => preprocessing_ok e = false
  end.
Proof.
  unfold preprocessing_ok. destruct (values_preprocess e tmp_indices) as [Hok Hko].
  destruct (forallb _ tmp_indices).
  - rewrite (Hok eq_refl). reflexivity.
  - destruct (Hko eq_refl) as [err E]. rewrite E. reflexivity.
Qed.

(** The [try] block changes the files by its preprocessing only. *)
Lemma multi_pass_state (fs : files) :
  snd (multi_pass e tmp_indices fs) =
    snd (promise_all (map (preprocess e) tmp_indices) fs).
Proof.
  unfold multi_pass, bind.
  destruct (promise_all (map (preprocess e) tmp_indices) fs) as [[u|err] fs1];
    cbn [snd]; [|reflexivity].
  destruct (forallb (fun i => match recognize_tmp e i with Resolved _ => true | _ => false end) tmp_indices) eqn:A.
  - rewrite (proj1 (promise_all_recognize e tmp_indices fs1) A).
    match goal with |- context [select_best ?x] => destruct (select_best x) end.
    + cbv zeta. destruct (Nat.ltb _ 2); reflexivity.
    + reflexivity.
  - destruct (proj2 (promise_all_recognize e tmp_indices fs1) A) as [err E].
    rewrite E. reflexivity.
Qed.

(** The files when the [finally] block starts. *)
Lemma before_cleanup (fs : files) (f : nat) :
  file_exists f (snd (try_catch (multi_pass e tmp_indices) (fallback e) fs)) =
    file_exists f fs ||
    (existsb (Nat.eqb f) tmp_indices && (resolves f && written_in_time e f)).
Proof.
  assert (S : snd (try_catch (multi_pass e tmp_indices) (fallback e) fs) =
              snd (promise_all (map (preprocess e) tmp_indices) fs)).
  { rewrite <- multi_pass_state. unfold try_catch.
    destruct (multi_pass e tmp_indices fs) as [[r|err] fs0]; [reflexivity|].
    rewrite fallback_returns. reflexivity. }
  rewrite S. unfold promise_all, written_in_time.
  pose proof values_preprocess_ok as V.
  destruct (values (map (preprocess e) tmp_indices)); rewrite V; cbn [snd orb].
  - rewrite preprocess_landed_all, andb_true_r. reflexivity.
  - apply preprocess_landed_early.
Qed.

(** The [finally] block creates nothing, and removes every file of its
    list whose [unlinkSync] returns. *)
Lemma cleanup_exists (l : list nat) (fs : files) (f : nat) :
  file_exists f (snd (cleanup e l fs)) =
    file_exists f fs && negb (existsb (Nat.eqb f) l && unlinkSync_ok e f).
Proof.
  revert fs; induction l as [|g l IH]; intros fs; cbn [cleanup for_each existsb].
  - unfold ret. cbn [snd andb negb]. rewrite andb_true_r. reflexivity.
  - unfold bind at 1. unfold bind at 1. unfold existsSync at 1.
    destruct (file_exists g fs) eqn:Eg.
    + unfold try_catch, unlinkSync. destruct (unlinkSync_ok e g) eqn:Ug.
      * change (file_exists f (snd (cleanup e l (file_remove g fs))) =
                file_exists f fs &&
                negb ((Nat.eqb f g || existsb (Nat.eqb f) l) && unlinkSync_ok e f)).
        rewrite IH, file_exists_remove. rewrite (Nat.eqb_sym g f).
        destruct (Nat.eqb_spec f g) as [->|_]; cbn [negb andb orb].
        -- rewrite Ug, andb_false_r. reflexivity.
        -- reflexivity.
      * unfold ret at 1.
        change (file_exists f (snd (cleanup e l fs)) =
                file_exists f fs &&
                negb ((Nat.eqb f g || existsb (Nat.eqb f) l) && unlinkSync_ok e f)).
        rewrite IH. destruct (Nat.eqb_spec f g) as [->|_]; cbn [orb]; [|reflexivity].
        rewrite Ug, !andb_false_r. reflexivity.
    + unfold ret at 1.
      change (file_exists f (snd (cleanup e l fs)) =
              file_exists f fs &&
              negb ((Nat.eqb f g || existsb (Nat.eqb f) l) && unlinkSync_ok e f)).
      rewrite IH. destruct (Nat.eqb_spec f g) as [->|_]; cbn [orb]; [|reflexivity].
      rewrite Eg. reflexivity.
Qed.

(** The files once the call is over and every write has landed: what
    was there or was written in time, less what the cleanup unlinked,
    and the late writes. *)
Lemma extract_files (c : char) (p : jsstring) (fs : files) (f : nat) :
  existsSync_image e = true ->
  file_exists f (snd (extractTextFromImage e (Some (c :: p)) fs)) =
    let temporary := existsb (Nat.eqb f) tmp_indices in
    ((file_exists f fs || (temporary && (resolves f && written_in_time e f)))
     && negb (temporary && unlinkSync_ok e f))
    || (temporary && (resolves f && negb (written_in_time e f))).
Proof.
  intros Hex. cbv zeta. unfold extractTextFromImage. rewrite Hex. cbn [negb].
  fold tmp_indices. unfold settled_after, try_finally.
  pose proof (before_cleanup fs f) as B.
  destruct (try_catch (multi_pass e tmp_indices) (fallback e) fs) as [o fs1].
  cbn [snd] in B.
  pose proof (cleanup_exists tmp_indices fs1 f) as C.
  destruct (cleanup e tmp_indices fs1) as [[u|err] fs2]; cbn [snd] in *.
  - unfold pending, written_in_time. pose proof values_preprocess_ok as V.
    destruct (values (map (preprocess e) tmp_indices)); rewrite V; cbn [fold_left orb negb].
    + rewrite C, B. unfold written_in_time. rewrite V. cbn [orb].
      rewrite !andb_false_r, orb_false_r. reflexivity.
    + rewrite preprocess_landed_late, C, B. unfold written_in_time. rewrite V. cbn [orb].
      rewrite negb_involutive. reflexivity.
  - unfold pending, written_in_time. pose proof values_preprocess_ok as V.
    destruct (values (map (preprocess e) tmp_indices)); rewrite V; cbn [fold_left orb negb].
    + rewrite C, B. unfold written_in_time. rewrite V. cbn [orb].
      rewrite !andb_false_r, orb_false_r. reflexivity.
    + rewrite preprocess_landed_late, C, B. unfold written_in_time. rewrite V. cbn [orb].
      rewrite negb_involutive. reflexivity.
Qed.

End CleanupFacts.

(** C8, as the code has it: a temporary file that the call created,
    and whose write had reached the disk when the [finally] block
    looked for it, is gone when the call is over, on every exit path,
    unless [unlinkSync] throws for it; the cleanup swallows that
    exception and the file stays. *)
Theorem temporaries_deleted_unless_unlink_throws
  (e : env) (imagePath : option jsstring) (fs : files) (f : nat) :
  file_exists f fs = false ->
  unlinkSync_ok e f = true ->
  written_in_time e f = true ->
  file_exists f (snd (extractTextFromImage e imagePath fs)) = false.
Proof.
  intros Hnew Hok Hin. unfold extractTextFromImage.
  destruct imagePath as [[|c p]|]; try exact Hnew.
  destruct (existsSync_image e) eqn:Hex; cbn [negb]; [|exact Hnew].
  pose proof (extract_files e c p fs f Hex) as F. cbv zeta in F.
  unfold extractTextFromImage in F. rewrite Hex in F. cbn [negb] in F.
  rewrite F, Hnew, Hok, Hin. cbn [orb negb].
  destruct (existsb (Nat.eqb f) tmp_indices); cbn [andb negb orb].
  - rewrite !andb_false_r. reflexivity.
  - reflexivity.
Qed.

Lemma temporaries_deleted_unless_unlink_throws_witness :
  file_exists 1 (snd (extractTextFromImage env_unlink_fails some_path [])) = false.
Proof.
  apply temporaries_deleted_unless_unlink_throws; reflexivity.
Defined.

(** C8, as the spec has it, fails: in [env_unlink_fails] the call
    succeeds, the file of the first strategy did not exist before the
    call, and it is still there when the call returns. *)
Lemma temporary_left_behind :
  file_exists 0 [] = false /\
  (exists r, fst (extractTextFromImage env_unlink_fails some_path []) = Return r /\
             ocr_text_raw r = Some (of_string "hello world")) /\
  snd (extractTextFromImage env_unlink_fails some_path []) = [0] /\
  file_exists 0 (snd (extractTextFromImage env_unlink_fails some_path [])) = true.
Proof.
  vm_compute. repeat split; try reflexivity. eexists. split; reflexivity.
Qed.

(** * Further properties of the service *)

(** ** The sanitiser *)

Lemma collapse_newlines_runs (m : nat) :
  forall s : jsstring,
    length s <= m ->
    no_run 3 nl (replace_from newlinesRegex [NL; NL] None s 0) = true /\
    (run nl s < 3 ->
     run nl (replace_from newlinesRegex [NL; NL] None s 0) = run nl s).
Proof.
  induction m as [|m IH]; intros [|c t] Hl; try (cbn [length] in Hl; lia);
    try (split; reflexivity).
  unfold newlinesRegex. rewrite replace_many_step by lia. fold newlinesRegex. fold nl.
  destruct (Nat.leb_spec 3 (run nl (c :: t))) as [L|L].
  - destruct (IH (skipn (run nl (c :: t)) (c :: t))) as [A B].
    { rewrite length_skipn. cbn [length] in *. lia. }
    pose proof (run_skipn nl (c :: t)) as Z. rewrite Z in B.
    specialize (B ltac:(lia)).
    set (out := replace_from newlinesRegex [NL; NL] None _ 0) in *.
    split; [|lia]. change ([NL; NL] ++ out) with (NL :: NL :: out).
    cbn [no_run run]. change (nl NL) with true. cbv iota. rewrite B, A. reflexivity.
  - destruct (IH t) as [A B]; [cbn [length] in Hl; lia|].
    cbn [no_run run] in *. destruct (nl c) eqn:E.
    + rewrite B by lia. split; [|reflexivity]. rewrite A.
      apply andb_true_iff. split; [apply Nat.ltb_lt; lia | reflexivity].
    + split; [rewrite A|]; reflexivity.
Qed.

Lemma sanitize_no_triple_newline (raw : jsstring) : no_run 3 nl (sanitize raw) = true.
Proof.
  unfold sanitize.
  set (s3 := replace spacesRegex [SP] (replace tabRegex [SP] (replace notAllowedRegex [] raw))).
  destruct (trim_split (replace newlinesRegex [NL; NL] s3)) as (a & b & E).
  apply (no_run_part 3 nl a _ b). rewrite <- E. unfold replace at 1.
  apply (collapse_newlines_runs _ _ (Nat.le_refl _)).
Qed.

(** A text that already has the shape of a sanitised text is left as it
    is. *)
Lemma sanitize_fixed (s : jsstring) :
  all_allowed s -> no_run 2 sp s = true -> no_run 3 nl s = true -> tight s ->
  sanitize s = s.
Proof.
  intros Ha Hs Hn Ht. unfold sanitize, replace.
  rewrite (replace_no_match notAllowedRegex).
  2:{ unfold notAllowedRegex. rewrite test_from_chr. apply existsb_none.
      intros x Hx. rewrite (Ha x Hx). reflexivity. }
  rewrite (replace_no_match tabRegex).
  2:{ unfold tabRegex. rewrite test_from_chr. apply existsb_none.
      intros x Hx. apply N.eqb_neq. intros <-.
      pose proof (Ha _ Hx) as A. discriminate A. }
  rewrite (replace_no_match spacesRegex).
  2:{ unfold spacesRegex. rewrite test_from_many by lia. fold sp. rewrite Hs. reflexivity. }
  rewrite (replace_no_match newlinesRegex).
  2:{ unfold newlinesRegex. rewrite test_from_many by lia. fold nl. rewrite Hn. reflexivity. }
  apply tight_trim, Ht.
Qed.

Lemma no_run_two (p : char -> bool) (s a b : jsstring) (c d : char) :
  no_run 2 p s = true -> s = a ++ c :: d :: b -> p c = true -> p d = true -> False.
Proof.
  intros H -> Hc Hd. apply no_run_app_l in H. cbn [no_run run] in H.
  rewrite Hc, Hd in H. cbn [Nat.ltb Nat.leb andb] in H. discriminate H.
Qed.

Lemma no_run_three (p : char -> bool) (s a b : jsstring) (c d f : char) :
  no_run 3 p s = true -> s = a ++ c :: d :: f :: b ->
  p c = true -> p d = true -> p f = true -> False.
Proof.
  intros H -> Hc Hd Hf. apply no_run_app_l in H. cbn [no_run run] in H.
  rewrite Hc, Hd, Hf in H. cbn [Nat.ltb Nat.leb andb] in H. discriminate H.
Qed.

Lemma tight_ends (s : jsstring) :
  tight s ->
  (forall c t, s = c :: t -> is_ws c = false) /\
  (forall t c, s = t ++ [c] -> is_ws c = false).
Proof.
  intros [H1 H2]. split.
  - intros c t ->. apply (drop_while_head is_ws (c :: t) c t H1).
  - intros t c ->. rewrite rev_app_distr in H2. cbn [rev app] in H2.
    apply (drop_while_head is_ws (c :: rev t) c (rev t) H2).
Qed.

(** X1: the sanitiser of [parseOcrText] leaves nothing to do for a
    second pass: sanitising a sanitised text gives the same text. *)
Theorem sanitize_idempotent (raw : jsstring) :
  sanitize (sanitize raw) = sanitize raw.
Proof.
  apply sanitize_fixed.
  - apply sanitize_allowed.
  - apply sanitize_no_double_space.
  - apply sanitize_no_triple_newline.
  - apply trim_tight.
Qed.

(** X2: the shape of a sanitised text.  It holds only code units of the
    class the sanitiser keeps (so, no tab), never two spaces in a row,
    never three line feeds in a row, and no white space at its start or
    at its end. *)
Theorem sanitize_shape (raw : jsstring) :
  (forall x, In x (sanitize raw) -> allowed x = true /\ x <> 9%N) /\
  (forall a b, sanitize raw <> a ++ [SP; SP] ++ b) /\
  (forall a b, sanitize raw <> a ++ [NL; NL; NL] ++ b) /\
  (forall c t, sanitize raw = c :: t -> is_ws c = false) /\
  (forall t c, sanitize raw = t ++ [c] -> is_ws c = false).
Proof.
  split; [|split; [|split]].
  - intros x Hx. pose proof (sanitize_allowed raw x Hx) as A. split; [exact A|].
    intros ->. discriminate A.
  - intros a b E.
    apply (no_run_two sp _ a b SP SP (sanitize_no_double_space raw) E); reflexivity.
  - intros a b E.
    apply (no_run_three nl _ a b NL NL NL (sanitize_no_triple_newline raw) E);
      reflexivity.
  - apply tight_ends, trim_tight.
Qed.

(** ** The fields of the parser *)

Lemma or_null_inv (s t : jsstring) : or_null s = Some t -> s = t /\ t <> [].
Proof. destruct s; [discriminate|]. intros H. injection H as <-. split; [reflexivity|discriminate]. Qed.

Lemma join_nil_inv (ls : list jsstring) :
  (forall l, In l ls -> l <> []) -> join [NL] ls = [] -> ls = [].
Proof.
  intros H E. destruct ls as [|l ls]; [reflexivity|]. exfalso.
  apply (join_nonempty [NL] (l :: ls) l (or_introl eq_refl)); [|exact E].
  apply H. left. reflexivity.
Qed.

(** X3: the lines of [ocr_text].  When [ocr_text] is not null, it has no
    empty line, and each of its lines has no white space at either end,
    no two spaces in a row and only code units that the sanitiser
    keeps; its lines are the non-empty trimmed lines of the sanitised
    text. *)
Theorem ocr_text_lines (raw s : jsstring) :
  ocr_text (parseOcrText (Some raw)) = Some s ->
  split_nl s = split_lines (sanitize raw) /\
  forall l, In l (split_nl s) ->
    l <> [] /\ trim l = l /\
    (forall a b, l <> a ++ [SP; SP] ++ b) /\
    (forall x, In x l -> allowed x = true /\ x <> NL).
Proof.
  destruct raw as [|c r]; [discriminate|].
  rewrite (parseOcrText_some (c :: r)) by discriminate. cbv zeta. cbn [ocr_text].
  intros H. apply or_null_inv in H. destruct H as [<- Hne].
  pose proof (sanitized_lines (c :: r)) as Hls.
  set (lines := split_lines (sanitize (c :: r))) in *.
  assert (S : split_nl (join [NL] lines) = lines).
  { apply split_nl_join.
    - intros E. rewrite E in Hne. apply Hne. reflexivity.
    - intros l Hl. apply (Hls l Hl). }
  split; [exact S|]. rewrite S. intros l Hl.
  destruct (Hls l Hl) as (Hn & Ht & Hnl & Ha & Hs).
  split; [exact Hn|]. split; [apply tight_trim, Ht|]. split.
  - intros a b E. apply (no_run_two sp l a b SP SP Hs E); reflexivity.
  - intros x Hx. split; [apply Ha, Hx|]. intros ->. contradiction.
Qed.

Lemma ocr_text_lines_witness :
  split_nl (txt ["Fresh juice"; "Open daily"]%string) =
    [of_string "Fresh juice"; of_string "Open daily"].
Proof.
  destruct (ocr_text_lines (txt ["  Fresh   juice "; ""; ""; " Open daily~"]%string)
              (txt ["Fresh juice"; "Open daily"]%string)) as [H _].
  - vm_compute. reflexivity.
  - rewrite H. vm_compute. reflexivity.
Defined.

Lemma strip_inline_chars (l : jsstring) (x : char) :
  In x (strip_inline l) -> In x l \/ x = SP.
Proof.
  unfold strip_inline. intros H.
  destruct (trim_split (replace spacesRegex [SP] (replace urlRegex []
             (replace emailRegex [] (replace phoneRegex [] l))))) as (a & b & E).
  assert (H4 : In x (replace spacesRegex [SP] (replace urlRegex []
             (replace emailRegex [] (replace phoneRegex [] l))))).
  { rewrite E. apply in_or_app. right. apply in_or_app. left. exact H. }
  clear E H. unfold replace in H4.
  apply replace_from_chars in H4. destruct H4 as [H3|[<-|[]]]; [|right; reflexivity].
  apply replace_from_chars in H3. destruct H3 as [H2|[]].
  apply replace_from_chars in H2. destruct H2 as [H1|[]].
  apply replace_from_chars in H1. destruct H1 as [H0|[]]. left. exact H0.
Qed.

(** X4: the lines of [other_text].  When [other_text] is not null, each
    of its lines has at least two code units and no white space at
    either end; in particular it has no empty line. *)
Theorem other_text_lines (raw s : jsstring) :
  other_text (parseOcrText (Some raw)) = Some s ->
  forall l, In l (split_nl s) -> 2 <= length l /\ trim l = l.
Proof.
  destruct raw as [|c r]; [discriminate|].
  rewrite (parseOcrText_some (c :: r)) by discriminate. cbv zeta. cbn [other_text].
  set (lines := split_lines (sanitize (c :: r))).
  set (ol := other_lines lines _ _ _).
  assert (P : forall x, In x ol -> 1 < length x /\ tight x /\ ~ In NL x).
  { intros x Hx. apply other_lines_origin in Hx.
    destruct Hx as (l & Hl & -> & Hlen & _). split; [exact Hlen|]. split.
    - unfold strip_inline. apply trim_tight.
    - intros I. apply strip_inline_chars in I. destruct I as [I|I]; [|discriminate I].
      destruct (split_lines_In _ _ Hl) as (_ & _ & N & _). contradiction. }
  assert (T : trim (join [NL] ol) = join [NL] ol).
  { apply tight_trim, tight_join. intros l Hl. destruct (P l Hl) as (L & Tl & _).
    split; [exact Tl|]. intros ->. cbn [length] in L. lia. }
  rewrite T. intros H. apply or_null_inv in H. destruct H as [<- Hne].
  rewrite split_nl_join.
  - intros l Hl. destruct (P l Hl) as (L & Tl & _). split; [lia | apply tight_trim, Tl].
  - intros E. rewrite E in Hne. apply Hne. reflexivity.
  - intros l Hl. apply (P l Hl).
Qed.

Lemma other_text_lines_witness :
  2 <= length (of_string "Visit") /\ trim (of_string "Visit") = of_string "Visit".
Proof.
  apply (other_text_lines
           (txt ["Contact us: 9876543210"; "Visit www.example.com"; "12 Main Road, Chennai"]%string)
           (txt ["Contact us:"; "Visit"]%string)).
  - vm_compute. reflexivity.
  - vm_compute. right. left. reflexivity.
Defined.

Lemma blank_replace (r : regex) (by_ s : jsstring) :
  blank by_ = true -> blank s = true -> blank (replace r by_ s) = true.
Proof.
  unfold blank. rewrite !forallb_forall. intros Hb Hs x Hx.
  apply replace_from_chars in Hx. destruct Hx; auto.
Qed.

(** X5: a text made only of white space and of code units that the
    sanitiser drops parses to six null fields. *)
Theorem blank_text_parses_to_null (raw : jsstring) :
  (forall x, In x raw -> allowed x = false \/ is_ws x = true) ->
  parseOcrText (Some raw) = parsed_null.
Proof.
  intros H. destruct raw as [|c r]; [reflexivity|].
  rewrite (parseOcrText_some (c :: r)) by discriminate. cbv zeta.
  assert (E : sanitize (c :: r) = []).
  { unfold sanitize. apply trim_nil_iff.
    do 3 (apply blank_replace; [reflexivity|]).
    unfold replace, notAllowedRegex. rewrite replace_chr_nil.
    unfold blank. apply forallb_forall. intros x Hx. apply filter_In in Hx.
    destruct Hx as [Hx A]. rewrite negb_involutive in A.
    destruct (H x Hx) as [B|B]; [congruence | exact B]. }
  rewrite E. reflexivity.
Qed.

Lemma blank_text_parses_to_null_witness :
  parseOcrText (Some (txt ["  ~~ "; " * "]%string)) = parsed_null.
Proof.
  apply blank_text_parses_to_null.
  intros x. vm_compute.
  intros [<-|[<-|[<-|[<-|[<-|[<-|[<-|[<-|[<-|[]]]]]]]]]]; auto.
Defined.

Lemma In_skipn {A} (k : nat) (s : list A) (x : A) : In x (skipn k s) -> In x s.
Proof.
  intros H. rewrite <- (firstn_skipn k s). apply in_or_app. right. exact H.
Qed.

Lemma ws_run_replace_chars (m : nat) :
  forall (s : jsstring) (x : char),
    length s <= m ->
    In x (replace_from wsRunRegex [SP] None s 0) ->
    x = SP \/ (In x s /\ is_ws x = false).
Proof.
  induction m as [|m IH]; intros [|c t] x Hl; try (cbn [length] in Hl; lia);
    try (intros []).
  unfold wsRunRegex. rewrite replace_many_step by lia. fold wsRunRegex.
  destruct (Nat.leb_spec 1 (run is_ws (c :: t))) as [L|L].
  - intros [<-|H]; [left; reflexivity|].
    apply IH in H; [|rewrite length_skipn; cbn [length] in *; lia].
    destruct H as [H|[H W]]; [left; exact H|]. right. split; [|exact W].
    apply (In_skipn _ _ _ H).
  - cbn [run] in L. destruct (is_ws c) eqn:E; [lia|].
    intros [<-|H]; [right; split; [left; reflexivity | exact E]|].
    apply IH in H; [|cbn [length] in Hl; lia].
    destruct H as [H|[H W]]; [left; exact H|]. right. split; [right; exact H | exact W].
Qed.

(** X6: the phone numbers of [ocr_contact_number].  Each listed number
    has between 7 and 15 digits, and its only white space is the single
    space; the field, joined with comma and space, therefore never
    holds a line break, even when a number was matched across one. *)
Theorem phone_numbers_shape (raw : jsstring) :
  (forall p, In p (dedupe (find_phones (sanitize raw))) ->
     7 <= length (filter is_digit p) <= 15 /\
     (forall x, In x p -> is_ws x = true -> x = SP)) /\
  (forall s, ocr_contact_number (parseOcrText (Some raw)) = Some s ->
     forall x, In x s -> is_ws x = true -> x = SP).
Proof.
  assert (P : forall p, In p (dedupe (find_phones (sanitize raw))) ->
     7 <= length (filter is_digit p) <= 15 /\
     (forall x, In x p -> is_ws x = true -> x = SP)).
  { intros p Hp. apply (proj1 (dedupe_In _ _)) in Hp. unfold find_phones in Hp.
    apply filter_In in Hp. destruct Hp as [Hp Hok]. split.
    - unfold phone_ok, replace, nonDigitRegex in Hok. rewrite replace_chr_nil in Hok.
      rewrite (filter_ext _ is_digit) in Hok by (intros a; apply negb_involutive).
      apply andb_true_iff in Hok. destruct Hok as [A B].
      apply Nat.leb_le in A. apply Nat.leb_le in B. lia.
    - apply in_map_iff in Hp. destruct Hp as (m & <- & _).
      intros x Hx W. unfold replace in Hx.
      apply (ws_run_replace_chars _ _ _ (Nat.le_refl _)) in Hx.
      destruct Hx as [Hx|[_ Hx]]; [exact Hx | congruence]. }
  split; [exact P|].
  intros s. destruct raw as [|c r]; [discriminate|].
  rewrite (parseOcrText_some (c :: r)) by discriminate. cbv zeta.
  cbn [ocr_contact_number]. intros H. apply or_null_inv in H. destruct H as [<- _].
  intros x Hx W. apply join_In in Hx. destruct Hx as [Hx|(p & Hp & Hx)].
  - destruct Hx as [<-|[<-|[]]]; [discriminate W | reflexivity].
  - apply (proj2 (P p Hp) x Hx W).
Qed.

Lemma phone_numbers_shape_witness :
  7 <= length (filter is_digit (of_string "91 9876543210")) <= 15.
Proof.
  refine (proj1 (proj1 (phone_numbers_shape (txt ["91"; "9876543210"]%string))
                       (of_string "91 9876543210") _)).
  vm_compute. left. reflexivity.
Defined.

(** ** The transcript cleaner and the scores *)

Lemma keep_ratio_low (g n : nat) :
  0 < n -> (Qltb (ratio g n) (4 # 10) = true <-> 5 * g < 2 * n).
Proof.
  intros Hn. unfold Qltb. rewrite negb_true_iff, <- not_true_iff_false, Qle_bool_iff.
  destruct n as [|n]; [lia|].
  unfold ratio, Qdiv, Qinv, Qmult, Qle, inject_Z. cbn [Qnum Qden].
  rewrite Znat.Nat2Z.inj_succ. unfold Z.succ.
  destruct (Z.of_nat n + 1)%Z eqn:E; try lia.
  cbn [Qnum Qden]. rewrite Pos.mul_1_l. lia.
Qed.

Lemma blank_join_false (sep x : jsstring) (l : list jsstring) :
  In x l -> blank x = false -> blank (join sep l) = false.
Proof.
  induction l as [|y l IH]; [intros []|]. intros H B.
  destruct l as [|z l].
  - destruct H as [->|[]]. exact B.
  - rewrite join_cons by discriminate. rewrite !blank_app.
    destruct H as [->|H]; [rewrite B; reflexivity|].
    rewrite (IH H B). rewrite !andb_false_r. reflexivity.
Qed.

Lemma good_words_text (ws : list word) (a : word) (g : list word) :
  filter good_word ws = a :: g ->
  trim (join [SP] (map text (a :: g))) <> [].
Proof.
  intros H E. apply trim_nil_iff in E.
  rewrite (blank_join_false [SP] (text a)) in E; [discriminate | left; reflexivity|].
  apply good_word_text. apply (filter_head_holds _ _ _ _ H).
Qed.

(** X7: which lines the cleaner keeps.  A line of tokens is kept exactly
    when at least one token passes the filter (confidence at least 45,
    text not blank) and the tokens that pass are at least 40% of the
    line; what is kept is the texts of those tokens joined by single
    spaces and trimmed. *)
Theorem clean_line_kept_iff (ws : list word) (x : jsstring) :
  clean_line (mkLine (Some ws)) = Some x <->
  filter good_word ws <> [] /\
  2 * length ws <= 5 * length (filter good_word ws) /\
  x = trim (join [SP] (map text (filter good_word ws))).
Proof.
  unfold clean_line. cbn [words].
  destruct ws as [|w0 ws'];
    [split; [discriminate | intros [H _]; exfalso; apply H; reflexivity]|].
  assert (Hn : 0 < length (w0 :: ws')) by (cbn [length]; lia).
  set (ws := w0 :: ws') in *.
  destruct (filter good_word ws) as [|a g] eqn:G;
    [split; [discriminate | intros [H _]; exfalso; apply H; reflexivity]|].
  pose proof (good_words_text ws a g G) as Hne.
  pose proof (keep_ratio_low (length (a :: g)) (length ws) Hn) as K.
  destruct (Qltb (ratio (length (a :: g)) (length ws)) (4 # 10)).
  - split; [discriminate|]. intros (_ & L & _).
    assert (5 * length (a :: g) < 2 * length ws) by (apply K; reflexivity). lia.
  - destruct (trim (join [SP] (map text (a :: g)))) as [|c t] eqn:T; [congruence|].
    cbn [length Nat.ltb Nat.leb]. split.
    + intros H. injection H as <-. split; [discriminate|]. split; [|reflexivity].
      destruct (Nat.le_gt_cases (2 * length ws) (5 * length (a :: g))) as [L|L];
        [exact L|]. apply K in L. discriminate L.
    + intros (_ & _ & ->). reflexivity.
Qed.

Lemma clean_lines_In (ls : list line) (x : jsstring) :
  In x (clean_lines ls) -> exists l, In l ls /\ clean_line l = Some x.
Proof.
  induction ls as [|l ls IH]; [intros []|]. cbn [clean_lines].
  destruct (clean_line l) as [y|] eqn:E.
  - intros [<-|H]; [exists l; split; [left; reflexivity | exact E]|].
    destruct (IH H) as (l' & Hl & El). exists l'. split; [right; exact Hl | exact El].
  - intros H. destruct (IH H) as (l' & Hl & El). exists l'. split; [right; exact Hl | exact El].
Qed.

Lemma clean_line_tight (l : line) (x : jsstring) :
  clean_line l = Some x -> x <> [] /\ tight x.
Proof.
  unfold clean_line. destruct (words l) as [[|w0 ws]|]; try discriminate.
  destruct (filter good_word (w0 :: ws)) as [|a g]; [discriminate|].
  destruct (Qltb _ _); [discriminate|].
  destruct (trim (join [SP] (map text (a :: g)))) as [|c t] eqn:T; [discriminate|].
  cbn [length Nat.ltb Nat.leb]. intros H. injection H as <-.
  split; [discriminate|]. rewrite <- T. apply trim_tight.
Qed.

(** X8: a transcript built from line data has no white space at its
    start or at its end, and neither has any of the kept lines it joins,
    none of which is empty; trimming it, as [extractTextFromImage] does
    before measuring it, changes nothing. *)
Theorem buildCleanText_trimmed (d : page) (l : line) (ls : list line) :
  data_lines d = Some (l :: ls) ->
  buildCleanText d = join [NL] (clean_lines (l :: ls)) /\
  trim (buildCleanText d) = buildCleanText d /\
  (forall x, In x (clean_lines (l :: ls)) -> x <> [] /\ trim x = x).
Proof.
  intros H. unfold buildCleanText. rewrite H.
  assert (P : forall x, In x (clean_lines (l :: ls)) -> tight x /\ x <> []).
  { intros x Hx. apply clean_lines_In in Hx. destruct Hx as (l' & _ & E).
    apply clean_line_tight in E. tauto. }
  split; [reflexivity|]. split.
  - apply tight_trim, tight_join, P.
  - intros x Hx. destruct (P x Hx) as [T N]. split; [exact N | apply tight_trim, T].
Qed.

Lemma buildCleanText_trimmed_witness :
  trim (buildCleanText five_page) = buildCleanText five_page.
Proof.
  destruct (buildCleanText_trimmed five_page (mkLine (Some five_words)) [])
    as (_ & H & _); [reflexivity | exact H].
Defined.

(** *** Rounding to double precision *)

Lemma pow2_pos (k : Z) : (0 < pow2 k)%Z.
Proof. unfold pow2. apply Z.pow_pos_nonneg; lia. Qed.

Lemma pow2_nonneg (k : Z) : (0 <= k)%Z -> pow2 k = (2 ^ k)%Z.
Proof. intros H. unfold pow2. rewrite Z.max_r by lia. reflexivity. Qed.

Lemma pow2_nonpos (k : Z) : (k <= 0)%Z -> pow2 k = 1%Z.
Proof. intros H. unfold pow2. rewrite Z.max_l by lia. reflexivity. Qed.

Lemma round_div_floor (n d : Z) : (n / d <= round_div n d)%Z.
Proof.
  unfold round_div. destruct (2 * (n mod d) ?= d)%Z; [|lia|lia].
  destruct (Z.even (n / d)); lia.
Qed.

Lemma binade_lower (n : Z) (d : positive) :
  (0 < n)%Z -> (0 <= binade n d)%Z -> (Zpos d * 2 ^ binade n d <= n)%Z.
Proof.
  intros Hn. unfold binade.
  set (k := (Z.log2 n - Z.log2 (Zpos d))%Z).
  destruct (Z.leb_spec (Zpos d * pow2 k) (n * pow2 (- k))) as [T|T]; intros Hb.
  - rewrite pow2_nonneg in T by lia. rewrite pow2_nonpos in T by lia. lia.
  - pose proof (Z.log2_spec n Hn) as [Ln _].
    pose proof (Z.log2_spec (Zpos d) (Pos2Z.is_pos d)) as [_ Ld].
    pose proof (Z.log2_nonneg (Zpos d)) as Ld0.
    assert (E : (2 ^ Z.log2 n = 2 ^ Z.succ (Z.log2 (Zpos d)) * 2 ^ (k - 1))%Z).
    { rewrite <- Z.pow_add_r by lia. f_equal. lia. }
    assert (P : (0 < 2 ^ (k - 1))%Z) by (apply Z.pow_pos_nonneg; lia).
    nia.
Qed.

Lemma to_double_lower (L : Z) (x : Q) :
  (0 < L < 2 ^ 53)%Z -> (inject_Z L <= x)%Q -> (inject_Z L <= to_double x)%Q.
Proof.
  intros [L0 L1] Hx. destruct x as [n d]. unfold Qle in Hx. cbn [Qnum Qden inject_Z] in Hx.
  assert (Hn : (0 < n)%Z) by nia.
  unfold to_double. cbn [Qnum Qden]. rewrite Z.abs_eq by lia.
  destruct (Z.eqb_spec n 0) as [?|_]; [lia|].
  destruct (Z.ltb_spec n 0) as [?|_]; [lia|].
  cbv zeta. set (ex := Z.max (binade n d - 52) (-1074)).
  set (m := round_div (n * pow2 (- ex)) (Zpos d * pow2 ex)).
  assert (M : (inject_Z L <= (m * pow2 ex) # Z.to_pos (pow2 (- ex)))%Q).
  { unfold Qle. cbn [Qnum Qden inject_Z]. rewrite Z2Pos.id by apply pow2_pos.
    pose proof (round_div_floor (n * pow2 (- ex)) (Zpos d * pow2 ex)) as F. fold m in F.
    destruct (Z.le_gt_cases ex 0) as [Hex|Hex].
    - rewrite (pow2_nonpos ex Hex) in *. rewrite (pow2_nonneg (- ex)) in * by lia.
      assert (P : (0 < 2 ^ (- ex))%Z) by (apply Z.pow_pos_nonneg; lia).
      assert (G : (L * 2 ^ (- ex) <= n * 2 ^ (- ex) / (Zpos d * 1))%Z).
      { apply Z.div_le_lower_bound; [lia|]. nia. }
      lia.
    - rewrite (pow2_nonneg ex) in * by lia. rewrite (pow2_nonpos (- ex)) in * by lia.
      assert (B : (ex = binade n d - 52)%Z) by (unfold ex in *; lia).
      pose proof (binade_lower n d Hn) as BL.
      assert (E : (2 ^ binade n d = 2 ^ ex * 2 ^ 52)%Z).
      { rewrite <- Z.pow_add_r by lia. f_equal. lia. }
      assert (P : (2 <= 2 ^ ex)%Z).
      { change 2%Z with (2 ^ 1)%Z at 1. apply Z.pow_le_mono_r; lia. }
      assert (G : (2 ^ 52 <= n * 1 / (Zpos d * 2 ^ ex))%Z).
      { apply Z.div_le_lower_bound; [lia|]. specialize (BL ltac:(lia)). nia. }
      nia. }
  rewrite <- (Qred_correct ((m * pow2 ex) # Z.to_pos (pow2 (- ex)))) in M.
  destruct (Qle_bool infinity _); [|exact M].
  unfold infinity. rewrite <- Zle_Qle. lia.
Qed.

(** The sum that the code computes is at least 50 times the number of
    its terms: every partial bound [50 * k] is an integer under [2^53],
    hence a double, and rounding does not cross it. *)
Lemma sum_conf_lower (l : list word) :
  Forall (fun x => (50 # 1 < conf x)%Q) l ->
  forall (acc : Q) (k : Z),
    (0 <= k)%Z -> (k + Z.of_nat (length l) < 2 ^ 32)%Z ->
    (inject_Z (50 * k) <= acc)%Q ->
    (inject_Z (50 * (k + Z.of_nat (length l)))
       <= fold_left (fun s x => to_double (s + conf x)) l acc)%Q.
Proof.
  induction 1 as [|a l Ha Hl IH]; intros acc k Hk Hlen Hacc; cbn [fold_left length].
  - rewrite Z.add_0_r. exact Hacc.
  - cbn [length] in Hlen. rewrite Nat2Z.inj_succ in *.
    replace (k + Z.succ (Z.of_nat (length l)))%Z
      with ((k + 1) + Z.of_nat (length l))%Z by lia.
    apply IH; try lia. apply to_double_lower; [lia|].
    replace (50 * (k + 1))%Z with (50 * k + 50)%Z by lia.
    rewrite inject_Z_plus. change (inject_Z 50) with (50 # 1)%Q. lra.
Qed.

(** X9: the score of a strategy, computed in double precision as the
    code computes it, is 0 when the page has no word of confidence
    above 50, and is at least 50 when it has one, for an array of
    fewer than [2^32] words: a strategy that read any confident word
    scores higher than one that read none. *)
Theorem score_zero_or_at_least_50 (r : page) (nm : string) :
  let ws := match data_words r with Some ws => ws | None => [] end in
  let confident := filter (fun x => Qltb (50 # 1) (conf x)) ws in
  (Z.of_nat (length ws) < 2 ^ 32)%Z ->
  (confident = [] -> score (score_of r nm) = (0 # 1)%Q) /\
  (confident <> [] -> (50 # 1 <= score (score_of r nm))%Q).
Proof.
  cbv zeta. intros Hlen. unfold score_of. cbn [score].
  pose proof (filter_length_le (fun x => Qltb (50 # 1) (conf x))
                match data_words r with Some ws => ws | None => [] end) as Hle.
  set (g := filter _ _) in *. split; [intros ->; reflexivity|].
  intros Hne. assert (F : Forall (fun x => (50 # 1 < conf x)%Q) g).
  { apply Forall_forall. intros x Hx. apply filter_In in Hx. destruct Hx as [_ Hx].
    unfold Qltb in Hx. apply negb_true_iff in Hx.
    apply Qnot_le_lt. intros L. apply Qle_bool_iff in L. congruence. }
  destruct g as [|a g'] eqn:G; [congruence|]. clear Hne. rewrite <- G in *.
  assert (N : (0 < Z.of_nat (length g))%Z) by (rewrite G; cbn [length]; lia).
  pose proof (sum_conf_lower g F (0 # 1)%Q 0%Z (Z.le_refl 0)) as S.
  cbn [Z.add] in S. specialize (S ltac:(lia)).
  specialize (S ltac:(change (inject_Z (50 * 0)) with (0 # 1)%Q; lra)).
  fold (sum_conf g) in S. unfold avg_conf.
  destruct (Qle_bool infinity (sum_conf g)).
  - unfold infinity. change (50 # 1)%Q with (inject_Z 50). rewrite <- Zle_Qle. lia.
  - change (50 # 1)%Q with (inject_Z 50). apply to_double_lower; [lia|].
    apply Qle_shift_div_l.
    + change (0 # 1)%Q with (inject_Z 0). rewrite <- Zlt_Qlt. exact N.
    + rewrite <- inject_Z_mult. exact S.
Qed.

Lemma score_zero_or_at_least_50_witness :
  (50 # 1 <= score (score_of five_page "gentle"))%Q.
Proof.
  refine (proj2 (score_zero_or_at_least_50 five_page "gentle"%string _) _).
  - vm_compute. reflexivity.
  - vm_compute. discriminate.
Defined.

(** The rounding decides a pick.  The three confidences of
    [near_page] have the exact average 50.8, which would tie with
    [letter_page] and keep the first page; the code, which rounds after
    each addition and after the division, scores the page under the
    50.8 of [letter_page]: the selector takes the second page, and the
    call returns the empty result. *)
Lemma rounded_average_decides :
  (((501 # 10) + (505 # 10) + (518 # 10)) / (3 # 1) == 508 # 10)%Q /\
  (score (score_of near_page "high-contrast")
     < score (score_of letter_page "clean-bw"))%Q /\
  option_map name (select_best (scored_pages env_near_tie)) = Some "clean-bw"%string /\
  fst (extractTextFromImage env_near_tie some_path []) = Return empty.
Proof.
  split; [reflexivity|]. split; [reflexivity|]. split; vm_compute; reflexivity.
Qed.

(** ** The entry point: what the caller gets *)

Lemma trim_idempotent (s : jsstring) : trim (trim s) = trim s.
Proof. apply tight_trim, trim_tight. Qed.

Lemma multi_pass_value_shape (best : scored) :
  let r := multi_pass_value best in
  fields r = parseOcrText (ocr_text_raw r) /\
  (forall t, ocr_text_raw r = Some t -> trim t <> []) /\
  (ocr_text_raw r = None <-> r = empty).
Proof.
  unfold multi_pass_value. cbv zeta.
  destruct (Nat.ltb_spec (length (trim (buildCleanText (data best)))) 2) as [L|L].
  - split; [reflexivity|]. split; [discriminate|]. tauto.
  - cbn [fields ocr_text_raw]. split; [reflexivity|]. split.
    + intros t H. injection H as <-. intros E. rewrite E in L. cbn [length] in L. lia.
    + split; discriminate.
Qed.

Lemma fallback_result_shape (e : env) :
  let r := fallback_result e in
  fields r = parseOcrText (ocr_text_raw r) /\
  (forall t, ocr_text_raw r = Some t -> trim t <> []) /\
  (ocr_text_raw r = None <-> r = empty).
Proof.
  unfold fallback_result, fallback_text. cbv zeta.
  destruct (recognize_image e) as [d|err];
    [|split; [reflexivity|]; split; [discriminate | tauto]].
  destruct (data_text d) as [t0|]; cbn [option_map];
    [|split; [reflexivity|]; split; [discriminate | tauto]].
  destruct (trim t0) as [|c t] eqn:T;
    [split; [reflexivity|]; split; [discriminate | tauto]|].
  cbn [fields ocr_text_raw]. split; [reflexivity|]. split.
  - intros t' H. injection H as <-. rewrite <- T, trim_idempotent, T. discriminate.
  - split; discriminate.
Qed.

(** X10: what every call of [extractTextFromImage] returns.  The six
    parsed fields are always the parse of the returned [ocr_text_raw];
    [ocr_text_raw] is null or a text that is not blank; and it is null
    only in the empty result, so that a caller who tests [ocr_text_raw]
    (the [has_text] flag of the routes) and finds it null knows that
    every field is null. *)
Theorem extract_result_shape
  (e : env) (imagePath : option jsstring) (fs : files) :
  exists r fs',
    extractTextFromImage e imagePath fs = (Return r, fs') /\
    fields r = parseOcrText (ocr_text_raw r) /\
    (forall t, ocr_text_raw r = Some t -> trim t <> []) /\
    (ocr_text_raw r = None <-> r = empty).
Proof.
  assert (Z : fields empty = parseOcrText (ocr_text_raw empty) /\
              (forall t, ocr_text_raw empty = Some t -> trim t <> []) /\
              (ocr_text_raw empty = None <-> empty = empty)).
  { split; [reflexivity|]. split; [discriminate | tauto]. }
  destruct imagePath as [[|c p]|]; try (exists empty, fs; split; [reflexivity | exact Z]).
  destruct (existsSync_image e) eqn:Hex.
  2:{ exists empty, fs. split; [|exact Z].
      unfold extractTextFromImage. rewrite Hex. reflexivity. }
  destruct (extract_run e c p fs Hex) as [fs' E].
  eexists _, fs'. split; [exact E|].
  destruct (all_ok e); [|apply fallback_result_shape].
  destruct (select_best (scored_pages e)); [apply multi_pass_value_shape | exact Z].
Qed.

(** X11: the call touches no file but its own temporaries: a file that
    is not one of the three temporary files exists after the call
    exactly if it existed before, on every exit path. *)
Theorem extract_touches_only_temporaries
  (e : env) (imagePath : option jsstring) (fs : files) (f : nat) :
  ~ In f tmp_indices ->
  file_exists f (snd (extractTextFromImage e imagePath fs)) = file_exists f fs.
Proof.
  intros Hf. destruct imagePath as [[|c p]|]; try reflexivity.
  destruct (existsSync_image e) eqn:Hex.
  2:{ unfold extractTextFromImage. rewrite Hex. reflexivity. }
  rewrite (extract_files e c p fs f Hex). cbv zeta.
  assert (T : existsb (Nat.eqb f) tmp_indices = false).
  { destruct (existsb (Nat.eqb f) tmp_indices) eqn:X; [|reflexivity].
    apply existsb_exists in X. destruct X as (i & Hi & X).
    apply Nat.eqb_eq in X. subst i. contradiction. }
  rewrite T. cbn [andb negb orb]. destruct (file_exists f fs); reflexivity.
Qed.

Lemma extract_touches_only_temporaries_witness :
  file_exists 7 (snd (extractTextFromImage env_unlink_fails some_path [7])) = true.
Proof.
  rewrite (extract_touches_only_temporaries env_unlink_fails some_path [7] 7).
  - reflexivity.
  - cbn. lia.
Defined.

Lemma forallb_exists_false {A} (f : A -> bool) (l : list A) :
  forallb f l = false -> exists x, In x l /\ f x = false.
Proof.
  induction l as [|a l IH]; cbn [forallb]; [discriminate|].
  destruct (f a) eqn:Fa; cbn [andb].
  - intros H. destruct (IH H) as (x & Hx & Fx). exists x. split; [right|]; assumption.
  - intros _. exists a. split; [left; reflexivity | exact Fa].
Qed.

(** X22: which temporary files outlive the call.  A temporary file that
    was not there before is on the disk, once the call is over and
    every write has landed, exactly when its preprocessing resolved
    and either [unlinkSync] threw for it or its write came too late for
    the [finally] block, which takes another preprocessing that was
    rejected while this one was pending. *)
Theorem temporary_survives_iff
  (e : env) (imagePath : option jsstring) (fs : files) (f : nat) :
  path_missing imagePath = false ->
  existsSync_image e = true ->
  file_exists f fs = false ->
  (file_exists f (snd (extractTextFromImage e imagePath fs)) = true <->
   In f tmp_indices /\ toFile e f = Resolved tt /\
   (unlinkSync_ok e f = false \/
    (toFile_late e f = true /\
     exists i err, In i tmp_indices /\ toFile e i = Rejected err))).
Proof.
  intros Hp Hex Hnew. destruct imagePath as [[|c p]|]; try discriminate Hp.
  rewrite (extract_files e c p fs f Hex). cbv zeta. rewrite Hnew. cbn [orb].
  assert (T : existsb (Nat.eqb f) tmp_indices = true <-> In f tmp_indices).
  { rewrite existsb_exists. split.
    - intros (i & Hi & E). apply Nat.eqb_eq in E. subst i. exact Hi.
    - intros Hi. exists f. split; [exact Hi | apply Nat.eqb_refl]. }
  assert (W : written_in_time e f = false <->
              toFile_late e f = true /\
              exists i err, In i tmp_indices /\ toFile e i = Rejected err).
  { unfold written_in_time, preprocessing_ok. rewrite orb_false_iff, negb_false_iff.
    split.
    - intros [A L]. split; [exact L|].
      destruct (forallb_exists_false _ _ A) as (i & Hi & R).
      destruct (toFile e i) as [u|err] eqn:Ei; [discriminate R|].
      exists i, err. split; assumption.
    - intros [L (i & err & Hi & Ei)]. split; [|exact L].
      destruct (forallb _ tmp_indices) eqn:A; [|reflexivity].
      rewrite forallb_forall in A. specialize (A i Hi). rewrite Ei in A. discriminate A. }
  rewrite <- W. clear W.
  destruct (existsb (Nat.eqb f) tmp_indices) eqn:X.
  - pose proof (proj1 T eq_refl) as Hin.
    destruct (toFile e f) as [[]|err]; cbn [andb orb negb].
    + destruct (written_in_time e f), (unlinkSync_ok e f); cbn [andb orb negb];
        split; intros H; try discriminate H; try reflexivity;
        try (split; [exact Hin|]; split; [reflexivity|]; auto; fail);
        destruct H as (_ & _ & [H|H]); discriminate H.
    + split; [discriminate|]. intros (_ & H & _). discriminate H.
  - cbn [andb orb negb]. split; [discriminate|]. intros (Hin & _).
    apply T in Hin. discriminate Hin.
Qed.

Lemma temporary_survives_iff_witness :
  file_exists 0 (snd (extractTextFromImage env_late_writes some_path [])) = true.
Proof.
  apply (temporary_survives_iff env_late_writes some_path [] 0); try reflexivity.
  split; [cbn; tauto|]. split; [reflexivity|]. right. split; [reflexivity|].
  exists 2, "bad threshold"%string. split; [cbn; tauto | reflexivity].
Defined.

(** X12: when every promise of the fan-out resolves, the result comes
    from the best-scoring page alone, whatever the pass on the plain
    image would give: the pick is the first page of highest score, and
    when its cleaned transcript has trimmed length at least 2 that
    transcript is [ocr_text_raw] and the fields are its parse. *)
Theorem all_resolved_uses_best_page
  (e : env) (imagePath : option jsstring) (fs : files) :
  path_missing imagePath = false ->
  existsSync_image e = true ->
  all_ok e = true ->
  exists best l1 l2,
    scored_pages e = l1 ++ best :: l2 /\
    Forall (fun y => (score y < score best)%Q) l1 /\
    Forall (fun y => (score y <= score best)%Q) l2 /\
    fst (extractTextFromImage e imagePath fs) = Return (multi_pass_value best) /\
    (2 <= length (trim (buildCleanText (data best))) ->
     multi_pass_value best =
       mkResult (Some (buildCleanText (data best)))
                (parseOcrText (Some (buildCleanText (data best))))).
Proof.
  intros Hp Hex Hok. destruct imagePath as [[|c p]|]; try discriminate Hp.
  destruct (extract_run e c p fs Hex) as [fs' E]. rewrite E, Hok. cbn [fst].
  destruct (scored_pages_best e Hok) as [b Hb].
  destruct (scored_pages e) as [|x l] eqn:S; [discriminate Hb|].
  destruct (sort_head (x :: l)) as (l1 & best & l2 & rest & El & Es & H1 & H2);
    [discriminate|].
  assert (Eb : select_best (x :: l) = Some best) by (unfold select_best; rewrite Es; reflexivity).
  exists best, l1, l2. rewrite Eb. repeat (split; [assumption || reflexivity|]).
  intros L. unfold multi_pass_value. cbv zeta.
  destruct (Nat.ltb_spec (length (trim (buildCleanText (data best)))) 2); [lia | reflexivity].
Qed.

Lemma all_resolved_uses_best_page_witness :
  exists best,
    fst (extractTextFromImage env_unlink_fails some_path []) =
      Return (multi_pass_value best).
Proof.
  destruct (all_resolved_uses_best_page env_unlink_fails some_path [])
    as (best & l1 & l2 & _ & _ & _ & E & _); try reflexivity.
  exists best. exact E.
Defined.

(** * The page script *)

Import Html.

(** ** Escaping *)

Lemma replace_chr_flat (p : char -> bool) (by_ s : jsstring) (q : option char) :
  replace_from (Chr p) by_ q s 0 = flat_map (fun c => if p c then by_ else [c]) s.
Proof.
  revert q; induction s as [|c s IH]; intros q; [reflexivity|].
  cbn [replace_from flat_map]. unfold match_here. cbn [mt snd].
  destruct (p c).
  - replace (matched_len (c :: s) s) with 1
      by (unfold matched_len; cbn [length]; lia).
    f_equal. apply IH.
  - cbn [app]. f_equal. apply IH.
Qed.

Lemma flat_map_twice {A B C} (f : A -> list B) (g : B -> list C) (l : list A) :
  flat_map g (flat_map f l) = flat_map (fun a => flat_map g (f a)) l.
Proof.
  induction l as [|a l IH]; [reflexivity|]. cbn [flat_map].
  rewrite flat_map_app, IH. reflexivity.
Qed.

Lemma escape_unit_cases (c : char) :
  (c = AMP /\ escape_unit c = [38; 97; 109; 112; 59]%N) \/
  (c = LT /\ escape_unit c = [38; 108; 116; 59]%N) \/
  (c = GT /\ escape_unit c = [38; 103; 116; 59]%N) \/
  (c = QUOT /\ escape_unit c = [38; 113; 117; 111; 116; 59]%N) \/
  (c <> AMP /\ c <> LT /\ c <> GT /\ c <> QUOT /\ escape_unit c = [c]).
Proof.
  unfold escape_unit.
  destruct (N.eqb_spec AMP c) as [<-|H1]; [left; split; reflexivity|].
  destruct (N.eqb_spec LT c) as [<-|H2]; [right; left; split; reflexivity|].
  destruct (N.eqb_spec GT c) as [<-|H3]; [right; right; left; split; reflexivity|].
  destruct (N.eqb_spec QUOT c) as [<-|H4]; [right; right; right; left; split; reflexivity|].
  right; right; right; right. repeat split; congruence.
Qed.

(** X13: the four replacements of [escapeHtml], made one after the
    other, amount to one pass over the text in which each code unit is
    escaped on its own: the entities that an earlier replacement writes
    are not touched by a later one.  Escaping therefore goes through
    concatenation, as the page relies on when it escapes the pieces of
    a row one by one. *)
Theorem escapeHtml_one_pass :
  (forall s, escapeHtml s = flat_map escape_unit s) /\
  (forall a b, escapeHtml (a ++ b) = escapeHtml a ++ escapeHtml b).
Proof.
  assert (P : forall s, escapeHtml s = flat_map escape_unit s).
  { intros s. unfold escapeHtml, replace, quotRegex, gtRegex, ltRegex, ampRegex.
    rewrite !replace_chr_flat, !flat_map_twice. apply flat_map_ext. intros c.
    unfold escape_unit.
    destruct (N.eqb_spec AMP c) as [<-|H1]; [reflexivity|].
    destruct (N.eqb_spec LT c) as [<-|H2]; [reflexivity|].
    destruct (N.eqb_spec GT c) as [<-|H3]; [reflexivity|].
    destruct (N.eqb_spec QUOT c) as [<-|H4]; [reflexivity|].
    cbn [flat_map app]. apply N.eqb_neq in H2, H3, H4.
    rewrite H2. cbn [flat_map app]. rewrite H3. cbn [flat_map app]. rewrite H4.
    reflexivity. }
  split; [exact P|]. intros a b. rewrite !P. apply flat_map_app.
Qed.

(** X14: an escaped text holds no [<], no [>] and no double quote, and
    each [&] in it starts one of the four entities. *)
Theorem escapeHtml_no_markup (s : jsstring) :
  (forall x, In x (escapeHtml s) -> x <> LT /\ x <> GT /\ x <> QUOT) /\
  (forall a b, escapeHtml s = a ++ AMP :: b ->
     exists t, (t = of_string "amp;" \/ t = of_string "lt;" \/
                t = of_string "gt;" \/ t = of_string "quot;")
               /\ firstn (length t) b = t).
Proof.
  rewrite (proj1 escapeHtml_one_pass s). split.
  - intros x Hx. apply in_flat_map in Hx. destruct Hx as (c & _ & Hx).
    destruct (escape_unit_cases c) as [[_ E]|[[_ E]|[[_ E]|[[_ E]|(H1 & H2 & H3 & H4 & E)]]]];
      rewrite E in Hx; cbn [In] in Hx;
      repeat (destruct Hx as [<-|Hx]; [repeat split; (discriminate || congruence)|]);
      destruct Hx.
  - induction s as [|c s IH]; intros a b E; [destruct a; discriminate E|].
    cbn [flat_map] in E.
    destruct (escape_unit_cases c) as [[_ U]|[[_ U]|[[_ U]|[[_ U]|(H1 & _ & _ & _ & U)]]]];
      rewrite U in E.
    5:{ destruct a as [|x a]; cbn [app] in E; injection E as E1 E2; [congruence|].
        apply (IH a b E2). }
    1: destruct a as [|x1 a]; cbn [app] in E;
      [injection E as <-; exists (of_string "amp;"); split; [tauto | reflexivity]|].
    2: destruct a as [|x1 a]; cbn [app] in E;
      [injection E as <-; exists (of_string "lt;"); split; [tauto | reflexivity]|].
    3: destruct a as [|x1 a]; cbn [app] in E;
      [injection E as <-; exists (of_string "gt;"); split; [tauto | reflexivity]|].
    4: destruct a as [|x1 a]; cbn [app] in E;
      [injection E as <-; exists (of_string "quot;"); split; [tauto | reflexivity]|].
    all: injection E as _ E.
    all: repeat (destruct a as [|? a]; cbn [app] in E; [discriminate E|]; injection E as _ E).
    all: apply (IH a b E).
Qed.

(** X15: escaping loses nothing: two texts with the same escaped form
    are the same text. *)
Theorem escapeHtml_injective (a b : jsstring) :
  escapeHtml a = escapeHtml b -> a = b.
Proof.
  rewrite !(proj1 escapeHtml_one_pass). revert b.
  induction a as [|x a IH]; intros [|y b]; cbn [flat_map]; try reflexivity.
  - destruct (escape_unit_cases y) as [[_ E]|[[_ E]|[[_ E]|[[_ E]|(_ & _ & _ & _ & E)]]]];
      rewrite E; discriminate.
  - destruct (escape_unit_cases x) as [[_ E]|[[_ E]|[[_ E]|[[_ E]|(_ & _ & _ & _ & E)]]]];
      rewrite E; discriminate.
  - destruct (escape_unit_cases x) as [[-> E]|[[-> E]|[[-> E]|[[-> E]|(X1 & X2 & X3 & X4 & E)]]]];
    destruct (escape_unit_cases y) as [[-> F]|[[-> F]|[[-> F]|[[-> F]|(Y1 & Y2 & Y3 & Y4 & F)]]]];
      rewrite ?E, ?F; cbn [app]; intros H; injection H; intros; subst;
      try discriminate; try congruence;
      f_equal; apply IH; assumption.
Qed.

Lemma escapeHtml_injective_witness :
  of_string "a<b" = of_string "a<b".
Proof.
  apply escapeHtml_injective. reflexivity.
Defined.

(** * The photo routes *)

Import Routes Visits.

Lemma extract_outcomes (e : env) (imagePath : option jsstring) (fs : files) :
  exists r fs',
    extractTextFromImage e imagePath fs = (Return r, fs') /\
    (r = empty \/ (exists best, r = multi_pass_value best) \/ r = fallback_result e).
Proof.
  destruct imagePath as [[|c p]|];
    try (exists empty, fs; split; [reflexivity | left; reflexivity]).
  destruct (existsSync_image e) eqn:Hex.
  2:{ exists empty, fs. split; [|left; reflexivity].
      unfold extractTextFromImage. rewrite Hex. reflexivity. }
  destruct (extract_run e c p fs Hex) as [fs' E].
  eexists _, fs'. split; [exact E|].
  destruct (all_ok e); [|right; right; reflexivity].
  destruct (select_best (scored_pages e)) as [b|]; [|left; reflexivity].
  right. left. exists b. reflexivity.
Qed.

Lemma untruthy_raw_means_null (r : result) :
  fields r = parseOcrText (ocr_text_raw r) ->
  (forall t, ocr_text_raw r = Some t -> trim t <> []) ->
  truthy (ocr_text_raw r) = false -> fields r = parsed_null.
Proof.
  intros F T U. rewrite F. destruct (ocr_text_raw r) as [[|c t]|]; try reflexivity.
  discriminate U.
Qed.

(** The OCR call of a handler returns, changes nothing but the
    temporary files, and gives six null fields when [ocr_text_raw] is
    falsy. *)
Lemma h_extract_spec (h : henv) (p : jsstring) (w : world) :
  exists r fs',
    h_extract h p w = (Return r, mkWorld (disk w) (unlinks w) fs' (photos w)) /\
    (truthy (ocr_text_raw r) = false -> fields r = parsed_null).
Proof.
  unfold h_extract.
  match goal with |- context [extractTextFromImage ?e ?i ?f] =>
    destruct (extract_outcomes e i f) as (r & fs' & E & C); rewrite E
  end.
  exists r, fs'. split; [reflexivity|].
  destruct C as [ -> | [ [b -> ] | -> ] ].
  - reflexivity.
  - destruct (multi_pass_value_shape b) as (F & T & _). apply untruthy_raw_means_null; assumption.
  - match goal with |- context [fallback_result ?e] =>
      destruct (fallback_result_shape e) as (F & T & _)
    end. apply untruthy_raw_means_null; assumption.
Qed.

Lemma on_disk_remove (p : jsstring) (d : list jsstring) :
  on_disk p (disk_remove p d) = false.
Proof.
  unfold on_disk, disk_remove. destruct (set_has _ p) eqn:E; [|reflexivity].
  apply set_has_In in E. apply filter_In in E. destruct E as [_ E].
  apply negb_true_iff in E. assert (X : Js.eqb p p = true) by (apply eqb_eq; reflexivity).
  congruence.
Qed.

Lemma on_disk_remove_other (p q : jsstring) (d : list jsstring) :
  q <> p -> on_disk q (disk_remove p d) = on_disk q d.
Proof.
  intros N. unfold on_disk, disk_remove.
  destruct (set_has d q) eqn:E.
  - apply set_has_In. apply filter_In. apply set_has_In in E. split; [exact E|].
    apply negb_true_iff. destruct (Js.eqb p q) eqn:X; [|reflexivity].
    apply eqb_eq in X. congruence.
  - destruct (set_has (filter _ d) q) eqn:F; [|reflexivity].
    apply set_has_In in F. apply filter_In in F. destruct F as [F _].
    apply set_has_In in F. congruence.
Qed.

(** The [catch] block of the two POST routes: when it answers, the
    upload is not on the disk any more, and the table is as it was. *)
Lemma drop_upload_spec (h : henv) (req : request) (err : error) (w : world) :
  photos (snd (drop_upload h req err w)) = photos w /\
  tmp_files (snd (drop_upload h req err w)) = tmp_files w /\
  forall resp, fst (drop_upload h req err w) = Return resp ->
    resp = server_error err /\
    (forall f, req_file req = Some f ->
       on_disk (path f) (disk (snd (drop_upload h req err w))) = false).
Proof.
  unfold drop_upload, hbind. destruct (req_file req) as [f|].
  - unfold h_existsSync, h_unlinkSync.
    destruct (on_disk (path f) (disk w)) eqn:D.
    + cbv beta iota zeta. rewrite D.
      destruct (unlink_ok h (unlinks w)); unfold hret; cbn [fst snd photos tmp_files disk].
      * split; [reflexivity|]. split; [reflexivity|]. intros resp H.
        split; [congruence|]. intros f' Hf. injection Hf as <-. apply on_disk_remove.
      * split; [reflexivity|]. split; [reflexivity|]. intros resp H. discriminate H.
    + unfold hret. cbn [fst snd]. split; [reflexivity|]. split; [reflexivity|].
      intros resp H. split; [congruence|]. intros f' Hf. injection Hf as <-. exact D.
  - unfold hret. cbn [fst snd]. split; [reflexivity|]. split; [reflexivity|].
    intros resp H. split; [congruence|]. discriminate.
Qed.

Ltac catch_case hh rq er wx :=
  let P1 := fresh "P1" in let P2 := fresh "P2" in let P3 := fresh "P3" in
  let rs := fresh "rs" in let e2 := fresh "e2" in let w2 := fresh "w2" in
  destruct (drop_upload_spec hh rq er wx) as (P1 & P2 & P3);
  destruct (drop_upload hh rq er wx) as [[rs|e2] w2];
  cbn [fst snd photos disk tmp_files] in *.

(** X16: [POST /scan] stores nothing.  The table [photos] is never
    changed.  Without a file the answer is 400 and nothing is touched;
    with a file every answer is 200 or 500, and when the handler has
    answered the uploaded file is no longer on the disk. *)
Theorem scan_stores_nothing (h : henv) (req : request) (w : world) :
  photos (snd (scan h req w)) = photos w /\
  forall resp, fst (scan h req w) = Return resp ->
    match req_file req with
    | None => status resp = 400 /\ snd (scan h req w) = w
    | Some f =>
        (status resp = 200 \/ status resp = 500) /\
        on_disk (path f) (disk (snd (scan h req w))) = false
    end.
Proof.
  unfold scan, htry. destruct (req_file req) as [f|] eqn:F.
  2:{ unfold hret. cbn [fst snd]. split; [reflexivity|]. intros resp H.
      injection H as <-. split; reflexivity. }
  unfold hbind. destruct (h_extract_spec h (path f) w) as (r & fs' & E & _).
  rewrite E. unfold h_existsSync, h_unlinkSync.
  cbv beta iota zeta. cbn [disk unlinks tmp_files photos].
  destruct (on_disk (path f) (disk w)) eqn:D.
  - cbv beta iota zeta. cbn [disk unlinks tmp_files photos]. rewrite ?D.
    destruct (unlink_ok h (unlinks w)).
    + unfold hret. cbn [fst snd photos disk]. split; [reflexivity|].
      intros resp H. injection H as <-. split; [left; reflexivity | apply on_disk_remove].
    + match goal with |- context [drop_upload h req ?e ?wx] => catch_case h req e wx end.
      * split; [exact P1|]. intros resp0 H. injection H as <-.
        destruct (P3 _ eq_refl) as [-> Q]. split; [right; reflexivity | apply (Q f F)].
      * split; [exact P1|]. intros resp0 H. discriminate H.
  - unfold hret. cbn [fst snd photos disk]. split; [reflexivity|].
    intros resp H. injection H as <-. split; [left; reflexivity | exact D].
Qed.

Lemma scan_ocr (h : henv) (req : request) (w : world) (resp : response) (o : ocr_json) :
  fst (scan h req w) = Return resp -> ocr_of_response resp = Some o ->
  exists r, o = ocr_to_json r /\
            (truthy (ocr_text_raw r) = false -> fields r = parsed_null).
Proof.
  unfold scan, htry. destruct (req_file req) as [f|] eqn:F.
  2:{ unfold hret. cbn [fst]. intros H. injection H as <-. discriminate. }
  unfold hbind. destruct (h_extract_spec h (path f) w) as (r & fs' & E & T).
  rewrite E. unfold h_existsSync, h_unlinkSync.
  cbv beta iota zeta. cbn [disk unlinks tmp_files photos].
  destruct (on_disk (path f) (disk w)) eqn:D.
  - cbv beta iota zeta. cbn [disk unlinks tmp_files photos]. rewrite ?D.
    destruct (unlink_ok h (unlinks w)).
    + unfold hret. cbn [fst]. intros H. injection H as <-. intros O.
      injection O as <-. exists r. split; [reflexivity | exact T].
    + match goal with |- context [drop_upload h req ?e ?wx] => catch_case h req e wx end.
      * intros H. injection H as <-. destruct (P3 _ eq_refl) as [-> _]. discriminate.
      * discriminate.
  - unfold hret. cbn [fst]. intros H. injection H as <-. intros O.
    injection O as <-. exists r. split; [reflexivity | exact T].
Qed.

Lemma upload_cases (h : henv) (req : request) (w : world) :
  (exists f uid r fs' id,
     req_file req = Some f /\ req_user req = Some uid /\
     isNaN (parseFloat h (latitude req)) = false /\
     isNaN (parseFloat h (longitude req)) = false /\
     (truthy (ocr_text_raw r) = false -> fields r = parsed_null) /\
     let lat := parseFloat h (latitude req) in
     let lng := parseFloat h (longitude req) in
     let p := mkPhoto uid (filename f) (path f) lat lng
                      (num_or_null (parseFloat h (accuracy req)))
                      (reverseGeocode h lat lng) r (company_of req) (captured_of req) in
     insert_photo h p = Resolved id /\
     upload h req w =
       (Return (mkResponse 201
                  (Saved id (filename f) (of_string "/uploads/" ++ filename f)
                         (reverseGeocode h lat lng) lat lng (company_of req)
                         (ocr_to_json r))),
        mkWorld (disk w) (unlinks w) fs' (photos w ++ [(id, p)])))
  \/ (photos (snd (upload h req w)) = photos w /\
      forall resp, fst (upload h req w) = Return resp ->
        (status resp = 400 \/ status resp = 500) /\
        ocr_of_response resp = None /\
        forall f, req_file req = Some f ->
          on_disk (path f) (disk (snd (upload h req w))) = false).
Proof.
  unfold upload, htry. destruct (req_file req) as [f|] eqn:F.
  2:{ right. unfold hret. cbn [fst snd]. split; [reflexivity|]. intros resp H.
      injection H as <-. split; [left; reflexivity|]. split; [reflexivity|]. discriminate. }
  destruct (isNaN (parseFloat h (latitude req)) || isNaN (parseFloat h (longitude req))) eqn:N.
  - right. unfold hbind, h_unlinkSync.
    destruct (on_disk (path f) (disk w)) eqn:D; [destruct (unlink_ok h (unlinks w))|].
    + unfold hret. cbn [fst snd photos disk]. split; [reflexivity|]. intros resp H.
      injection H as <-. split; [left; reflexivity|]. split; [reflexivity|].
      intros f' Hf. injection Hf as <-. apply on_disk_remove.
    + match goal with |- context [drop_upload h req ?e ?wx] => catch_case h req e wx end.
      * split; [exact P1|]. intros resp0 H. injection H as <-.
        destruct (P3 _ eq_refl) as [-> Q]. split; [right; reflexivity|].
        split; [reflexivity|]. intros f' Hf. injection Hf as <-. apply (Q f F).
      * split; [exact P1|]. intros resp0 H. discriminate H.
    + match goal with |- context [drop_upload h req ?e ?wx] => catch_case h req e wx end.
      * split; [exact P1|]. intros resp0 H. injection H as <-.
        destruct (P3 _ eq_refl) as [-> Q]. split; [right; reflexivity|].
        split; [reflexivity|]. intros f' Hf. injection Hf as <-. apply (Q f F).
      * split; [exact P1|]. intros resp0 H. discriminate H.
  - apply orb_false_elim in N. destruct N as [N1 N2].
    unfold hbind. destruct (h_extract_spec h (path f) w) as (r & fs' & E & T).
    rewrite E. unfold h_user. destruct (req_user req) as [uid|] eqn:U.
    + unfold hret, h_insert. cbv beta iota zeta.
      cbn [disk unlinks tmp_files photos].
      match goal with |- context [insert_photo h ?p] =>
        destruct (insert_photo h p) as [id|err] eqn:I end; cbv beta iota zeta.
      * left. exists f, uid, r, fs', id. split; [reflexivity|]. split; [reflexivity|].
        split; [exact N1|]. split; [exact N2|]. split; [exact T|].
        cbv zeta. split; [exact I|]. reflexivity.
      * right.
        match goal with |- context [drop_upload h req ?e ?wx] => catch_case h req e wx end.
        -- split; [exact P1|]. intros resp0 H. injection H as <-.
           destruct (P3 _ eq_refl) as [-> Q]. split; [right; reflexivity|].
           split; [reflexivity|]. intros f' Hf. injection Hf as <-. apply (Q f F).
        -- split; [exact P1|]. intros resp0 H. discriminate H.
    + right. unfold hthrow.
      match goal with |- context [drop_upload h req ?e ?wx] => catch_case h req e wx end.
      * split; [exact P1|]. intros resp0 H. injection H as <-.
        destruct (P3 _ eq_refl) as [-> Q]. split; [right; reflexivity|].
        split; [reflexivity|]. intros f' Hf. injection Hf as <-. apply (Q f F).
      * split; [exact P1|]. intros resp0 H. discriminate H.
Qed.

(** X17: in an answer of [POST /scan] or of [POST /upload] that carries
    an [ocr] object, [has_text: false] comes with six null fields. *)
Theorem no_text_answer_has_null_fields
    (h : henv) (req : request) (w : world) (resp : response) (o : ocr_json) :
  fst (scan h req w) = Return resp \/ fst (upload h req w) = Return resp ->
  ocr_of_response resp = Some o ->
  has_text o = false ->
  text o = None /\ json_other_text o = None /\ json_address o = None /\
  contact_number o = None /\ email o = None /\ url o = None.
Proof.
  intros R O T.
  assert (X : exists r, o = ocr_to_json r /\
                        (truthy (ocr_text_raw r) = false -> fields r = parsed_null)).
  { destruct R as [R|R].
    - exact (scan_ocr h req w resp o R O).
    - destruct (upload_cases h req w) as [(f & uid & r & fs' & id & _ & _ & _ & _ & N & _ & E)|(_ & B)].
      + rewrite E in R. cbn [fst] in R. injection R as <-. injection O as <-.
        exists r. split; [reflexivity | exact N].
      + destruct (B resp R) as (_ & Z & _). congruence. }
  destruct X as (r & -> & N). unfold ocr_to_json in *. cbn [has_text] in T.
  cbn [text json_other_text json_address contact_number email url].
  rewrite (N T). repeat split.
Qed.

Lemma no_text_answer_has_null_fields_witness :
  text (mkOcrJson None None None None None None false) = None /\
  json_other_text (mkOcrJson None None None None None None false) = None /\
  json_address (mkOcrJson None None None None None None false) = None /\
  contact_number (mkOcrJson None None None None None None false) = None /\
  email (mkOcrJson None None None None None None false) = None /\
  url (mkOcrJson None None None None None None false) = None.
Proof.
  apply (no_text_answer_has_null_fields quiet_server scan_request one_upload
           (mkResponse 200 (Scanned (mkOcrJson None None None None None None false)))).
  - left. vm_compute. reflexivity.
  - reflexivity.
  - reflexivity.
Defined.

(** X18: [POST /upload] stores one row or none.  An answer 201 means
    that one row was appended to [photos], for the user of the request,
    with the name and the path of the uploaded file and coordinates
    that are numbers, and that the file is kept.  Every other answer is
    400 or 500, leaves the table as it was and the uploaded file off
    the disk.  When the handler throws, the table is as it was. *)
Theorem upload_saves_one_row_or_none (h : henv) (req : request) (w : world) :
  (forall resp, fst (upload h req w) = Return resp ->
     (status resp = 201 /\
      exists f uid id p,
        req_file req = Some f /\ req_user req = Some uid /\
        json resp = Saved id (filename f) (of_string "/uploads/" ++ filename f)
                          (photo_address p) (photo_latitude p) (photo_longitude p)
                          (photo_company p) (ocr_to_json (photo_ocr p)) /\
        user_id p = uid /\ photo_name p = filename f /\ file_path p = path f /\
        isNaN (photo_latitude p) = false /\ isNaN (photo_longitude p) = false /\
        insert_photo h p = Resolved id /\
        photos (snd (upload h req w)) = photos w ++ [(id, p)] /\
        disk (snd (upload h req w)) = disk w)
     \/
     ((status resp = 400 \/ status resp = 500) /\
      photos (snd (upload h req w)) = photos w /\
      forall f, req_file req = Some f ->
        on_disk (path f) (disk (snd (upload h req w))) = false)) /\
  (forall err, fst (upload h req w) = Throw err ->
     photos (snd (upload h req w)) = photos w).
Proof.
  destruct (upload_cases h req w)
    as [(f & uid & r & fs' & id & F & U & N1 & N2 & _ & I & E)|(P & B)].
  - cbv zeta in I, E. rewrite E. cbn [fst snd photos disk]. split.
    + intros resp R. injection R as <-. left. split; [reflexivity|].
      match type of I with insert_photo h ?p = _ => exists f, uid, id, p end.
      split; [exact F|]. split; [exact U|].
      split; [reflexivity|]. cbn [user_id photo_name file_path photo_latitude photo_longitude].
      repeat (split; [first [reflexivity | assumption]|]). reflexivity.
    + discriminate.
  - split.
    + intros resp R. right. destruct (B resp R) as (S & _ & D). split; [exact S|].
      split; [exact P | exact D].
    + intros _ _. exact P.
Qed.

Lemma upload_saves_one_row_or_none_witness :
  exists id p,
    photos (snd (upload quiet_server upload_request one_upload)) = [(id, p)] /\
    user_id p = 1 /\ photo_name p = of_string "sign.jpg".
Proof.
  destruct (fst (upload quiet_server upload_request one_upload)) as [resp|err] eqn:E.
  - destruct (proj1 (upload_saves_one_row_or_none quiet_server upload_request one_upload)
                resp E) as [(_ & f & uid & id & p & F & U & _ & Hu & Hn & _ & _ & _ & _ & P & _)|(S & _)].
    + exists id, p. split; [exact P|]. vm_compute in F, U. injection F as <-. injection U as <-.
      split; [exact Hu | exact Hn].
    + vm_compute in E. injection E as <-. destruct S as [S|S]; discriminate S.
  - vm_compute in E. discriminate E.
Defined.

Lemma owned_spec (h : henv) (id : jsstring) (uid : nat) (r : row) :
  owned h id uid r = true <->
  id_matches h id (fst r) = true /\ user_id (snd r) = uid.
Proof.
  unfold owned. rewrite andb_true_iff, Nat.eqb_eq. reflexivity.
Qed.

Lemma filter_head_In {A} (f : A -> bool) (l : list A) (x : A) (t : list A) :
  filter f l = x :: t -> In x l /\ f x = true.
Proof.
  intros E. apply filter_In. rewrite E. left. reflexivity.
Qed.

Lemma filter_nil_all {A} (f : A -> bool) (l : list A) :
  filter f l = [] -> forall x, In x l -> f x = false.
Proof.
  intros E x Hx. destruct (f x) eqn:Fx; [|reflexivity].
  assert (X : In x (filter f l)) by (apply filter_In; split; assumption).
  rewrite E in X. destruct X.
Qed.

(** X19: [GET /:id] changes nothing and always answers, with 200, 404
    or 500.  A photo in the answer is a row of the table whose
    [user_id] is the user of the request and whose [id] matches the
    parameter; 404 means that the table has no such row. *)
Theorem get_photo_reads_own_row (h : henv) (req : request) (w : world) :
  snd (get_photo h req w) = w /\
  exists resp,
    fst (get_photo h req w) = Return resp /\
    (status resp = 200 \/ status resp = 404 \/ status resp = 500) /\
    (forall r file_url, json resp = Found r file_url ->
       status resp = 200 /\ In r (photos w) /\
       req_user req = Some (user_id (snd r)) /\
       id_matches h (req_id req) (fst r) = true /\
       file_url = of_string "/uploads/" ++ photo_name (snd r)) /\
    (status resp = 404 ->
       forall r, In r (photos w) -> req_user req = Some (user_id (snd r)) ->
                 id_matches h (req_id req) (fst r) = false).
Proof.
  unfold get_photo, htry, hbind, h_user, h_select, plain_error, hret, hthrow.
  destruct (req_user req) as [uid|] eqn:U; cbv beta iota zeta.
  2:{ split; [reflexivity|]. eexists. split; [reflexivity|]. cbn [status json].
      split; [right; right; reflexivity|]. split; [discriminate|]. discriminate. }
  destruct (select_photo h) as [[]|err]; cbv beta iota zeta.
  2:{ split; [reflexivity|]. eexists. split; [reflexivity|]. cbn [status json].
      split; [right; right; reflexivity|]. split; [discriminate|]. discriminate. }
  destruct (filter (owned h (req_id req) uid) (photos w)) as [|r rows] eqn:Fl.
  - split; [reflexivity|]. eexists. split; [reflexivity|]. unfold not_found. cbn [status json].
    split; [right; left; reflexivity|]. split; [discriminate|].
    intros _ r Hr Hu. pose proof (filter_nil_all _ _ Fl r Hr) as X.
    unfold owned in X. injection Hu as Hu. subst uid. rewrite Nat.eqb_refl, andb_true_r in X. exact X.
  - split; [reflexivity|]. eexists. split; [reflexivity|]. cbn [status json].
    split; [left; reflexivity|]. split; [|discriminate].
    intros r0 u0 J. injection J as <- <-. split; [reflexivity|].
    destruct (filter_head_In _ _ _ _ Fl) as [Hin Ho].
    apply owned_spec in Ho. destruct Ho as [Hm Hu]. subst uid.
    repeat split; assumption.
Qed.

Lemma on_disk_remove_sub (p q : jsstring) (d : list jsstring) :
  on_disk q (disk_remove p d) = true -> on_disk q d = true.
Proof.
  unfold on_disk, disk_remove. intros E. apply set_has_In in E.
  apply filter_In in E. apply set_has_In. exact (proj1 E).
Qed.

Lemma on_disk_removed (p q : jsstring) (d : list jsstring) :
  on_disk q d = true -> on_disk q (disk_remove p d) = false -> q = p.
Proof.
  intros A B. destruct (Js.eqb q p) eqn:E; [apply eqb_eq; exact E|].
  rewrite on_disk_remove_other in B; [congruence|].
  intros ->. assert (X : Js.eqb p p = true) by (apply eqb_eq; reflexivity). congruence.
Qed.

Lemma delete_photo_cases (h : henv) (req : request) (w : world) :
  exists resp w',
    delete_photo h req w = (Return resp, w') /\
    ((w' = w /\
      (status resp = 500 \/
       (status resp = 404 /\
        forall r, In r (photos w) -> matches_request h req r = false)))
     \/
     (exists r,
        In r (photos w) /\ matches_request h req r = true /\
        photos w' = filter (fun r => negb (matches_request h req r)) (photos w) /\
        ((disk w' = disk w /\
          (status resp = 500 \/
           (status resp = 200 /\
            on_disk (upload_path h (photo_name (snd r))) (disk w) = false)))
         \/
         (disk w' = disk_remove (upload_path h (photo_name (snd r))) (disk w) /\
          status resp = 200)))).
Proof.
  unfold delete_photo, htry, hbind, h_user, h_select, h_delete, h_existsSync,
    h_unlinkSync, plain_error, hret, hthrow, matches_request.
  destruct (req_user req) as [uid|] eqn:U; cbv beta iota zeta.
  2:{ eexists _, w. split; [reflexivity|]. left. split; [reflexivity|]. left. reflexivity. }
  destruct (select_photo h) as [[]|err]; cbv beta iota zeta.
  2:{ eexists _, w. split; [reflexivity|]. left. split; [reflexivity|]. left. reflexivity. }
  destruct (filter (owned h (req_id req) uid) (photos w)) as [|r rows] eqn:Fl.
  { eexists _, w. split; [reflexivity|]. left. split; [reflexivity|]. right.
    split; [reflexivity|]. exact (filter_nil_all _ _ Fl). }
  destruct (filter_head_In _ _ _ _ Fl) as [Hin Ho].
  destruct (delete_photo_query h) as [[]|err]; cbv beta iota zeta;
    cbn [disk unlinks tmp_files photos].
  2:{ eexists _, w. split; [reflexivity|]. left. split; [reflexivity|]. left. reflexivity. }
  destruct (on_disk (upload_path h (photo_name (snd r))) (disk w)) eqn:D;
    cbv beta iota zeta; cbn [disk unlinks tmp_files photos]; rewrite ?D.
  - destruct (unlink_ok h (unlinks w)).
    + eexists _, _. split; [reflexivity|]. right. exists r.
      cbn [disk photos status]. split; [exact Hin|]. split; [exact Ho|].
      split; [reflexivity|]. right. split; reflexivity.
    + eexists _, _. split; [reflexivity|]. right. exists r.
      cbn [disk photos status]. split; [exact Hin|]. split; [exact Ho|].
      split; [reflexivity|]. left. split; [reflexivity|]. left. reflexivity.
  - eexists _, _. split; [reflexivity|]. right. exists r.
    cbn [disk photos status]. split; [exact Hin|]. split; [exact Ho|].
    split; [reflexivity|]. left. split; [reflexivity|]. right. split; [reflexivity | exact D].
Qed.

(** X20: [DELETE /:id] always answers, with 200, 404 or 500.  It adds
    no row and no file, keeps every row that the request does not
    select, and removes no file but the one named after a selected row.
    After 200 no selected row is left and the file of one is off the
    disk; 404 means that nothing was selected and nothing changed. *)
Theorem delete_photo_removes_own_rows (h : henv) (req : request) (w : world) :
  exists resp,
    fst (delete_photo h req w) = Return resp /\
    (status resp = 200 \/ status resp = 404 \/ status resp = 500) /\
    (forall r, In r (photos (snd (delete_photo h req w))) -> In r (photos w)) /\
    (forall r, In r (photos w) -> matches_request h req r = false ->
               In r (photos (snd (delete_photo h req w)))) /\
    (forall q, on_disk q (disk (snd (delete_photo h req w))) = true ->
               on_disk q (disk w) = true) /\
    (forall q, on_disk q (disk w) = true ->
               on_disk q (disk (snd (delete_photo h req w))) = false ->
               exists r, In r (photos w) /\ matches_request h req r = true /\
                         q = upload_path h (photo_name (snd r))) /\
    (status resp = 200 ->
       (forall r, In r (photos (snd (delete_photo h req w))) ->
                  matches_request h req r = false) /\
       exists r, In r (photos w) /\ matches_request h req r = true /\
                 on_disk (upload_path h (photo_name (snd r)))
                         (disk (snd (delete_photo h req w))) = false) /\
    (status resp = 404 ->
       snd (delete_photo h req w) = w /\
       forall r, In r (photos w) -> matches_request h req r = false).
Proof.
  destruct (delete_photo_cases h req w) as (resp & w' & E & C). rewrite E.
  cbn [fst snd]. exists resp. split; [reflexivity|].
  destruct C as [(-> & S)|(r & Hin & Hm & P & DD)].
  - split; [destruct S as [S|[S _]]; auto|].
    split; [auto|]. split; [auto|]. split; [auto|].
    split; [intros q A B; congruence|].
    split; [intros S2; destruct S as [S|[S _]]; congruence|].
    intros S4. split; [reflexivity|]. destruct S as [S|[_ S]]; [congruence | exact S].
  - assert (St : status resp = 200 \/ status resp = 500).
    { destruct DD as [(_ & [S|[S _]])|(_ & S)]; auto. }
    split; [destruct St; auto|].
    split; [intros r0 H0; rewrite P in H0; apply filter_In in H0; exact (proj1 H0)|].
    split; [intros r0 H0 M0; rewrite P; apply filter_In; split;
            [exact H0 | rewrite M0; reflexivity]|].
    split.
    { intros q. destruct DD as [(-> & _)|(-> & _)]; [auto | apply on_disk_remove_sub]. }
    split.
    { intros q A B. destruct DD as [(Dq & _)|(Dq & _)]; rewrite Dq in B; [congruence|].
      exists r. split; [exact Hin|]. split; [exact Hm|]. exact (on_disk_removed _ _ _ A B). }
    split.
    { intros S2. split.
      - intros r0 H0. rewrite P in H0. apply filter_In in H0.
        destruct H0 as [_ H0]. apply negb_true_iff in H0. exact H0.
      - exists r. split; [exact Hin|]. split; [exact Hm|].
        destruct DD as [(Dq & [S|[_ D]])|(Dq & _)]; rewrite Dq;
          [congruence | exact D | apply on_disk_remove]. }
    intros S4. destruct St; congruence.
Qed.

Lemma filter_all_true {A} (f : A -> bool) (l : list A) :
  (forall x, In x l -> f x = true) -> filter f l = l.
Proof.
  induction l as [|a l IH]; intros Hl; [reflexivity|].
  cbn [filter]. rewrite (Hl a (or_introl eq_refl)). f_equal. apply IH.
  intros x Hx. apply Hl. right. exact Hx.
Qed.

(** X21: saving a photo and deleting it again.  When the upload
    answered with the new [id], the table had no row that the delete
    request selects by that parameter, the path of the stored file is
    the one that the delete route computes from its name, and the
    delete answered 200, then the table is as it was before the upload
    and the uploaded file is off the disk. *)
Theorem upload_then_delete_restores_table
    (h : henv) (req req' : request) (w : world) (resp resp' : response)
    (id : nat) (name file_url : jsstring) (a : address) (lat lng : number)
    (company : option jsstring) (o : ocr_json) :
  fst (upload h req w) = Return resp ->
  json resp = Saved id name file_url a lat lng company o ->
  req_user req' = req_user req ->
  id_matches h (req_id req') id = true ->
  (forall r, In r (photos w) -> id_matches h (req_id req') (fst r) = false) ->
  (forall f, req_file req = Some f -> upload_path h (filename f) = path f) ->
  fst (delete_photo h req' (snd (upload h req w))) = Return resp' ->
  status resp' = 200 ->
  photos (snd (delete_photo h req' (snd (upload h req w)))) = photos w /\
  forall f, req_file req = Some f ->
    on_disk (path f) (disk (snd (delete_photo h req' (snd (upload h req w))))) = false.
Proof.
  intros R J U M Fr Pth R' S'.
  destruct (upload_cases h req w)
    as [(f & uid & r & fs' & id0 & F & Uq & _ & _ & _ & _ & E)|(_ & B)].
  2:{ destruct (B resp R) as (_ & Z & _). unfold ocr_of_response in Z.
      rewrite J in Z. discriminate Z. }
  cbv zeta in E. rewrite E in R, R' |- *. cbn [fst snd] in *.
  injection R as <-. cbn [json] in J. assert (Hid : id0 = id) by congruence.
  subst id0. clear J.
  set (p := mkPhoto _ _ _ _ _ _ _ _ _ _) in *.
  set (w1 := mkWorld _ _ _ _) in *.
  assert (Mp : matches_request h req' (id, p) = true).
  { unfold matches_request. rewrite U, Uq. apply owned_spec. split; [exact M|reflexivity]. }
  assert (Mw : forall r0, In r0 (photos w) -> matches_request h req' r0 = false).
  { intros r0 H0. unfold matches_request. rewrite U, Uq. unfold owned.
    rewrite (Fr r0 H0). reflexivity. }
  destruct (delete_photo_cases h req' w1) as (resp2 & w2 & E2 & C).
  rewrite E2 in R' |- *. cbn [fst snd] in *. injection R' as ->.
  destruct C as [(-> & [S|[_ N]])|(r0 & Hin & Hm & P & DD)].
  - congruence.
  - assert (X : matches_request h req' (id, p) = false).
    { apply N. subst w1. cbn [photos]. apply in_or_app. right. left. reflexivity. }
    congruence.
  - assert (Hr : r0 = (id, p)).
    { subst w1. cbn [photos] in Hin. apply in_app_or in Hin.
      destruct Hin as [Hin|[Hin|[]]]; [|symmetry; exact Hin].
      rewrite (Mw r0 Hin) in Hm. discriminate Hm. }
    subst r0. split.
    + rewrite P. subst w1. cbn [photos]. rewrite filter_app. cbn [filter].
      rewrite Mp. cbn [negb]. rewrite app_nil_r. apply filter_all_true.
      intros x Hx. rewrite (Mw x Hx). reflexivity.
    + intros f' Hf. rewrite F in Hf. injection Hf as <-.
      assert (Q : upload_path h (photo_name (snd (id, p))) = path f).
      { subst p. cbn [snd photo_name]. apply Pth. exact F. }
      rewrite Q in DD.
      destruct DD as [(Dq & [S|[_ D]])|(Dq & _)]; rewrite Dq;
        [congruence | exact D | apply on_disk_remove].
Qed.

Lemma upload_then_delete_restores_table_witness :
  photos (snd (delete_photo quiet_server delete_request
                 (snd (upload quiet_server upload_request one_upload)))) = [] /\
  on_disk (path sign_jpg)
          (disk (snd (delete_photo quiet_server delete_request
                        (snd (upload quiet_server upload_request one_upload))))) = false.
Proof.
  destruct (fst (upload quiet_server upload_request one_upload)) as [resp|err] eqn:E.
  2:{ vm_compute in E. discriminate E. }
  destruct (fst (delete_photo quiet_server delete_request
                   (snd (upload quiet_server upload_request one_upload))))
    as [resp'|err] eqn:E'.
  2:{ vm_compute in E'. discriminate E'. }
  assert (J : exists a c o, json resp = Saved 7 (of_string "sign.jpg")
                              (of_string "/uploads/sign.jpg") a (Num (13 # 1)) (Num (80 # 1)) c o).
  { vm_compute in E. injection E as <-. eexists _, _, _. reflexivity. }
  destruct J as (a & c & o & J).
  destruct (upload_then_delete_restores_table quiet_server upload_request delete_request
              one_upload resp resp' 7 _ _ _ _ _ _ _ E J) as [P D].
  - reflexivity.
  - reflexivity.
  - intros r [].
  - intros f Hf. injection Hf as <-. reflexivity.
  - exact E'.
  - vm_compute in E'. injection E' as <-. reflexivity.
  - split; [exact P | apply D; reflexivity].
Defined.
